(** * pglock: a PostgreSQL-backed distributed lock client

    Shallow embedding of [pglock/client.go].  The database is an explicit
    state (one lock table and its sequence), every transaction of the client
    is a state-passing function on it, and the driver's failures are read
    from an oracle carried by the state, so that every theorem quantifies
    over all the ways the database may fail.  The calls on the logger are
    left out: they touch neither the handle nor the database. *)

From Stdlib Require Import ZArith Bool Lia.
From stdpp Require Import gmap strings list fin_maps sorting.

Local Open Scope string_scope.
Local Open Scope list_scope.
Local Open Scope Z_scope.

(** ** Durations: [time.Duration] is an [int64] count of nanoseconds *)

Definition int64_min : Z := - 2 ^ 63.
Definition int64_max : Z := 2 ^ 63 - 1.

Definition in_int64 (z : Z) : Prop := int64_min <= z <= int64_max.

(** Two's-complement wrap-around of Go's [int64] arithmetic. *)
Definition wrap64 (z : Z) : Z := (z + 2 ^ 63) mod 2 ^ 64 - 2 ^ 63.

Definition Duration := Z.
Definition Second : Duration := 1000000000.

Definition DefaultTableName : string := "locks".
Definition DefaultLeaseDuration : Duration := 20 * Second.
Definition DefaultHeartbeatFrequency : Duration := 5 * Second.

(** ** Errors *)

(** The kinds of [cirello.io/errors] that the client uses. *)
Inductive Kind := Other | NotExist | Unavailable | FailedPrecondition.

Definition Kind_eqb (a b : Kind) : bool :=
  match a, b with
  | Other, Other | NotExist, NotExist | Unavailable, Unavailable
  | FailedPrecondition, FailedPrecondition => true
  | _, _ => false
  end.

(** What [database/sql], the [pq] driver and the context can hand back. *)
Inductive driver_error :=
| sql_ErrNoRows
| net_OpError (op : string)
| pq_Error (Code : string)
| context_Canceled
| context_DeadlineExceeded
| other_error (msg : string).

(** Go's [error] values of this package.  The five sentinels are package
    variables, compared by identity ([err == ErrNotAcquired]); [E] is a value
    built by [errors.E(kind, err, msg)]; [Plain] is a driver error passed on
    untouched; [Wrapf] is [errors.Wrapf].  A nil [error] is [None]. *)
Inductive error :=
| ErrNotPostgreSQLDriver
| ErrNotAcquired
| ErrLockAlreadyReleased
| ErrLockNotFound
| ErrDurationTooSmall
| E (k : Kind) (cause : driver_error) (msg : string)
| Plain (cause : driver_error)
| Wrapf (cause : error) (msg : string).

(** Modelled from the spec: [errors.Is] of the [cirello.io/errors] package,
    whose source is not at hand.  An error is classified by the kind it was
    built with: [ErrLockNotFound] is built with [errors.NotExist], the other
    sentinels with a text only, a driver error is of no kind, and wrapping
    keeps the classification. *)
Fixpoint is_kind (kind : Kind) (e : error) : bool :=
  match e with
  | ErrLockNotFound => Kind_eqb NotExist kind
  | E Other _ _ => false
  | E k _ _ => Kind_eqb k kind
  | Wrapf e' _ => is_kind kind e'
  | _ => false
  end.

Definition errors_Is (kind : Kind) (err : option error) : bool :=
  match err with
  | None => false
  | Some e => is_kind kind e
  end.

Definition is_ErrNotAcquired (err : option error) : bool :=
  match err with
  | Some ErrNotAcquired => true
  | _ => false
  end.

Definition serializationErrorCode : string := "40001".

Definition typedError (err : option driver_error) (v : string) : option error :=
  match err with
  | None => None
  | Some sql_ErrNoRows => Some (E NotExist sql_ErrNoRows v)
  | Some (net_OpError op) => Some (E Unavailable (net_OpError op) v)
  | Some (pq_Error Code) =>
      if String.eqb Code serializationErrorCode
      then Some (E FailedPrecondition (pq_Error Code) v)
      else Some (Plain (pq_Error Code))
  | Some e => Some (Plain e)
  end.

(** ** The retry loop

    [retry] calls [f] until its error is not a [FailedPrecondition].  The Go
    loop is unbounded; here it runs on fuel, and [None] means that the fuel
    ran out while [f] was still failing with serialization errors.  [f]
    mutates the lock handle and the database, which are the state [St]. *)
Fixpoint retry {St : Type} (fuel : nat) (f : St -> option error * St) (s : St)
  : option (option error * St) :=
  match fuel with
  | O => None
  | S fuel' =>
      let '(err, s') := f s in
      if errors_Is FailedPrecondition err
      then retry fuel' f s'
      else Some (err, s')
  end.

(** ** The client *)

Inductive Driver := pq_Driver | other_Driver (name : string).

(** [*sql.DB]: what the client's constructor looks at is the driver. *)
Record sql_DB := { db_Driver : Driver }.

Inductive Logger := discard_Logger | custom_Logger (id : nat).

Record Client := {
  c_db : sql_DB;
  c_tableName : string;
  c_leaseDuration : Duration;
  c_heartbeatFrequency : Duration;
  c_log : Logger;
}.

Inductive ClientOption :=
| WithLogger (l : Logger)
| WithLeaseDuration (d : Duration)
| WithHeartbeatFrequency (d : Duration)
| WithCustomTable (tableName : string).

Definition apply_ClientOption (c : Client) (opt : ClientOption) : Client :=
  match opt with
  | WithLogger l =>
      {| c_db := c_db c; c_tableName := c_tableName c;
         c_leaseDuration := c_leaseDuration c;
         c_heartbeatFrequency := c_heartbeatFrequency c; c_log := l |}
  | WithLeaseDuration d =>
      {| c_db := c_db c; c_tableName := c_tableName c;
         c_leaseDuration := d;
         c_heartbeatFrequency := c_heartbeatFrequency c; c_log := c_log c |}
  | WithHeartbeatFrequency d =>
      {| c_db := c_db c; c_tableName := c_tableName c;
         c_leaseDuration := c_leaseDuration c;
         c_heartbeatFrequency := d; c_log := c_log c |}
  | WithCustomTable t =>
      {| c_db := c_db c; c_tableName := t;
         c_leaseDuration := c_leaseDuration c;
         c_heartbeatFrequency := c_heartbeatFrequency c; c_log := c_log c |}
  end.

Definition isDurationTooSmall (c : Client) : bool :=
  (0 <? c_heartbeatFrequency c)
  && (c_leaseDuration c <? wrap64 (2 * c_heartbeatFrequency c)).

Definition default_Client (db : sql_DB) : Client :=
  {| c_db := db;
     c_tableName := DefaultTableName;
     c_leaseDuration := DefaultLeaseDuration;
     c_heartbeatFrequency := DefaultHeartbeatFrequency;
     c_log := discard_Logger |}.

(** [New(db, opts...)]; a nil [db] is [None]. *)
Definition New (db : option sql_DB) (opts : list ClientOption)
  : option Client * option error :=
  match db with
  | None => (None, Some ErrNotPostgreSQLDriver)
  | Some d =>
      match db_Driver d with
      | other_Driver _ => (None, Some ErrNotPostgreSQLDriver)
      | pq_Driver =>
          let c := foldl apply_ClientOption (default_Client d) opts in
          if isDurationTooSmall c
          then (None, Some ErrDurationTooSmall)
          else (Some c, None)
      end
  end.

(** ** The lock handle *)

(** The context whose cancel function the handle stores in
    [heartbeatCancel]: [hb_none] is the initial no-op [func() {}], [hb_active]
    a heartbeat context that is live, [hb_cancelled] one that was cancelled. *)
Inductive HeartbeatCtx := hb_none | hb_active | hb_cancelled.

(** Modelled from the spec: the [Lock] struct of [pglock/lock.go], which is
    not among the sources; the fields are those the client reads and writes
    (the back pointer to the client and the mutex are left out). *)
Record Lock := {
  l_name : string;
  l_recordVersionNumber : Z;
  l_data : list Byte.byte;
  l_leaseDuration : Duration;
  l_heartbeat : HeartbeatCtx;
  l_isReleased : bool;
  l_keepOnRelease : bool;
  l_replaceData : bool;
  l_failIfLocked : bool;
}.

Definition set_recordVersionNumber (rvn : Z) (l : Lock) : Lock :=
  {| l_name := l_name l; l_recordVersionNumber := rvn; l_data := l_data l;
     l_leaseDuration := l_leaseDuration l; l_heartbeat := l_heartbeat l;
     l_isReleased := l_isReleased l; l_keepOnRelease := l_keepOnRelease l;
     l_replaceData := l_replaceData l; l_failIfLocked := l_failIfLocked l |}.

Definition set_data (d : list Byte.byte) (l : Lock) : Lock :=
  {| l_name := l_name l; l_recordVersionNumber := l_recordVersionNumber l;
     l_data := d;
     l_leaseDuration := l_leaseDuration l; l_heartbeat := l_heartbeat l;
     l_isReleased := l_isReleased l; l_keepOnRelease := l_keepOnRelease l;
     l_replaceData := l_replaceData l; l_failIfLocked := l_failIfLocked l |}.

Definition set_leaseDuration (d : Duration) (l : Lock) : Lock :=
  {| l_name := l_name l; l_recordVersionNumber := l_recordVersionNumber l;
     l_data := l_data l;
     l_leaseDuration := d; l_heartbeat := l_heartbeat l;
     l_isReleased := l_isReleased l; l_keepOnRelease := l_keepOnRelease l;
     l_replaceData := l_replaceData l; l_failIfLocked := l_failIfLocked l |}.

Definition set_heartbeat (h : HeartbeatCtx) (l : Lock) : Lock :=
  {| l_name := l_name l; l_recordVersionNumber := l_recordVersionNumber l;
     l_data := l_data l;
     l_leaseDuration := l_leaseDuration l; l_heartbeat := h;
     l_isReleased := l_isReleased l; l_keepOnRelease := l_keepOnRelease l;
     l_replaceData := l_replaceData l; l_failIfLocked := l_failIfLocked l |}.

Definition set_isReleased (b : bool) (l : Lock) : Lock :=
  {| l_name := l_name l; l_recordVersionNumber := l_recordVersionNumber l;
     l_data := l_data l;
     l_leaseDuration := l_leaseDuration l; l_heartbeat := l_heartbeat l;
     l_isReleased := b; l_keepOnRelease := l_keepOnRelease l;
     l_replaceData := l_replaceData l; l_failIfLocked := l_failIfLocked l |}.

Definition set_keepOnRelease (b : bool) (l : Lock) : Lock :=
  {| l_name := l_name l; l_recordVersionNumber := l_recordVersionNumber l;
     l_data := l_data l;
     l_leaseDuration := l_leaseDuration l; l_heartbeat := l_heartbeat l;
     l_isReleased := l_isReleased l; l_keepOnRelease := b;
     l_replaceData := l_replaceData l; l_failIfLocked := l_failIfLocked l |}.

Definition set_replaceData (b : bool) (l : Lock) : Lock :=
  {| l_name := l_name l; l_recordVersionNumber := l_recordVersionNumber l;
     l_data := l_data l;
     l_leaseDuration := l_leaseDuration l; l_heartbeat := l_heartbeat l;
     l_isReleased := l_isReleased l; l_keepOnRelease := l_keepOnRelease l;
     l_replaceData := b; l_failIfLocked := l_failIfLocked l |}.

Definition set_failIfLocked (b : bool) (l : Lock) : Lock :=
  {| l_name := l_name l; l_recordVersionNumber := l_recordVersionNumber l;
     l_data := l_data l;
     l_leaseDuration := l_leaseDuration l; l_heartbeat := l_heartbeat l;
     l_isReleased := l_isReleased l; l_keepOnRelease := l_keepOnRelease l;
     l_replaceData := l_replaceData l; l_failIfLocked := b |}.

(** [l.heartbeatCancel()]: cancels the heartbeat context, if there is one. *)
Definition heartbeatCancel (l : Lock) : Lock :=
  match l_heartbeat l with
  | hb_active => set_heartbeat hb_cancelled l
  | _ => l
  end.

(** Modelled from the spec: [IsReleased] of [pglock/lock.go] reads the
    handle's flag. *)
Definition IsReleased (l : Lock) : bool := l_isReleased l.

(** Modelled from the spec: the lock options of [pglock/lock.go], section 4.3
    of the specification: data payload, custom lease, failIfLocked,
    keepOnRelease, replaceData. *)
Inductive LockOption :=
| WithData (data : list Byte.byte)
| WithCustomLeaseDuration (d : Duration)
| FailIfLocked
| KeepOnRelease
| ReplaceData.

Definition apply_LockOption (l : Lock) (opt : LockOption) : Lock :=
  match opt with
  | WithData d => set_data d l
  | WithCustomLeaseDuration d => set_leaseDuration d l
  | FailIfLocked => set_failIfLocked true l
  | KeepOnRelease => set_keepOnRelease true l
  | ReplaceData => set_replaceData true l
  end.

Definition newLock (c : Client) (name : string) (opts : list LockOption) : Lock :=
  foldl apply_LockOption
    {| l_name := name; l_recordVersionNumber := 0; l_data := [];
       l_leaseDuration := c_leaseDuration c; l_heartbeat := hb_none;
       l_isReleased := false; l_keepOnRelease := false;
       l_replaceData := false; l_failIfLocked := false |}
    opts.

(** ** The database

    One lock table, keyed by its primary key [name], and the sequence
    [<table>_rvn].  A [NULL] [record_version_number] is [None]; a [NULL]
    [data] and an empty one are both the empty list, as they are for the
    [[]byte] that the client scans them into. *)
Record Row := {
  record_version_number : option Z;
  row_data : list Byte.byte;
}.

(** The calls the client makes on the driver. *)
Inductive Call :=
| call_BeginTx
| call_nextval
| call_upsert
| call_select_for_update
| call_update_release
| call_RowsAffected
| call_delete
| call_update_heartbeat
| call_Commit.

Inductive Event :=
| ev_db (c : Call)
| ev_Done (done : bool)
| ev_Sleep (d : Duration).

(** What the other clients have committed between two transactions of this
    one: the table as they left it, and how many values they drew from the
    sequence. *)
Record Interference := {
  i_table : gmap string Row;
  i_draws : nat;
}.

(** The world a client runs in: the one table that the clients' [tableName]
    designates, with its sequence.  [rvn_seq] is the last value [nextval] gave
    out.  [faults] is read one entry per driver call: [Some e] makes the call
    fail with [e] (an empty list means no more failures).  [others] is read
    one entry per attempt of a public operation, [ctx_done] one entry per
    poll of [ctx.Done()].  [trace] records the driver calls, the polls of the
    context and the sleeps, in order. *)
Record World := {
  table : gmap string Row;
  rvn_seq : Z;
  faults : list (option driver_error);
  others : list Interference;
  ctx_done : list bool;
  trace : list Event;
}.

Definition set_table (t : gmap string Row) (w : World) : World :=
  {| table := t; rvn_seq := rvn_seq w; faults := faults w;
     others := others w; ctx_done := ctx_done w; trace := trace w |}.

(** One call on the driver: it is recorded, and the oracle says whether it
    fails. *)
Definition next_fault (w : World) : option driver_error :=
  match faults w with
  | f :: _ => f
  | [] => None
  end.

Definition called (c : Call) (w : World) : World :=
  {| table := table w; rvn_seq := rvn_seq w; faults := tail (faults w);
     others := others w; ctx_done := ctx_done w;
     trace := trace w ++ [ev_db c] |}.

Definition db_call (c : Call) (w : World) : option driver_error * World :=
  (next_fault w, called c w).

(** [SELECT nextval('<table>_rvn')]: sequences are not transactional, the
    value drawn is gone whether the transaction commits or not. *)
Definition drawn (w : World) : World :=
  {| table := table w; rvn_seq := rvn_seq w + 1; faults := faults w;
     others := others w; ctx_done := ctx_done w; trace := trace w |}.

Definition nextval (w : World) : World * Z := (drawn w, rvn_seq w + 1).

(** *** A monad for the bodies of the transactions

    The state is the handle (a pointer in Go, mutated in place) and the
    world; [Return err] is Go's early [return err]. *)
Inductive Result (A : Type) :=
| Ok (a : A)
| Return (err : option error).
Arguments Ok {A} a.
Arguments Return {A} err.

Definition Op (A : Type) : Type := Lock * World -> Result A * (Lock * World).

#[local] Instance Op_ret : MRet Op := fun A a s => (Ok a, s).
#[local] Instance Op_bind : MBind Op := fun A B f m s =>
  match m s with
  | (Ok a, s') => f a s'
  | (Return e, s') => (Return e, s')
  end.

Definition return_ {A} (err : option error) : Op A := fun s => (Return err, s).

Definition the_lock : Op Lock := fun s => (Ok (fst s), s).

Definition modify_lock (f : Lock -> Lock) : Op unit :=
  fun s => (Ok tt, (f (fst s), snd s)).

Definition the_table : Op (gmap string Row) := fun s => (Ok (table (snd s)), s).

(** A driver call followed by [if err != nil { return typedError(err, v) }]. *)
Definition exec (c : Call) (v : string) : Op unit := fun s =>
  let '(err, w) := db_call c (snd s) in
  match err with
  | Some e => (Return (typedError (Some e) v), (fst s, w))
  | None => (Ok tt, (fst s, w))
  end.

Definition draw : Op Z := fun s =>
  let '(w, rvn) := nextval (snd s) in (Ok rvn, (fst s, w)).

Definition getNextRVN (v : string) : Op Z :=
  exec call_nextval v;; draw.

(** [tx.Commit()]: the transaction's view of the table becomes the table. *)
Definition install (tx : gmap string Row) : Op unit := fun s =>
  (Ok tt, (fst s, set_table tx (snd s))).

Definition Commit (tx : gmap string Row) (v : string) : Op unit :=
  exec call_Commit v;; install tx.

Definition run {A} (m : Op A) (l : Lock) (w : World) : option error * Lock * World :=
  match m (l, w) with
  | (Ok _, (l', w')) => (None, l', w')
  | (Return err, (l', w')) => (err, l', w')
  end.

(** *** The statements *)

Definition rvn_eqb (a : option Z) (b : Z) : bool :=
  match a with
  | Some x => x =? b
  | None => false
  end.

(** [INSERT ... ON CONFLICT ("name") DO UPDATE SET ... WHERE
    record_version_number IS NULL OR record_version_number = $4]. *)
Definition upsert (name : string) (rvn : Z) (data : list Byte.byte)
    (claimant : Z) (replaceData : bool) (tx : gmap string Row) : gmap string Row :=
  match tx !! name with
  | None => <[name := {| record_version_number := Some rvn; row_data := data |}]> tx
  | Some r =>
      match record_version_number r with
      | None =>
          <[name := {| record_version_number := Some rvn;
                       row_data := if replaceData then data else row_data r |}]> tx
      | Some held =>
          if held =? claimant
          then <[name := {| record_version_number := Some rvn;
                            row_data := if replaceData then data else row_data r |}]> tx
          else tx
      end
  end.

(** [UPDATE ... SET record_version_number = $new WHERE name = $1 AND
    record_version_number = $2], with the number of rows affected; [$new] is
    [NULL] for a release and the drawn number for a heartbeat. *)
Definition update_rvn (name : string) (held : Z) (new : option Z)
    (tx : gmap string Row) : gmap string Row * Z :=
  match tx !! name with
  | Some r =>
      if rvn_eqb (record_version_number r) held
      then (<[name := {| record_version_number := new; row_data := row_data r |}]> tx, 1)
      else (tx, 0)
  | None => (tx, 0)
  end.

(** [DELETE FROM ... WHERE name = $1 AND record_version_number IS NULL]. *)
Definition delete_released (name : string) (tx : gmap string Row) : gmap string Row :=
  match tx !! name with
  | Some r =>
      match record_version_number r with
      | None => delete name tx
      | Some _ => tx
      end
  | None => tx
  end.

(** [rowLockInfo.Scan(&actualRVN, &data)] on the row selected by name: no row
    is [sql.ErrNoRows], and a [NULL] cannot be scanned into an [int64]. *)
Definition Scan (r : option Row) (v : string) : Op (Z * list Byte.byte) :=
  match r with
  | None => return_ (typedError (Some sql_ErrNoRows) v)
  | Some r =>
      match record_version_number r with
      | None => return_ (typedError (Some (other_error "converting NULL to int64 is unsupported")) v)
      | Some actualRVN => mret (actualRVN, row_data r)
      end
  end.

(** ** The three transactions *)

Definition storeAcquire_body (c : Client) : Op unit :=
  l ← the_lock;
  exec call_BeginTx "cannot create transaction for lock acquisition";;
  tx ← the_table;
  rvn ← getNextRVN "cannot run query to read record version number";
  exec call_upsert "cannot run query to acquire lock";;
  let tx := upsert (l_name l) rvn (l_data l) (l_recordVersionNumber l) (l_replaceData l) tx in
  exec call_select_for_update "cannot load information for lock acquisition";;
  '(actualRVN, data) ← Scan (tx !! l_name l) "cannot load information for lock acquisition";
  if negb (actualRVN =? rvn)
  then
    modify_lock (set_recordVersionNumber actualRVN);;
    return_ (Some ErrNotAcquired)
  else
    Commit tx "cannot commit lock acquisition";;
    modify_lock (set_recordVersionNumber rvn);;
    modify_lock (set_data data);;
    return_ None.

Definition storeAcquire (c : Client) (l : Lock) (w : World) : option error * Lock * World :=
  run (storeAcquire_body c) l w.

(** On success [tryAcquire] stores the cancel function of a fresh heartbeat
    context on the handle and starts the heartbeat task; the transactions of
    that task are steps of their own (see [step] below). *)
Definition tryAcquire (c : Client) (l : Lock) (w : World) : option error * Lock * World :=
  let '(err, l, w) := storeAcquire c l w in
  match err with
  | Some e => (Some e, l, w)
  | None => (None, set_heartbeat hb_active l, w)
  end.

Definition storeRelease_body (c : Client) : Op unit :=
  l ← the_lock;
  exec call_BeginTx "cannot create transaction for lock acquisition";;
  tx ← the_table;
  exec call_update_release "cannot run query to release lock";;
  let '(tx, affected) := update_rvn (l_name l) (l_recordVersionNumber l) None tx in
  exec call_RowsAffected "cannot confirm whether the lock has been released";;
  if affected =? 0
  then
    modify_lock (set_isReleased true);;
    modify_lock heartbeatCancel;;
    return_ (Some ErrLockAlreadyReleased)
  else
    tx ← (if negb (l_keepOnRelease l)
          then exec call_delete "cannot run query to delete lock";;
               mret (delete_released (l_name l) tx)
          else mret tx);
    Commit tx "cannot commit lock release";;
    modify_lock (set_isReleased true);;
    modify_lock heartbeatCancel;;
    return_ None.

Definition storeRelease (c : Client) (l : Lock) (w : World) : option error * Lock * World :=
  run (storeRelease_body c) l w.

Definition storeHeartbeat_body (c : Client) : Op unit :=
  l ← the_lock;
  exec call_BeginTx "cannot create transaction for lock acquisition";;
  tx ← the_table;
  rvn ← getNextRVN "cannot run query to read record version number";
  exec call_update_heartbeat "cannot run query to update the heartbeat";;
  let '(tx, affected) := update_rvn (l_name l) (l_recordVersionNumber l) (Some rvn) tx in
  exec call_RowsAffected "cannot confirm whether the lock has been updated for the heartbeat";;
  if affected =? 0
  then
    modify_lock (set_isReleased true);;
    return_ (Some ErrLockAlreadyReleased)
  else
    Commit tx "cannot commit lock heartbeat";;
    modify_lock (set_recordVersionNumber rvn);;
    return_ None.

Definition storeHeartbeat (c : Client) (l : Lock) (w : World) : option error * Lock * World :=
  run (storeHeartbeat_body c) l w.

(** ** The public operations

    Between two transactions of this client the other clients run: before
    each attempt of a public operation the next entry of [others] is
    applied. *)
Definition interleave (w : World) : World :=
  match others w with
  | [] => w
  | i :: rest =>
      {| table := i_table i; rvn_seq := rvn_seq w + Z.of_nat (i_draws i);
         faults := faults w; others := rest; ctx_done := ctx_done w;
         trace := trace w |}
  end.

(** The closure [func() error { return f(ctx, l) }] handed to [retry]. *)
Definition attempt (f : Lock -> World -> option error * Lock * World)
  : Lock * World -> option error * (Lock * World) :=
  fun s =>
    let '(err, l, w) := f (fst s) (interleave (snd s)) in (err, (l, w)).

(** [select { case <-ctx.Done(): ... default: ... }]: the next entry of
    [ctx_done] says whether the context is done at that moment. *)
Definition ctx_Done (w : World) : bool * World :=
  let done := match ctx_done w with b :: _ => b | [] => false end in
  (done,
   {| table := table w; rvn_seq := rvn_seq w; faults := faults w;
      others := others w; ctx_done := tail (ctx_done w);
      trace := trace w ++ [ev_Done done] |}).

Definition time_Sleep (d : Duration) (w : World) : World :=
  {| table := table w; rvn_seq := rvn_seq w; faults := faults w;
     others := others w; ctx_done := ctx_done w;
     trace := trace w ++ [ev_Sleep d] |}.

(** The [for] loop of [AcquireContext], on the handle made by [newLock].
    The result is Go's pair of a handle (nil is [None]) and an error; [None]
    for the whole means that the fuel ran out. *)
Fixpoint AcquireContext_loop (fuel : nat) (c : Client) (l : Lock) (w : World)
  : option (option Lock * option error * World) :=
  match fuel with
  | O => None
  | S fuel' =>
      let '(done, w) := ctx_Done w in
      if done then Some (None, Some ErrNotAcquired, w)
      else
        match retry fuel (attempt (tryAcquire c)) (l, w) with
        | None => None
        | Some (err, (l, w)) =>
            if l_failIfLocked l && is_ErrNotAcquired err
            then Some (Some l, err, w)
            else if is_ErrNotAcquired err
            then AcquireContext_loop fuel' c l (time_Sleep (l_leaseDuration l) w)
            else
              match err with
              | Some e => Some (None, Some e, w)
              | None => Some (Some l, None, w)
              end
        end
  end.

Definition AcquireContext (fuel : nat) (c : Client) (name : string)
    (opts : list LockOption) (w : World)
  : option (option Lock * option error * World) :=
  AcquireContext_loop fuel c (newLock c name opts) w.

Definition ReleaseContext (fuel : nat) (c : Client) (l : Lock) (w : World)
  : option (option error * (Lock * World)) :=
  if IsReleased l
  then Some (Some ErrLockAlreadyReleased, (l, w))
  else retry fuel (attempt (storeRelease c)) (l, w).

(** Modelled from the spec: [errors.Wrapf] of [cirello.io/errors] keeps a nil
    error nil and wraps any other with the message. *)
Definition errors_Wrapf (err : option error) (msg : string) : option error :=
  match err with
  | None => None
  | Some e => Some (Wrapf e msg)
  end.

Definition SendHeartbeat (fuel : nat) (c : Client) (l : Lock) (w : World)
  : option (option error * (Lock * World)) :=
  match retry fuel (attempt (storeHeartbeat c)) (l, w) with
  | None => None
  | Some (err, s) => Some (errors_Wrapf err ("cannot send heartbeat: " +:+ l_name l), s)
  end.

(** ** Several handles on one database

    The transactions are serializable, so a run of any number of clients is
    a sequence of whole transactions.  A schedule is a list of actions, each
    one transaction attempt of one handle; the handles are shared between
    the caller and its heartbeat task, so they live in the system state.
    Any action may come at any time: the retries, the waits and the ticks of
    the heartbeat are particular schedules. *)
Record System := {
  sys_world : World;
  sys_handles : list Lock;
}.

Inductive Action :=
| act_newLock (c : Client) (name : string) (opts : list LockOption)
| act_tryAcquire (c : Client) (h : nat)
| act_storeHeartbeat (c : Client) (h : nat)
| act_Release (c : Client) (h : nat).

(** What a caller sees: the attempt of handle [h] on lock [name] returned no
    error, with the handle holding [rvn]. *)
Inductive Observation :=
| obs_acquired (h : nat) (name : string) (rvn : Z).

Definition on_handle (h : nat) (s : System)
    (f : Lock -> World -> option error * Lock * World)
  : option error * System :=
  match sys_handles s !! h with
  | None => (None, s)
  | Some l =>
      let '(err, l', w') := f l (sys_world s) in
      (err, {| sys_world := w'; sys_handles := <[h := l']> (sys_handles s) |})
  end.

Definition step (a : Action) (s : System) : System * list Observation :=
  match a with
  | act_newLock c name opts =>
      ({| sys_world := sys_world s;
          sys_handles := sys_handles s ++ [newLock c name opts] |}, [])
  | act_tryAcquire c h =>
      match sys_handles s !! h with
      | None => (s, [])
      | Some l =>
          let '(err, l', w') := tryAcquire c l (sys_world s) in
          ({| sys_world := w'; sys_handles := <[h := l']> (sys_handles s) |},
           match err with
           | None => [obs_acquired h (l_name l') (l_recordVersionNumber l')]
           | Some _ => []
           end)
      end
  | act_storeHeartbeat c h =>
      (snd (on_handle h s (storeHeartbeat c)), [])
  | act_Release c h =>
      (snd (on_handle h s (fun l w =>
         if IsReleased l then (Some ErrLockAlreadyReleased, l, w)
         else storeRelease c l w)), [])
  end.

Fixpoint run_schedule (sched : list Action) (s : System) : System * list Observation :=
  match sched with
  | [] => (s, [])
  | a :: rest =>
      let '(s', o) := step a s in
      let '(s'', os) := run_schedule rest s' in
      (s'', o ++ os)
  end.

(** The RVNs with which lock [name] was acquired, in the order of the run. *)
Definition acquired_rvns (name : string) (os : list Observation) : list Z :=
  omap (fun o => match o with
                 | obs_acquired _ n rvn => if String.eqb n name then Some rvn else None
                 end) os.

(** ** Vocabulary of the statements *)

Definition after_calls (cs : list Call) (w : World) : World :=
  foldl (fun w c => called c w) w cs.

Definition drawn_if (b : bool) (w : World) : World := if b then drawn w else w.

Definition claimable (r : option Row) (claimant : Z) : bool :=
  match r with
  | None => true
  | Some r =>
      match record_version_number r with
      | None => true
      | Some held => held =? claimant
      end
  end.

(** The payload an acquisition leaves in the row. *)
Definition acquired_data (l : Lock) (r : option Row) : list Byte.byte :=
  match r with
  | None => l_data l
  | Some r => if l_replaceData l then l_data l else row_data r
  end.

Definition acquire_calls : list Call :=
  [call_BeginTx; call_nextval; call_upsert; call_select_for_update].

(** The handle's claim is the row's: the row exists and carries the RVN that
    the handle holds. *)
Definition holds (l : Lock) (t : gmap string Row) : bool :=
  match t !! l_name l with
  | Some r => rvn_eqb (record_version_number r) (l_recordVersionNumber l)
  | None => false
  end.

Definition released (l : Lock) : Lock := heartbeatCancel (set_isReleased true l).

Definition release_calls : list Call :=
  [call_BeginTx; call_update_release; call_RowsAffected].

Definition free_row (r : Row) : Row :=
  {| record_version_number := None; row_data := row_data r |}.

Definition heartbeat_calls : list Call :=
  [call_BeginTx; call_nextval; call_update_heartbeat; call_RowsAffected].

Definition refresh_row (rvn : Z) (r : Row) : Row :=
  {| record_version_number := Some rvn; row_data := row_data r |}.


(** What one transaction attempt may do to the world around the table: it
    draws at most one value from the sequence, makes driver calls and reads
    the fault oracle; it neither polls the context nor lets others run. *)
Definition attempt_frame (w w' : World) : Prop :=
  others w' = others w
  /\ ctx_done w' = ctx_done w
  /\ rvn_seq w <= rvn_seq w' <= rvn_seq w + 1
  /\ (exists cs, cs <> [] /\ trace w' = trace w ++ map ev_db cs)
  /\ (length (faults w') <= length (faults w))%nat.

(** The handle fields that no transaction writes. *)
Definition same_settings (l l' : Lock) : Prop :=
  l_name l' = l_name l
  /\ l_leaseDuration l' = l_leaseDuration l
  /\ l_keepOnRelease l' = l_keepOnRelease l
  /\ l_replaceData l' = l_replaceData l
  /\ l_failIfLocked l' = l_failIfLocked l.

(** The next [n] driver calls succeed. *)
Definition calls_succeed (n : nat) (w : World) : bool :=
  forallb (fun f => match f with None => true | Some _ => false end)
    (take n (faults w)).

(** The row's RVN, if it has one, was drawn from the sequence: it is at most
    the last value given out. *)
Definition drawn_before (r : option Row) (seq : Z) : bool :=
  match r with
  | None => true
  | Some r =>
      match record_version_number r with
      | None => true
      | Some rvn => rvn <=? seq
      end
  end.

(** Every RVN in the table was drawn from the sequence. *)
Definition sequence_ahead (w : World) : Prop :=
  forall name, drawn_before (table w !! name) (rvn_seq w) = true.

(** The state after [n] calls of [f], each on the state the one before
    left. *)
Fixpoint state_after {St : Type} (f : St -> option error * St) (n : nat) (s : St) : St :=
  match n with
  | O => s
  | S n' => state_after f n' (f s).2
  end.

(** The client as [New] configures it: the defaults, then the options in
    order. *)
Definition configured (db : sql_DB) (opts : list ClientOption) : Client :=
  foldl apply_ClientOption (default_Client db) opts.

(** Where the wait loop of [AcquireContext] stands in its trace: about to
    poll the context, polled and not yet in the database, or past at least
    one driver call of the current round. *)
Inductive LoopPhase := at_select | polled | attempted.

(** The shape of the trace of the wait loop for a lease [d]: every round
    starts with one poll of the context, a sleep comes only after the driver
    calls of a round, lasts exactly [d] and ends the round, and the loop
    does not stop between a sleep and the next poll. *)
Fixpoint wait_loop_shape (d : Duration) (p : LoopPhase) (tr : list Event) : bool :=
  match tr with
  | [] => match p with at_select => false | _ => true end
  | ev_Done _ :: tr' =>
      match p with at_select => wait_loop_shape d polled tr' | _ => false end
  | ev_db _ :: tr' =>
      match p with at_select => false | _ => wait_loop_shape d attempted tr' end
  | ev_Sleep d' :: tr' =>
      match p with
      | attempted => (d' =? d) && wait_loop_shape d at_select tr'
      | _ => false
      end
  end.

Definition is_Sleep (e : Event) : bool :=
  match e with ev_Sleep _ => true | _ => false end.

(** What the retried attempts of one round keep: the settings of the handle,
    its released flag, the context oracle; the trace gains driver calls
    only. *)
Definition round_keeps (l : Lock) (w : World) (s : Lock * World) : Prop :=
  same_settings l s.1 /\ l_isReleased s.1 = l_isReleased l
  /\ ctx_done s.2 = ctx_done w
  /\ exists cs, trace s.2 = trace w ++ map ev_db cs.

Definition obs_rvn (o : Observation) : Z :=
  match o with obs_acquired _ _ rvn => rvn end.

(** A round of attempts on a quiet database whose row the handle can claim:
    nobody else writes any more, and the row is absent, free or carries the
    RVN the handle last observed. *)
Definition quiet_and_claimable (s : Lock * World) : Prop :=
  others s.2 = []
  /\ claimable (table s.2 !! l_name s.1) (l_recordVersionNumber s.1) = true.

(** What the retried attempts of a round do to the oracles. *)
Definition round_consumes (w : World) (s : Lock * World) : Prop :=
  (length (faults s.2) <= length (faults w))%nat
  /\ (length (others s.2) <= length (others w))%nat.

Definition obs_name (o : Observation) : string :=
  match o with obs_acquired _ name _ => name end.

(** The row of [name], if it is held, carries an RVN that is at least
    [rvn]. *)
Definition row_not_behind (t : gmap string Row) (name : string) (rvn : Z) : Prop :=
  forall r x, t !! name = Some r -> record_version_number r = Some x -> rvn <= x.

(** The RVNs of the held rows after a transaction are those of before or
    were drawn by it. *)
Definition rows_old_or_fresh (w w' : World) : Prop :=
  forall name r x,
    table w' !! name = Some r -> record_version_number r = Some x ->
    (exists r0, table w !! name = Some r0 /\ record_version_number r0 = Some x)
    \/ rvn_seq w < x <= rvn_seq w'.

(** ** Sample clients, handles and worlds *)

Definition ex_client : Client := default_Client {| db_Driver := pq_Driver |}.

(** A database where lock ["job"] is held with RVN 7, and nothing fails. *)
Definition ex_world_held : World :=
  {| table := {[ "job" := {| record_version_number := Some 7;
                             row_data := [Byte.x01] |} ]};
     rvn_seq := 7; faults := []; others := []; ctx_done := []; trace := [] |}.

(** The handle of a caller that has not yet tried. *)
Definition ex_contender : Lock := newLock ex_client "job" [FailIfLocked].

(** The handle of the holder of ["job"] in [ex_world_held]. *)
Definition ex_holder : Lock :=
  set_heartbeat hb_active
    (set_data [Byte.x01] (set_recordVersionNumber 7 (newLock ex_client "job" []))).

(** The same database with a serialization failure waiting on the next
    driver call. *)
Definition ex_world_conflict : World :=
  {| table := table ex_world_held; rvn_seq := rvn_seq ex_world_held;
     faults := [Some (pq_Error "40001")]; others := []; ctx_done := [];
     trace := [] |}.

Definition ex_db : sql_DB := {| db_Driver := pq_Driver |}.

(** The holder's handle after its lock was lost. *)
Definition ex_released : Lock := set_isReleased true ex_holder.

Definition ex_system : System :=
  {| sys_world := ex_world_held; sys_handles := [ex_released; ex_contender] |}.

Definition ex_schedule : list Action :=
  [act_tryAcquire ex_client 0; act_tryAcquire ex_client 1;
   act_storeHeartbeat ex_client 0; act_tryAcquire ex_client 1;
   act_Release ex_client 0; act_newLock ex_client "job" [];
   act_Release ex_client 1; act_tryAcquire ex_client 2].

(** A caller that waits for ["job"] while its holder has gone silent. *)
Definition ex_waiting : option (option Lock * option error * World) :=
  AcquireContext 3 ex_client "job" [] ex_world_held.

(** [ex_world_held] under a context that is cancelled while the caller
    waits: it is not done at the first poll and done at the second. *)
Definition ex_world_cancelled : World :=
  {| table := table ex_world_held; rvn_seq := rvn_seq ex_world_held;
     faults := []; others := []; ctx_done := [false; true]; trace := [] |}.

(** A caller whose context is cancelled during its first wait. *)
Definition ex_cancelled : option (option Lock * option error * World) :=
  AcquireContext 2 ex_client "job" [] ex_world_cancelled.

(** A caller that does not wait. *)
Definition ex_refused : option (option Lock * option error * World) :=
  AcquireContext 1 ex_client "job" [FailIfLocked] ex_world_held.

(** * The rest of the client

    The public operations that the statements above do not mention, on the
    same world. *)

(** [context.Background()] is never done: the polls of the operation read an
    empty oracle, and the caller's oracle comes back untouched. *)
Definition with_ctx_done (cs : list bool) (w : World) : World :=
  {| table := table w; rvn_seq := rvn_seq w; faults := faults w;
     others := others w; ctx_done := cs; trace := trace w |}.

(** [Acquire(name, opts...)] is [AcquireContext] on the background context. *)
Definition Acquire (fuel : nat) (c : Client) (name : string)
    (opts : list LockOption) (w : World)
  : option (option Lock * option error * World) :=
  match AcquireContext fuel c name opts (with_ctx_done [] w) with
  | None => None
  | Some (hdl, err, w') => Some (hdl, err, with_ctx_done (ctx_done w) w')
  end.

(** [Release(l)] is [ReleaseContext] on the background context; the context
    of a release only reaches the driver calls, whose failures the fault
    oracle decides. *)
Definition Release (fuel : nat) (c : Client) (l : Lock) (w : World)
  : option (option error * (Lock * World)) :=
  ReleaseContext fuel c l w.

(** [getLock]: one [SELECT "data" ... WHERE "name" = $1 FOR UPDATE] outside
    any transaction, scanned into a [[]byte] that stays nil on failure. *)
Definition getLock (c : Client) (name : string) (w : World)
  : list Byte.byte * option error * World :=
  let '(err, w) := db_call call_select_for_update w in
  match err with
  | Some sql_ErrNoRows => ([], Some ErrLockNotFound, w)
  | Some e => ([], typedError (Some e) "cannot load the data of this lock", w)
  | None =>
      match table w !! name with
      | None => ([], Some ErrLockNotFound, w)
      | Some r => (row_data r, typedError None "cannot load the data of this lock", w)
      end
  end.

(** The closure of [GetDataContext]: it assigns the captured [data] and
    returns the error. *)
Definition getLock_attempt (c : Client) (name : string)
  : list Byte.byte * World -> option error * (list Byte.byte * World) :=
  fun s => let '(data, err, w) := getLock c name (interleave (snd s)) in (err, (data, w)).

Definition GetDataContext (fuel : nat) (c : Client) (name : string) (w : World)
  : option (list Byte.byte * option error * World) :=
  match retry fuel (getLock_attempt c name) ([], w) with
  | None => None
  | Some (err, (data, w')) => Some (data, err, w')
  end.

Definition GetData (fuel : nat) (c : Client) (name : string) (w : World)
  : option (list Byte.byte * option error * World) :=
  GetDataContext fuel c name w.

(** The [for] loop of the heartbeat task.  Its context is the one whose
    cancel function the handle stores: a cancelled one ends the task, and so
    does a poll of the oracle that finds the context done before the timer
    fires.  Waiting for [time.After(c.heartbeatFrequency)] is recorded as a
    sleep.  [None] means that the task is still running when the fuel is
    spent. *)
Fixpoint heartbeat_loop (fuel : nat) (c : Client) (l : Lock) (w : World)
  : option (Lock * World) :=
  match fuel with
  | O => None
  | S fuel' =>
      match l_heartbeat l with
      | hb_cancelled => Some (l, w)
      | _ =>
          let '(done, w) := ctx_Done w in
          if done then Some (l, w)
          else
            match SendHeartbeat fuel c l (time_Sleep (c_heartbeatFrequency c) w) with
            | None => None
            | Some (Some _, (l, w)) => Some (l, w)
            | Some (None, (l, w)) => heartbeat_loop fuel' c l w
            end
      end
  end.

Definition heartbeat (fuel : nat) (c : Client) (l : Lock) (w : World)
  : option (Lock * World) :=
  if c_heartbeatFrequency c <=? 0 then Some (l, w)
  else heartbeat_loop fuel c l w.

(** [do]: the callback [f] is user code, any function on the handle and the
    world.  It runs under a fresh heartbeat context, which the deferred
    [cancel()] cancels when [do] returns; what the heartbeat task does to
    the handle and to the database while [f] runs is part of what the run of
    [f] does to them. *)
Definition do (c : Client) (f : Lock -> World -> option error * Lock * World)
    (l : Lock) (w : World) : option error * Lock * World :=
  let '(err, l, w) := storeAcquire c l w in
  match err with
  | Some e => (Some e, l, w)
  | None =>
      let '(err, l, w) := f (set_heartbeat hb_active l) w in
      (err, set_heartbeat hb_cancelled l, w)
  end.

(** The [for] loop of [Do]; the handle comes back with the error, for the
    deferred [l.Close()]. *)
Fixpoint Do_loop (fuel : nat) (c : Client)
    (f : Lock -> World -> option error * Lock * World) (l : Lock) (w : World)
  : option (option error * Lock * World) :=
  match fuel with
  | O => None
  | S fuel' =>
      let '(done, w) := ctx_Done w in
      if done then Some (Some ErrNotAcquired, l, w)
      else
        match retry fuel (attempt (do c f)) (l, w) with
        | None => None
        | Some (err, (l, w)) =>
            if l_failIfLocked l && is_ErrNotAcquired err
            then Some (err, l, w)
            else if is_ErrNotAcquired err
            then Do_loop fuel' c f l (time_Sleep (l_leaseDuration l) w)
            else Some (err, l, w)
        end
  end.

(** [Do]: [Close] stands for the method [l.Close()] of [pglock/lock.go],
    which is not among the sources; its error is dropped by the [defer]. *)
Definition Do (fuel : nat) (c : Client)
    (Close : Lock -> World -> option error * Lock * World)
    (name : string) (f : Lock -> World -> option error * Lock * World)
    (opts : list LockOption) (w : World)
  : option (option error * Lock * World) :=
  match Do_loop fuel c f (newLock c name opts) w with
  | None => None
  | Some (err, l, w') =>
      let '(_, l', w'') := Close l w' in Some (err, l', w'')
  end.

(** ** Vocabulary of the further statements *)

(** A world in which the driver does not fail and nobody else writes. *)
Definition quiet (w : World) : Prop := faults w = [] /\ others w = [].

(** A world like [ex_world_held], with a second lock next to ["job"]. *)
Definition ex_world_two : World :=
  {| table := <["report" := {| record_version_number := None;
                               row_data := [Byte.x02] |}]> (table ex_world_held);
     rvn_seq := 7; faults := []; others := []; ctx_done := []; trace := [] |}.

(** A run that nothing disturbs: the driver never fails, no other client
    runs, and the context is never done. *)
Definition calm (w : World) : Prop := quiet w /\ ctx_done w = [].

Definition obs_handle (o : Observation) : nat :=
  match o with obs_acquired h _ _ => h end.

(** The heartbeats of handle [h] come in time.  [pending] says that another
    handle has just tried to acquire, and so may have read the RVN of the
    row: the next transaction must then be a heartbeat of [h].  Handle [h]
    is never released.  The result is the new [pending], or [None] when the
    action comes at a wrong time. *)
Definition watch (h : nat) (pending : bool) (a : Action) : option bool :=
  match a with
  | act_newLock _ _ _ => Some pending
  | act_tryAcquire _ k => if pending then None else Some (negb (k =? h)%nat)
  | act_storeHeartbeat _ k =>
      if (k =? h)%nat then Some false
      else if pending then None else Some false
  | act_Release _ k => if pending || (k =? h)%nat then None else Some false
  end.

Fixpoint heartbeat_in_time (h : nat) (pending : bool) (sched : list Action) : bool :=
  match sched with
  | [] => true
  | a :: rest =>
      match watch h pending a with
      | Some p => heartbeat_in_time h p rest
      | None => false
      end
  end.

(** Handle [h] is [lh] and holds its lock; the driver does not fail; every
    RVN of a row or of a handle was drawn from the sequence; and, unless an
    attempt is [pending], no other handle carries the RVN of [lh]. *)
Definition lock_kept (h : nat) (pending : bool) (s : System) (lh : Lock) : Prop :=
  faults (sys_world s) = []
  /\ sequence_ahead (sys_world s)
  /\ sys_handles s !! h = Some lh
  /\ holds lh (table (sys_world s)) = true
  /\ 0 < l_recordVersionNumber lh
  /\ Forall (fun l => l_recordVersionNumber l <= rvn_seq (sys_world s)) (sys_handles s)
  /\ (pending = false ->
      forall k lk, k <> h -> sys_handles s !! k = Some lk ->
                   l_recordVersionNumber lk <> l_recordVersionNumber lh).

(** The holder of ["job"] and a contender, on [ex_world_held]. *)
Definition ex_system_held : System :=
  {| sys_world := ex_world_held; sys_handles := [ex_holder; ex_contender] |}.

(** The contender tries twice and gives up; the holder's heartbeat follows
    each attempt. *)
Definition ex_contended : list Action :=
  [act_tryAcquire ex_client 1; act_storeHeartbeat ex_client 0;
   act_tryAcquire ex_client 1; act_storeHeartbeat ex_client 0;
   act_Release ex_client 1].

(** [ex_world_held] under a context that is done at the third poll. *)
Definition ex_world_ticking : World :=
  with_ctx_done [false; false; true] ex_world_held.

(** The database after another client took ["job"] over with RVN 9. *)
Definition ex_world_taken : World :=
  {| table := {[ "job" := {| record_version_number := Some 9;
                             row_data := [Byte.x01] |} ]};
     rvn_seq := 9; faults := []; others := []; ctx_done := []; trace := [] |}.

(** A callback that does nothing and succeeds, and a close that does
    nothing. *)
Definition ex_callback (l : Lock) (w : World) : option error * Lock * World :=
  (None, l, w).

Definition ex_Close (l : Lock) (w : World) : option error * Lock * World :=
  (None, l, w).

(** * Properties *)

(** ** Driver calls *)

Lemma after_calls_app cs cs' w :
  after_calls (cs ++ cs') w = after_calls cs' (after_calls cs w).
Proof. apply foldl_app. Qed.

Lemma after_calls_frame cs w :
  table (after_calls cs w) = table w
  /\ rvn_seq (after_calls cs w) = rvn_seq w
  /\ others (after_calls cs w) = others w
  /\ ctx_done (after_calls cs w) = ctx_done w
  /\ trace (after_calls cs w) = trace w ++ map ev_db cs
  /\ faults (after_calls cs w) = drop (length cs) (faults w).
Proof.
  revert w. induction cs as [|c cs IH]; intros w; cbn [after_calls foldl].
  - rewrite app_nil_r, drop_0. repeat split.
  - destruct (IH (called c w)) as (Ht & Hs & Ho & Hc & Htr & Hf).
    fold (after_calls cs (called c w)).
    rewrite Ht, Hs, Ho, Hc, Htr, Hf. cbn. rewrite <- app_assoc.
    repeat split. destruct (faults w); cbn; [by rewrite ?drop_nil | done].
Qed.

Lemma next_fault_after_calls cs w e :
  next_fault (after_calls cs w) = Some e -> faults w !! length cs = Some (Some e).
Proof.
  unfold next_fault. destruct (after_calls_frame cs w) as (_ & _ & _ & _ & _ & ->).
  destruct (drop (length cs) (faults w)) as [|f fs] eqn:Hd; [discriminate|].
  intros ->. pose proof (lookup_drop (faults w) (length cs) 0) as H.
  rewrite Hd, Nat.add_0_r in H. symmetry. exact H.
Qed.

Lemma exec_eq c v l w :
  exec c v (l, w) =
  match next_fault w with
  | Some e => (Return (typedError (Some e) v), (l, called c w))
  | None => (Ok tt, (l, called c w))
  end.
Proof. reflexivity. Qed.

#[global] Opaque exec.
Arguments typedError : simpl never.
Arguments upsert : simpl never.
Arguments update_rvn : simpl never.
Arguments delete_released : simpl never.
Arguments called : simpl never.
Arguments drawn : simpl never.
Arguments set_table : simpl never.
Arguments next_fault : simpl never.

Lemma table_called c w : table (called c w) = table w.
Proof. reflexivity. Qed.
Lemma rvn_seq_called c w : rvn_seq (called c w) = rvn_seq w.
Proof. reflexivity. Qed.
Lemma table_drawn w : table (drawn w) = table w.
Proof. reflexivity. Qed.
Lemma rvn_seq_drawn w : rvn_seq (drawn w) = rvn_seq w + 1.
Proof. reflexivity. Qed.
Lemma called_drawn c w : called c (drawn w) = drawn (called c w).
Proof. reflexivity. Qed.

Ltac unfold_body :=
  cbv beta iota delta
    [run mbind Op_bind mret Op_ret the_lock the_table getNextRVN Commit draw
     nextval install modify_lock return_ Scan fst snd].

(** Runs the next [exec] of a transaction body and splits on the oracle. *)
Ltac step_exec :=
  rewrite exec_eq;
  match goal with
  | |- context [next_fault ?w] =>
      let e := fresh "e" in
      let He := fresh "He" in
      destruct (next_fault w) as [e|] eqn:He
  end;
  cbv beta iota.

Lemma upsert_lookup name rvn data claimant rd tx :
  upsert name rvn data claimant rd tx !! name =
  match tx !! name with
  | None => Some {| record_version_number := Some rvn; row_data := data |}
  | Some r =>
      if claimable (Some r) claimant
      then Some {| record_version_number := Some rvn;
                   row_data := if rd then data else row_data r |}
      else Some r
  end.
Proof.
  unfold upsert, claimable. destruct (tx !! name) as [r|] eqn:Hr.
  - destruct (record_version_number r) as [held|].
    + destruct (held =? claimant); [apply lookup_insert_eq | exact Hr].
    + apply lookup_insert_eq.
  - apply lookup_insert_eq.
Qed.

Lemma storeAcquire_cases c l w :
  let rvn := rvn_seq w + 1 in
  let tx := upsert (l_name l) rvn (l_data l) (l_recordVersionNumber l)
              (l_replaceData l) (table w) in
  (exists cs0 c0 b e v,
      (length cs0 < 5)%nat /\ next_fault (after_calls cs0 w) = Some e
      /\ storeAcquire c l w =
         (typedError (Some e) v, l, drawn_if b (after_calls (cs0 ++ [c0]) w)))
  \/ (exists r held,
         tx !! l_name l = Some r /\ record_version_number r = Some held
         /\ held <> rvn
         /\ storeAcquire c l w =
            (Some ErrNotAcquired, set_recordVersionNumber held l,
             drawn (after_calls acquire_calls w)))
  \/ (exists data,
         tx !! l_name l = Some {| record_version_number := Some rvn; row_data := data |}
         /\ storeAcquire c l w =
            (None, set_data data (set_recordVersionNumber rvn l),
             set_table tx (drawn (after_calls (acquire_calls ++ [call_Commit]) w)))).
Proof.
  intros rvn tx. unfold storeAcquire, storeAcquire_body.
  unfold_body.
  step_exec.
  { left. exists [], call_BeginTx, false, e, "cannot create transaction for lock acquisition".
    cbn. auto with lia. }
  step_exec.
  { left. exists [call_BeginTx], call_nextval, false, e, "cannot run query to read record version number".
    cbn. auto with lia. }
  step_exec.
  { left. exists [call_BeginTx; call_nextval], call_upsert, true, e, "cannot run query to acquire lock".
    cbn. auto with lia. }
  step_exec.
  { left. exists [call_BeginTx; call_nextval; call_upsert], call_select_for_update, true, e, "cannot load information for lock acquisition".
    cbn. auto with lia. }
  rewrite ?table_called, ?rvn_seq_called. fold rvn. fold tx.
  assert (Hrow : tx !! l_name l =
                 match table w !! l_name l with
                 | None => Some {| record_version_number := Some rvn; row_data := l_data l |}
                 | Some r =>
                     if claimable (Some r) (l_recordVersionNumber l)
                     then Some {| record_version_number := Some rvn;
                                  row_data := if l_replaceData l then l_data l else row_data r |}
                     else Some r
                 end) by apply upsert_lookup.
  destruct (tx !! l_name l) as [r|] eqn:Htx.
  2:{ exfalso. repeat case_match; discriminate. }
  destruct (record_version_number r) as [actualRVN|] eqn:Hrvn.
  2:{ exfalso. unfold claimable in Hrow. repeat case_match; simplify_eq; cbn in *; congruence. }
  destruct (actualRVN =? rvn) eqn:Heq; cbv beta iota delta [negb].
  - apply Z.eqb_eq in Heq. subst actualRVN.
    step_exec.
    { left. exists acquire_calls, call_Commit, true, e, "cannot commit lock acquisition".
      cbn. auto with lia. }
    right. right. exists (row_data r). split; [destruct r; cbn in *; congruence | reflexivity].
  - apply Z.eqb_neq in Heq. right. left. exists r, actualRVN. auto.
Qed.

Lemma update_rvn_eq name held new tx :
  update_rvn name held new tx =
  match tx !! name with
  | Some r =>
      if rvn_eqb (record_version_number r) held
      then (<[name := {| record_version_number := new; row_data := row_data r |}]> tx, 1)
      else (tx, 0)
  | None => (tx, 0)
  end.
Proof. reflexivity. Qed.

Lemma update_rvn_holds l new t :
  update_rvn (l_name l) (l_recordVersionNumber l) new t =
  if holds l t
  then (alter (fun r => {| record_version_number := new; row_data := row_data r |})
          (l_name l) t, 1)
  else (t, 0).
Proof.
  rewrite update_rvn_eq. unfold holds.
  destruct (t !! l_name l) as [r|] eqn:Hr; [|reflexivity].
  destruct (rvn_eqb _ _); [|reflexivity].
  f_equal. apply map_eq. intros k. destruct (decide (l_name l = k)) as [<-|Hne].
  - rewrite lookup_insert_eq, lookup_alter_eq, Hr. reflexivity.
  - rewrite lookup_insert_ne, lookup_alter_ne by done. reflexivity.
Qed.

Lemma storeRelease_cases c l w :
  (exists cs0 c0 e v,
      (length cs0 < 5)%nat /\ next_fault (after_calls cs0 w) = Some e
      /\ storeRelease c l w =
         (typedError (Some e) v, l, after_calls (cs0 ++ [c0]) w))
  \/ (holds l (table w) = false
      /\ storeRelease c l w =
         (Some ErrLockAlreadyReleased, released l, after_calls release_calls w))
  \/ (holds l (table w) = true /\ l_keepOnRelease l = true
      /\ storeRelease c l w =
         (None, released l,
          set_table (alter free_row (l_name l) (table w))
            (after_calls (release_calls ++ [call_Commit]) w)))
  \/ (holds l (table w) = true /\ l_keepOnRelease l = false
      /\ storeRelease c l w =
         (None, released l,
          set_table (delete (l_name l) (table w))
            (after_calls (release_calls ++ [call_delete; call_Commit]) w))).
Proof.
  unfold storeRelease, storeRelease_body. unfold_body.
  step_exec.
  { left. exists [], call_BeginTx, e, "cannot create transaction for lock acquisition".
    cbn. auto with lia. }
  step_exec.
  { left. exists [call_BeginTx], call_update_release, e, "cannot run query to release lock".
    cbn. auto with lia. }
  rewrite ?table_called, update_rvn_holds. fold free_row.
  destruct (holds l (table w)) eqn:Hh; cbv beta iota.
  - step_exec.
    { left. exists [call_BeginTx; call_update_release], call_RowsAffected, e,
        "cannot confirm whether the lock has been released".
      cbn. auto with lia. }
    change (1 =? 0) with false. cbv beta iota.
    destruct (l_keepOnRelease l) eqn:Hk; cbv beta iota delta [negb].
    + step_exec.
      { left. exists release_calls, call_Commit, e, "cannot commit lock release".
        cbn. auto with lia. }
      right. right. left. auto.
    + step_exec.
      { left. exists release_calls, call_delete, e, "cannot run query to delete lock".
        cbn. auto with lia. }
      step_exec.
      { left. exists (release_calls ++ [call_delete]), call_Commit, e, "cannot commit lock release".
        cbn. auto with lia. }
      right. right. right. split; [reflexivity|]. split; [reflexivity|].
      f_equal. f_equal.
      unfold delete_released.
      unfold holds in Hh. destruct (table w !! l_name l) as [r|] eqn:Hr; [|discriminate].
      rewrite lookup_alter_eq, Hr. cbn. apply delete_alter_eq.
  - step_exec.
    { left. exists [call_BeginTx; call_update_release], call_RowsAffected, e,
        "cannot confirm whether the lock has been released".
      cbn. auto with lia. }
    right. left. auto.
Qed.

Lemma storeHeartbeat_cases c l w :
  (exists cs0 c0 b e v,
      (length cs0 < 5)%nat /\ next_fault (after_calls cs0 w) = Some e
      /\ storeHeartbeat c l w =
         (typedError (Some e) v, l, drawn_if b (after_calls (cs0 ++ [c0]) w)))
  \/ (holds l (table w) = false
      /\ storeHeartbeat c l w =
         (Some ErrLockAlreadyReleased, set_isReleased true l,
          drawn (after_calls heartbeat_calls w)))
  \/ (holds l (table w) = true
      /\ storeHeartbeat c l w =
         (None, set_recordVersionNumber (rvn_seq w + 1) l,
          set_table (alter (refresh_row (rvn_seq w + 1)) (l_name l) (table w))
            (drawn (after_calls (heartbeat_calls ++ [call_Commit]) w)))).
Proof.
  unfold storeHeartbeat, storeHeartbeat_body. unfold_body.
  step_exec.
  { left. exists [], call_BeginTx, false, e, "cannot create transaction for lock acquisition".
    cbn. auto with lia. }
  step_exec.
  { left. exists [call_BeginTx], call_nextval, false, e,
      "cannot run query to read record version number".
    cbn. auto with lia. }
  step_exec.
  { left. exists [call_BeginTx; call_nextval], call_update_heartbeat, true, e,
      "cannot run query to update the heartbeat".
    cbn. auto with lia. }
  rewrite ?table_called, ?rvn_seq_called, update_rvn_holds.
  fold (refresh_row (rvn_seq w + 1)).
  destruct (holds l (table w)) eqn:Hh; cbv beta iota.
  - step_exec.
    { left. exists [call_BeginTx; call_nextval; call_update_heartbeat], call_RowsAffected, true, e,
        "cannot confirm whether the lock has been updated for the heartbeat".
      cbn. auto with lia. }
    change (1 =? 0) with false. cbv beta iota.
    step_exec.
    { left. exists heartbeat_calls, call_Commit, true, e, "cannot commit lock heartbeat".
      cbn. auto with lia. }
    right. right. auto.
  - step_exec.
    { left. exists [call_BeginTx; call_nextval; call_update_heartbeat], call_RowsAffected, true, e,
        "cannot confirm whether the lock has been updated for the heartbeat".
      cbn. auto with lia. }
    right. left. auto.
Qed.

(** ** Classification of the driver's errors *)

Lemma typedError_not_nil e v : typedError (Some e) v <> None.
Proof. unfold typedError. repeat case_match; discriminate. Qed.

Lemma typedError_not_ErrNotAcquired e v : is_ErrNotAcquired (typedError (Some e) v) = false.
Proof. unfold typedError. repeat case_match; reflexivity. Qed.

Lemma typedError_not_ErrLockAlreadyReleased e v :
  typedError (Some e) v <> Some ErrLockAlreadyReleased.
Proof. unfold typedError. repeat case_match; discriminate. Qed.

Lemma typedError_FailedPrecondition e v :
  errors_Is FailedPrecondition (typedError e v) = true
  <-> e = Some (pq_Error serializationErrorCode).
Proof.
  unfold typedError. split.
  - destruct e as [[| |code| | |]|]; cbn; try discriminate.
    destruct (String.eqb code serializationErrorCode) eqn:Hc; cbn; [|discriminate].
    apply String.eqb_eq in Hc. by subst.
  - intros ->. reflexivity.
Qed.

(** ** What an attempt leaves untouched *)

Lemma frame_after b cs w :
  let w' := drawn_if b (after_calls cs w) in
  table w' = table w
  /\ others w' = others w
  /\ ctx_done w' = ctx_done w
  /\ rvn_seq w' = rvn_seq w + (if b then 1 else 0)
  /\ trace w' = trace w ++ map ev_db cs
  /\ faults w' = drop (length cs) (faults w).
Proof.
  destruct (after_calls_frame cs w) as (Ht & Hs & Ho & Hc & Htr & Hf).
  destruct b; unfold drawn_if, drawn;
    cbn [table rvn_seq others ctx_done trace faults];
    rewrite ?Ht, ?Hs, ?Ho, ?Hc, ?Htr, ?Hf; repeat split; lia.
Qed.

Lemma attempt_frame_after b cs w t :
  cs <> [] ->
  attempt_frame w (drawn_if b (after_calls cs w))
  /\ attempt_frame w (set_table t (drawn_if b (after_calls cs w))).
Proof.
  intros Hcs. destruct (frame_after b cs w) as (Ht & Ho & Hc & Hs & Htr & Hf).
  cbv zeta in *. unfold attempt_frame, set_table. cbn [others ctx_done rvn_seq trace faults].
  rewrite Ho, Hc, Hs, Htr, Hf, length_drop.
  assert (rvn_seq w <= rvn_seq w + (if b then 1 else 0) <= rvn_seq w + 1) by (destruct b; lia).
  split;
    (split; [reflexivity | split; [reflexivity | split; [lia | split; [by exists cs | lia]]]]).
Qed.

Lemma faults_consumed b cs0 c0 w e :
  next_fault (after_calls cs0 w) = Some e ->
  (length (faults (drawn_if b (after_calls (cs0 ++ [c0]) w))) < length (faults w))%nat.
Proof.
  intros He%next_fault_after_calls.
  destruct (frame_after b (cs0 ++ [c0]) w) as (_ & _ & _ & _ & _ & ->).
  apply lookup_lt_Some in He. rewrite length_drop, length_app. cbn. lia.
Qed.

(** ** The upsert *)

Lemma upsert_claimable l rvn t :
  claimable (t !! l_name l) (l_recordVersionNumber l) = true ->
  upsert (l_name l) rvn (l_data l) (l_recordVersionNumber l) (l_replaceData l) t
  = <[l_name l := {| record_version_number := Some rvn;
                     row_data := acquired_data l (t !! l_name l) |}]> t.
Proof.
  unfold upsert, claimable, acquired_data.
  destruct (t !! l_name l) as [r|]; [|reflexivity].
  destruct (record_version_number r) as [held|]; [|reflexivity].
  intros ->. reflexivity.
Qed.

Lemma upsert_not_claimable l rvn t :
  claimable (t !! l_name l) (l_recordVersionNumber l) = false ->
  upsert (l_name l) rvn (l_data l) (l_recordVersionNumber l) (l_replaceData l) t = t
  /\ exists r held,
       t !! l_name l = Some r /\ record_version_number r = Some held
       /\ held <> l_recordVersionNumber l.
Proof.
  unfold upsert, claimable.
  destruct (t !! l_name l) as [r|]; [|discriminate].
  destruct (record_version_number r) as [held|] eqn:Hr; [|discriminate].
  intros Hne. rewrite Hne. split; [reflexivity|].
  exists r, held. apply Z.eqb_neq in Hne. auto.
Qed.

(** ** Summary of one acquisition attempt *)

Lemma storeAcquire_result c l w err l' w' :
  storeAcquire c l w = (err, l', w') ->
  attempt_frame w w'
  /\ ((exists n e v,
          (n < 5)%nat /\ faults w !! n = Some (Some e)
          /\ err = typedError (Some e) v /\ l' = l /\ table w' = table w
          /\ (length (faults w') < length (faults w))%nat)
      \/ (exists r held,
             table w !! l_name l = Some r /\ record_version_number r = Some held
             /\ held <> l_recordVersionNumber l /\ held <> rvn_seq w + 1
             /\ err = Some ErrNotAcquired
             /\ l' = set_recordVersionNumber held l
             /\ table w' = table w /\ rvn_seq w' = rvn_seq w + 1)
      \/ (exists data,
             err = None
             /\ l' = set_data data (set_recordVersionNumber (rvn_seq w + 1) l)
             /\ table w' = upsert (l_name l) (rvn_seq w + 1) (l_data l)
                             (l_recordVersionNumber l) (l_replaceData l) (table w)
             /\ table w' !! l_name l
                = Some {| record_version_number := Some (rvn_seq w + 1); row_data := data |}
             /\ rvn_seq w' = rvn_seq w + 1)).
Proof.
  intros Hrun.
  destruct (storeAcquire_cases c l w)
    as [(cs0 & c0 & b & e & v & Hn & Hf & Heq)
       |[(r & held & Htx & Hr & Hne & Heq)|(data & Htx & Heq)]];
    rewrite Heq in Hrun; injection Hrun as <- <- <-.
  - split; [apply (attempt_frame_after b (cs0 ++ [c0]) w ∅); by destruct cs0|].
    left. exists (length cs0), e, v.
    destruct (frame_after b (cs0 ++ [c0]) w) as (Ht & _).
    split_and!; [exact Hn | by apply next_fault_after_calls | reflexivity
                | reflexivity | exact Ht | by eapply faults_consumed].
  - split; [apply (attempt_frame_after true acquire_calls w ∅); discriminate|].
    right. left.
    destruct (claimable (table w !! l_name l) (l_recordVersionNumber l)) eqn:Hcl.
    + exfalso. rewrite (upsert_claimable _ _ _ Hcl), lookup_insert_eq in Htx.
      injection Htx as <-. cbn in Hr. congruence.
    + destruct (upsert_not_claimable l (rvn_seq w + 1) _ Hcl) as (Hup & r0 & held0 & Hr0 & Hh0 & Hne0).
      rewrite Hup, Hr0 in Htx. injection Htx as ->.
      assert (held0 = held) as -> by congruence.
      exists r, held. split_and!; auto.
  - split; [apply (attempt_frame_after true (acquire_calls ++ [call_Commit]) w); discriminate|].
    right. right. exists data. split_and!; auto.
Qed.

Lemma calls_succeed_lookup n w i e :
  calls_succeed n w = true -> (i < n)%nat -> faults w !! i <> Some (Some e).
Proof.
  unfold calls_succeed. intros Hall Hi Hf.
  rewrite forallb_forall in Hall.
  specialize (Hall (Some e)). cbn in Hall.
  assert (In (Some e) (take n (faults w))) as Hin; [|by apply Hall in Hin].
  apply list_elem_of_In, list_elem_of_lookup. exists i.
  rewrite lookup_take_lt; done.
Qed.

(** ** C2: the postcondition of one acquisition attempt *)

(** C2.  One attempt of [storeAcquire] whose driver calls all succeed, on a
    table whose RVNs come from the sequence: it returns no error exactly
    when the row was claimable, that is absent, free ([NULL] RVN) or held with
    the RVN the handle last observed.  On success the handle carries the RVN
    just drawn and the row's payload, and the row carries that RVN and the
    handle's payload, or its former payload when the row existed and
    [replaceData] is false.  Otherwise the RVN read back differs from the
    one drawn, the handle takes the RVN read back, the error is
    [ErrNotAcquired] and the table is as it was. *)
Theorem storeAcquire_postcondition c l w err l' w' :
  calls_succeed 5 w = true ->
  drawn_before (table w !! l_name l) (rvn_seq w) = true ->
  storeAcquire c l w = (err, l', w') ->
  let row := table w !! l_name l in
  let rvn := rvn_seq w + 1 in
  (err = None <-> claimable row (l_recordVersionNumber l) = true)
  /\ (claimable row (l_recordVersionNumber l) = true ->
      l' = set_data (acquired_data l row) (set_recordVersionNumber rvn l)
      /\ table w' = <[l_name l := {| record_version_number := Some rvn;
                                     row_data := acquired_data l row |}]> (table w))
  /\ (claimable row (l_recordVersionNumber l) = false ->
      exists r held,
        row = Some r /\ record_version_number r = Some held /\ held <> rvn
        /\ err = Some ErrNotAcquired
        /\ l' = set_recordVersionNumber held l
        /\ table w' = table w).
Proof.
  intros Hok Hseq Hrun row rvn.
  destruct (storeAcquire_result _ _ _ _ _ _ Hrun)
    as [_ [(n & e & v & Hn & Hf & _)
          |[(r & held & Hr & Hh & Hne & Hne' & -> & -> & Ht & _)
           |(data & -> & -> & Ht & Hrow & _)]]].
  - exfalso. by eapply calls_succeed_lookup.
  - assert (claimable row (l_recordVersionNumber l) = false) as Hcl.
    { unfold row, claimable. rewrite Hr, Hh. by apply Z.eqb_neq. }
    rewrite Hcl. split_and!; [split; discriminate | discriminate |].
    intros _. exists r, held. split_and!; auto.
  - destruct (claimable row (l_recordVersionNumber l)) eqn:Hcl.
    + split_and!; [done | | discriminate]. intros _.
      rewrite (upsert_claimable _ _ _ Hcl) in Ht.
      rewrite Ht, lookup_insert_eq in Hrow. injection Hrow as <-. auto.
    + exfalso.
      destruct (upsert_not_claimable l rvn _ Hcl) as (Hup & r & held & Hr & Hh & _).
      fold rvn in Ht. rewrite Hup in Ht. rewrite Ht in Hrow. fold row in Hr.
      unfold row in Hr. rewrite Hr in Hrow, Hseq. injection Hrow as ->.
      unfold drawn_before in Hseq. cbn in Hseq. apply Z.leb_le in Hseq. lia.
Qed.

Lemma storeAcquire_postcondition_witness :
  calls_succeed 5 ex_world_held = true
  /\ drawn_before (table ex_world_held !! l_name ex_contender) (rvn_seq ex_world_held) = true
  /\ (storeAcquire ex_client ex_contender ex_world_held).1.1 = Some ErrNotAcquired
  /\ (storeAcquire ex_client ex_contender ex_world_held).1.2
     = set_recordVersionNumber 7 ex_contender.
Proof.
  assert (Hok : calls_succeed 5 ex_world_held = true) by (vm_compute; reflexivity).
  assert (Hseq : drawn_before (table ex_world_held !! l_name ex_contender)
                   (rvn_seq ex_world_held) = true) by (vm_compute; reflexivity).
  assert (Hrun : storeAcquire ex_client ex_contender ex_world_held
                 = ((storeAcquire ex_client ex_contender ex_world_held).1.1,
                    (storeAcquire ex_client ex_contender ex_world_held).1.2,
                    (storeAcquire ex_client ex_contender ex_world_held).2))
    by (vm_compute; reflexivity).
  split; [exact Hok|]. split; [exact Hseq|].
  destruct (storeAcquire_postcondition _ _ _ _ _ _ Hok Hseq Hrun) as (_ & _ & Hno).
  destruct Hno as (r & held & Hr & Hh & _ & Herr & Hl & _); [vm_compute; reflexivity|].
  assert (held = 7) as ->.
  { vm_compute in Hr. injection Hr as <-. vm_compute in Hh. congruence. }
  split; assumption.
Defined.

(** ** Summary of one release and of one heartbeat *)

Lemma storeRelease_result c l w err l' w' :
  storeRelease c l w = (err, l', w') ->
  attempt_frame w w' /\ rvn_seq w' = rvn_seq w
  /\ ((exists n e v,
          (n < 5)%nat /\ faults w !! n = Some (Some e)
          /\ err = typedError (Some e) v /\ l' = l /\ table w' = table w
          /\ (length (faults w') < length (faults w))%nat)
      \/ (holds l (table w) = false
          /\ err = Some ErrLockAlreadyReleased /\ l' = released l
          /\ table w' = table w)
      \/ (holds l (table w) = true /\ err = None /\ l' = released l
          /\ table w' = if l_keepOnRelease l
                        then alter free_row (l_name l) (table w)
                        else delete (l_name l) (table w))).
Proof.
  intros Hrun.
  destruct (storeRelease_cases c l w)
    as [(cs0 & c0 & e & v & Hn & Hf & Heq)
       |[(Hh & Heq)|[(Hh & Hk & Heq)|(Hh & Hk & Heq)]]];
    rewrite Heq in Hrun; injection Hrun as <- <- <-.
  - split; [apply (attempt_frame_after false (cs0 ++ [c0]) w ∅); by destruct cs0|].
    destruct (frame_after false (cs0 ++ [c0]) w) as (Ht & _ & _ & Hs & _).
    cbn in Ht, Hs. split; [lia|].
    left. exists (length cs0), e, v.
    split_and!; [exact Hn | by apply next_fault_after_calls | reflexivity
                | reflexivity | exact Ht | by apply (faults_consumed false _ _ _ e)].
  - split; [apply (attempt_frame_after false release_calls w ∅); discriminate|].
    split; [reflexivity|]. right. left. auto.
  - split; [apply (attempt_frame_after false (release_calls ++ [call_Commit]) w); discriminate|].
    split; [reflexivity|]. right. right. rewrite Hk. auto.
  - split; [apply (attempt_frame_after false (release_calls ++ [call_delete; call_Commit]) w);
            discriminate|].
    split; [reflexivity|]. right. right. rewrite Hk. auto.
Qed.

Lemma storeHeartbeat_result c l w err l' w' :
  storeHeartbeat c l w = (err, l', w') ->
  attempt_frame w w'
  /\ ((exists n e v,
          (n < 5)%nat /\ faults w !! n = Some (Some e)
          /\ err = typedError (Some e) v /\ l' = l /\ table w' = table w
          /\ (length (faults w') < length (faults w))%nat)
      \/ (holds l (table w) = false
          /\ err = Some ErrLockAlreadyReleased /\ l' = set_isReleased true l
          /\ table w' = table w)
      \/ (holds l (table w) = true /\ err = None
          /\ l' = set_recordVersionNumber (rvn_seq w + 1) l
          /\ table w' = alter (refresh_row (rvn_seq w + 1)) (l_name l) (table w)
          /\ rvn_seq w' = rvn_seq w + 1)).
Proof.
  intros Hrun.
  destruct (storeHeartbeat_cases c l w)
    as [(cs0 & c0 & b & e & v & Hn & Hf & Heq)|[(Hh & Heq)|(Hh & Heq)]];
    rewrite Heq in Hrun; injection Hrun as <- <- <-.
  - split; [apply (attempt_frame_after b (cs0 ++ [c0]) w ∅); by destruct cs0|].
    destruct (frame_after b (cs0 ++ [c0]) w) as (Ht & _).
    left. exists (length cs0), e, v.
    split_and!; [exact Hn | by apply next_fault_after_calls | reflexivity
                | reflexivity | exact Ht | by apply (faults_consumed _ _ _ _ e)].
  - split; [apply (attempt_frame_after true heartbeat_calls w ∅); discriminate|].
    right. left. auto.
  - split; [apply (attempt_frame_after true (heartbeat_calls ++ [call_Commit]) w); discriminate|].
    right. right. auto.
Qed.

Lemma holds_affected l new t :
  (update_rvn (l_name l) (l_recordVersionNumber l) new t).2
  = if holds l t then 1 else 0.
Proof. rewrite update_rvn_holds. by destruct (holds l t). Qed.

Lemma released_flags l :
  l_isReleased (released l) = true /\ l_heartbeat (released l) <> hb_active.
Proof.
  unfold released, heartbeatCancel. cbn.
  destruct (l_heartbeat l) eqn:Hb; cbn; rewrite ?Hb; split; congruence.
Qed.

(** ** C6: release of a handle that is not yet released *)

(** C6.  One [storeRelease] whose driver calls all succeed.  The handle comes
    out marked released and with its heartbeat context cancelled.  If the
    update that sets the RVN to [NULL] where name and RVN match the handle
    affects no row, the error is [ErrLockAlreadyReleased] and the table is
    as it was.  Otherwise there is no error, and the row is deleted when
    [keepOnRelease] is false, and stays with a [NULL] RVN and its payload
    when [keepOnRelease] is true. *)
Theorem storeRelease_semantics c l w err l' w' :
  calls_succeed 5 w = true ->
  storeRelease c l w = (err, l', w') ->
  let affected :=
    (update_rvn (l_name l) (l_recordVersionNumber l) None (table w)).2 in
  l' = heartbeatCancel (set_isReleased true l)
  /\ l_isReleased l' = true
  /\ l_heartbeat l' <> hb_active
  /\ (affected = 0 -> err = Some ErrLockAlreadyReleased /\ table w' = table w)
  /\ (affected <> 0 ->
      err = None
      /\ (l_keepOnRelease l = false ->
          table w' = delete (l_name l) (table w) /\ table w' !! l_name l = None)
      /\ (l_keepOnRelease l = true ->
          exists r,
            table w !! l_name l = Some r
            /\ table w' = <[l_name l := {| record_version_number := None;
                                           row_data := row_data r |}]> (table w))).
Proof.
  intros Hok Hrun affected. subst affected. rewrite holds_affected.
  destruct (storeRelease_result _ _ _ _ _ _ Hrun)
    as (_ & _ & [(n & e & v & Hn & Hf & _)
                |[(Hh & -> & -> & Ht)|(Hh & -> & -> & Ht)]]).
  - exfalso. by eapply calls_succeed_lookup.
  - rewrite Hh. destruct (released_flags l) as [H1 H2].
    split_and!; [reflexivity | exact H1 | exact H2 | auto | congruence].
  - rewrite Hh. destruct (released_flags l) as [H1 H2].
    split_and!; [reflexivity | exact H1 | exact H2 | discriminate |].
    intros _. split_and!; [reflexivity | |].
    + intros Hk. rewrite Hk in Ht. split; [exact Ht|]. rewrite Ht. apply lookup_delete_eq.
    + intros Hk. rewrite Hk in Ht. unfold holds in Hh.
      destruct (table w !! l_name l) as [r|] eqn:Hr; [|discriminate].
      exists r. split; [reflexivity|]. rewrite Ht.
      apply map_eq. intros k. destruct (decide (l_name l = k)) as [<-|Hne].
      * by rewrite lookup_alter_eq, lookup_insert_eq, Hr.
      * by rewrite lookup_alter_ne, lookup_insert_ne.
Qed.

Lemma storeRelease_semantics_witness :
  calls_succeed 5 ex_world_held = true
  /\ (storeRelease ex_client ex_holder ex_world_held).1.1 = None
  /\ table (storeRelease ex_client ex_holder ex_world_held).2 !! "job" = None
  /\ l_isReleased (storeRelease ex_client ex_holder ex_world_held).1.2 = true
  /\ l_heartbeat (storeRelease ex_client ex_holder ex_world_held).1.2 <> hb_active.
Proof.
  assert (Hok : calls_succeed 5 ex_world_held = true) by (vm_compute; reflexivity).
  assert (Hrun : storeRelease ex_client ex_holder ex_world_held
                 = ((storeRelease ex_client ex_holder ex_world_held).1.1,
                    (storeRelease ex_client ex_holder ex_world_held).1.2,
                    (storeRelease ex_client ex_holder ex_world_held).2))
    by (vm_compute; reflexivity).
  split; [exact Hok|].
  destruct (storeRelease_semantics _ _ _ _ _ _ Hok Hrun) as (_ & Hrel & Hhb & _ & Hsome).
  destruct Hsome as (Herr & Hdel & _); [vm_compute; discriminate|].
  destruct Hdel as [_ Hgone]; [vm_compute; reflexivity|].
  split_and!; assumption.
Defined.

(** ** C7: what a successful heartbeat changes *)

(** C7.  A [storeHeartbeat] that returns no error changes, in the table, the
    RVN of the handle's row and nothing else: the row keeps its name and its
    payload, and every other row is as it was; on the handle it sets the RVN
    to the value just drawn and leaves every other field alone. *)
Theorem storeHeartbeat_changes_only_rvn c l w l' w' :
  storeHeartbeat c l w = (None, l', w') ->
  let rvn := rvn_seq w + 1 in
  l' = set_recordVersionNumber rvn l
  /\ l_recordVersionNumber l' = rvn
  /\ (l_name l' = l_name l /\ l_data l' = l_data l
      /\ l_leaseDuration l' = l_leaseDuration l
      /\ l_heartbeat l' = l_heartbeat l
      /\ l_isReleased l' = l_isReleased l
      /\ l_keepOnRelease l' = l_keepOnRelease l
      /\ l_replaceData l' = l_replaceData l
      /\ l_failIfLocked l' = l_failIfLocked l)
  /\ (exists r,
         table w !! l_name l = Some r
         /\ record_version_number r = Some (l_recordVersionNumber l)
         /\ table w' !! l_name l
            = Some {| record_version_number := Some rvn; row_data := row_data r |})
  /\ (forall k, k <> l_name l -> table w' !! k = table w !! k)
  /\ dom (table w') = dom (table w).
Proof.
  intros Hrun rvn.
  destruct (storeHeartbeat_result _ _ _ _ _ _ Hrun)
    as (_ & [(n & e & v & _ & _ & Herr & _)
            |[(_ & Herr & _)|(Hh & _ & -> & Ht & _)]]).
  - symmetry in Herr. by apply typedError_not_nil in Herr.
  - discriminate.
  - fold rvn in Ht. split_and!; try reflexivity.
    + unfold holds in Hh. destruct (table w !! l_name l) as [r|] eqn:Hr; [|discriminate].
      exists r. split; [reflexivity|]. split.
      * unfold rvn_eqb in Hh. destruct (record_version_number r); [|discriminate].
        apply Z.eqb_eq in Hh. by subst.
      * by rewrite Ht, lookup_alter_eq, Hr.
    + intros k Hk. by rewrite Ht, lookup_alter_ne.
    + rewrite Ht. apply dom_alter_L.
Qed.

Lemma storeHeartbeat_changes_only_rvn_witness :
  (storeHeartbeat ex_client ex_holder ex_world_held).1.1 = None
  /\ (storeHeartbeat ex_client ex_holder ex_world_held).1.2
     = set_recordVersionNumber (7 + 1) ex_holder
  /\ (forall k, k <> "job" ->
      table (storeHeartbeat ex_client ex_holder ex_world_held).2 !! k
      = table ex_world_held !! k).
Proof.
  assert (Hrun : storeHeartbeat ex_client ex_holder ex_world_held
                 = (None,
                    (storeHeartbeat ex_client ex_holder ex_world_held).1.2,
                    (storeHeartbeat ex_client ex_holder ex_world_held).2))
    by (vm_compute; reflexivity).
  split; [vm_compute; reflexivity|].
  destruct (storeHeartbeat_changes_only_rvn _ _ _ _ _ Hrun) as (Hl & _ & _ & _ & Hother & _).
  split; assumption.
Defined.

(** ** The retry loop *)

Lemma retry_unfold {St} fuel (f : St -> option error * St) s :
  retry (S fuel) f s =
  if errors_Is FailedPrecondition (f s).1 then retry fuel f (f s).2 else Some (f s).
Proof. cbn. by destruct (f s). Qed.

Lemma retry_first_result {St} (f : St -> option error * St) n :
  forall s fuel,
    (n < fuel)%nat ->
    (forall i, (i < n)%nat ->
               errors_Is FailedPrecondition (f (state_after f i s)).1 = true) ->
    errors_Is FailedPrecondition (f (state_after f n s)).1 = false ->
    retry fuel f s = Some (f (state_after f n s)).
Proof.
  induction n as [|n IH]; intros s fuel Hfuel Hbefore Hlast;
    (destruct fuel as [|fuel]; [lia|]); rewrite retry_unfold.
  - cbn in Hlast. by rewrite Hlast.
  - pose proof (Hbefore 0%nat ltac:(lia)) as H0. cbn [state_after] in H0.
    rewrite H0. cbn [state_after].
    apply IH; [lia | | exact Hlast].
    intros i Hi. apply (Hbefore (S i)). lia.
Qed.

Lemma retry_result_inv {St} (f : St -> option error * St) fuel :
  forall s r,
    retry fuel f s = Some r ->
    errors_Is FailedPrecondition r.1 = false
    /\ exists n, (n < fuel)%nat /\ r = f (state_after f n s)
                 /\ forall i, (i < n)%nat ->
                      errors_Is FailedPrecondition (f (state_after f i s)).1 = true.
Proof.
  induction fuel as [|fuel IH]; intros s r Hr; [discriminate|].
  rewrite retry_unfold in Hr.
  destruct (errors_Is FailedPrecondition (f s).1) eqn:Hfp.
  - destruct (IH _ _ Hr) as (Hno & n & Hn & Heq & Hbefore).
    split; [exact Hno|]. exists (S n). split_and!; [lia | exact Heq |].
    intros [|i] Hi; [exact Hfp | apply Hbefore; lia].
  - injection Hr as <-. split; [exact Hfp|].
    exists 0%nat. split_and!; [lia | reflexivity | intros i Hi; lia].
Qed.

Lemma AcquireContext_loop_error fuel c :
  forall l w hdl err w',
    AcquireContext_loop fuel c l w = Some (hdl, err, w') ->
    errors_Is FailedPrecondition err = false.
Proof.
  induction fuel as [|fuel IH]; intros l w hdl err w' Hrun; [discriminate|].
  cbn [AcquireContext_loop] in Hrun.
  destruct (ctx_Done w) as [done w0].
  destruct done; [by injection Hrun as <- <- <-|].
  destruct (retry (S fuel) (attempt (tryAcquire c)) (l, w0)) as [[err1 [l1 w1]]|] eqn:Hretry;
    [|discriminate].
  apply retry_result_inv in Hretry as [Hno _]. cbn in Hno.
  destruct (l_failIfLocked l1 && is_ErrNotAcquired err1).
  { by injection Hrun as <- <- <-. }
  destruct (is_ErrNotAcquired err1); [by eapply IH|].
  destruct err1; by injection Hrun as <- <- <-.
Qed.

(** ** C5: release of a released handle *)

Lemma retry_invariant {St} (P : St -> Prop) (f : St -> option error * St) :
  (forall s, P s -> P (f s).2) ->
  forall fuel s r, P s -> retry fuel f s = Some r -> P r.2.
Proof.
  intros Hf. induction fuel as [|fuel IH]; intros s r Hs Hr; [discriminate|].
  rewrite retry_unfold in Hr.
  destruct (errors_Is FailedPrecondition (f s).1).
  - eapply IH; [|exact Hr]. by apply Hf.
  - injection Hr as <-. by apply Hf.
Qed.

Lemma retry_last_call {St} (f : St -> option error * St) fuel s r :
  retry fuel f s = Some r -> exists s0, r = f s0.
Proof.
  intros Hr. apply retry_result_inv in Hr as (_ & n & _ & -> & _). eauto.
Qed.

Lemma ReleaseContext_sets_flag c fuel l w err l' w' :
  ReleaseContext fuel c l w = Some (err, (l', w')) ->
  err = None \/ err = Some ErrLockAlreadyReleased ->
  l_isReleased l' = true.
Proof.
  unfold ReleaseContext, IsReleased.
  destruct (l_isReleased l) eqn:Hrel; [by intros [= <- <- <-]|].
  intros Hr Herr. apply retry_last_call in Hr as [[l0 w0] Hcall].
  unfold attempt in Hcall. cbn [fst snd] in Hcall.
  destruct (storeRelease c l0 (interleave w0)) as [[err1 l1] w1] eqn:Hrun.
  injection Hcall as -> -> ->.
  destruct (storeRelease_result _ _ _ _ _ _ Hrun)
    as (_ & _ & [(n & e & v & _ & _ & -> & _)|[(_ & _ & -> & _)|(_ & _ & -> & _)]]).
  - exfalso. destruct Herr as [Herr|Herr].
    + by apply typedError_not_nil in Herr.
    + by apply typedError_not_ErrLockAlreadyReleased in Herr.
  - apply released_flags.
  - apply released_flags.
Qed.

(** C5.  [ReleaseContext] on a handle whose [isReleased] flag is set returns
    [ErrLockAlreadyReleased] and leaves the handle and the whole world as
    they were: no row changes and the trace gains no driver call.  The flag
    is set once a call has returned nil or [ErrLockAlreadyReleased], so every
    call after such a one, on any state of the database, is of this kind. *)
Theorem ReleaseContext_idempotent c :
  (forall l w fuel,
      l_isReleased l = true ->
      ReleaseContext fuel c l w = Some (Some ErrLockAlreadyReleased, (l, w)))
  /\ (forall fuel l w err l1 w1,
         ReleaseContext fuel c l w = Some (err, (l1, w1)) ->
         err = None \/ err = Some ErrLockAlreadyReleased ->
         forall fuel' w2,
           ReleaseContext fuel' c l1 w2 = Some (Some ErrLockAlreadyReleased, (l1, w2))).
Proof.
  assert (Hfirst : forall l w fuel,
             l_isReleased l = true ->
             ReleaseContext fuel c l w = Some (Some ErrLockAlreadyReleased, (l, w))).
  { intros l w fuel Hrel. unfold ReleaseContext, IsReleased. by rewrite Hrel. }
  split; [exact Hfirst|].
  intros fuel l w err l1 w1 Hrun Herr fuel' w2.
  apply Hfirst. by eapply ReleaseContext_sets_flag.
Qed.

Lemma ReleaseContext_idempotent_witness :
  l_isReleased (storeRelease ex_client ex_holder ex_world_held).1.2 = true
  /\ ReleaseContext 1 ex_client (storeRelease ex_client ex_holder ex_world_held).1.2
       (storeRelease ex_client ex_holder ex_world_held).2
     = Some (Some ErrLockAlreadyReleased,
             ((storeRelease ex_client ex_holder ex_world_held).1.2,
              (storeRelease ex_client ex_holder ex_world_held).2)).
Proof.
  assert (Hrel : l_isReleased (storeRelease ex_client ex_holder ex_world_held).1.2 = true)
    by (vm_compute; reflexivity).
  split; [exact Hrel|].
  exact (proj1 (ReleaseContext_idempotent ex_client) _
           (storeRelease ex_client ex_holder ex_world_held).2 1%nat Hrel).
Defined.

(** ** What the transactions do to the handle *)

Lemma storeAcquire_handle c l w err l' w' :
  storeAcquire c l w = (err, l', w') ->
  same_settings l l' /\ l_isReleased l' = l_isReleased l
  /\ l_heartbeat l' = l_heartbeat l.
Proof.
  intros Hrun.
  destruct (storeAcquire_result _ _ _ _ _ _ Hrun)
    as [_ [(n & e & v & _ & _ & _ & -> & _)
          |[(r & held & _ & _ & _ & _ & _ & -> & _)|(data & _ & -> & _)]]];
    by repeat split.
Qed.

Lemma tryAcquire_storeAcquire c l w :
  tryAcquire c l w =
  let '(err, l1, w1) := storeAcquire c l w in
  (err, if err is None then set_heartbeat hb_active l1 else l1, w1).
Proof.
  unfold tryAcquire. destruct (storeAcquire c l w) as [[[e|] l1] w1]; reflexivity.
Qed.

Lemma tryAcquire_handle c l w err l' w' :
  tryAcquire c l w = (err, l', w') ->
  same_settings l l' /\ l_isReleased l' = l_isReleased l.
Proof.
  rewrite tryAcquire_storeAcquire.
  destruct (storeAcquire c l w) as [[err1 l1] w1] eqn:Hrun.
  intros [= <- <- <-].
  destruct (storeAcquire_handle _ _ _ _ _ _ Hrun) as ((?&?&?&?&?) & ? & ?).
  destruct err1; by repeat split.
Qed.

Lemma released_settings l : same_settings l (released l).
Proof.
  unfold released, heartbeatCancel. cbn. destruct (l_heartbeat l); by repeat split.
Qed.

Lemma storeRelease_handle c l w err l' w' :
  storeRelease c l w = (err, l', w') ->
  same_settings l l' /\ (l_isReleased l = true -> l_isReleased l' = true).
Proof.
  intros Hrun.
  destruct (storeRelease_result _ _ _ _ _ _ Hrun)
    as (_ & _ & [(n & e & v & _ & _ & _ & -> & _)|[(_ & _ & -> & _)|(_ & _ & -> & _)]]).
  - by repeat split.
  - split; [apply released_settings | intros _; apply released_flags].
  - split; [apply released_settings | intros _; apply released_flags].
Qed.

Lemma storeHeartbeat_handle c l w err l' w' :
  storeHeartbeat c l w = (err, l', w') ->
  same_settings l l' /\ (l_isReleased l = true -> l_isReleased l' = true)
  /\ l_heartbeat l' = l_heartbeat l.
Proof.
  intros Hrun.
  destruct (storeHeartbeat_result _ _ _ _ _ _ Hrun)
    as (_ & [(n & e & v & _ & _ & _ & -> & _)|[(_ & _ & -> & _)|(_ & _ & -> & _)]]);
    by repeat split.
Qed.

Lemma newLock_fresh c name opts :
  l_isReleased (newLock c name opts) = false
  /\ l_recordVersionNumber (newLock c name opts) = 0
  /\ l_name (newLock c name opts) = name
  /\ l_heartbeat (newLock c name opts) = hb_none.
Proof.
  unfold newLock.
  set (l0 := {| l_name := name; l_recordVersionNumber := 0; l_data := [];
                l_leaseDuration := c_leaseDuration c; l_heartbeat := hb_none;
                l_isReleased := false; l_keepOnRelease := false;
                l_replaceData := false; l_failIfLocked := false |}).
  assert (H0 : l_isReleased l0 = false /\ l_recordVersionNumber l0 = 0
               /\ l_name l0 = name /\ l_heartbeat l0 = hb_none) by done.
  clearbody l0. revert l0 H0.
  induction opts as [|opt opts IH]; intros l0 H0; [exact H0|].
  cbn [foldl]. apply IH. by destruct opt.
Qed.

(** ** Several handles: the flag of a handle along a schedule *)

Lemma step_isReleased a s h l :
  sys_handles s !! h = Some l -> l_isReleased l = true ->
  exists l', sys_handles (step a s).1 !! h = Some l' /\ l_isReleased l' = true.
Proof.
  intros Hh Hrel.
  assert (Hupd : forall k l1 w1,
             (k = h -> l_isReleased l1 = true) ->
             exists l',
               sys_handles {| sys_world := w1; sys_handles := <[k := l1]> (sys_handles s) |}
                 !! h = Some l' /\ l_isReleased l' = true).
  { intros k l1 w1 Hk. cbn. destruct (decide (k = h)) as [->|Hne].
    - exists l1. split; [|auto].
      apply list_lookup_insert_eq. by eapply lookup_lt_Some.
    - exists l. by rewrite list_lookup_insert_ne. }
  destruct a as [c name opts|c k|c k|c k]; cbn [step].
  - exists l. split; [|exact Hrel]. cbn. by apply lookup_app_l_Some.
  - destruct (sys_handles s !! k) as [lk|] eqn:Hk; [|by exists l].
    destruct (tryAcquire c lk (sys_world s)) as [[err l1] w1] eqn:Hrun. cbn [fst].
    apply Hupd. intros ->. rewrite Hh in Hk. injection Hk as <-.
    destruct (tryAcquire_handle _ _ _ _ _ _ Hrun) as [_ ->]. exact Hrel.
  - unfold on_handle. destruct (sys_handles s !! k) as [lk|] eqn:Hk; [|by exists l].
    destruct (storeHeartbeat c lk (sys_world s)) as [[err l1] w1] eqn:Hrun. cbn [fst snd].
    apply Hupd. intros ->. rewrite Hh in Hk. injection Hk as <-.
    by apply (storeHeartbeat_handle _ _ _ _ _ _ Hrun).
  - unfold on_handle. destruct (sys_handles s !! k) as [lk|] eqn:Hk; [|by exists l].
    unfold IsReleased.
    destruct (l_isReleased lk) eqn:Hlk; cbn [fst snd].
    + apply Hupd. by intros ->.
    + destruct (storeRelease c lk (sys_world s)) as [[err l1] w1] eqn:Hrun. cbn [fst snd].
      apply Hupd. intros ->. rewrite Hh in Hk. injection Hk as <-. congruence.
Qed.

Lemma run_schedule_cons a sched s :
  run_schedule (a :: sched) s =
  ((run_schedule sched (step a s).1).1,
   (step a s).2 ++ (run_schedule sched (step a s).1).2).
Proof.
  cbn [run_schedule]. destruct (step a s) as [s' o]. cbn [fst snd].
  by destruct (run_schedule sched s').
Qed.

Lemma run_schedule_isReleased sched :
  forall s h l,
    sys_handles s !! h = Some l -> l_isReleased l = true ->
    exists l', sys_handles (run_schedule sched s).1 !! h = Some l'
               /\ l_isReleased l' = true.
Proof.
  induction sched as [|a sched IH]; intros s h l Hh Hrel; [by exists l|].
  rewrite run_schedule_cons. cbn [fst].
  destruct (step_isReleased a s h l Hh Hrel) as (l1 & Hh1 & Hrel1).
  by eapply IH.
Qed.

(** ** C9: the released flag never clears *)

(** C9.  A handle made by [newLock] has [isReleased] false.  A
    [storeRelease] whose driver calls succeed sets the flag on both of its
    paths: when its update affects no row, where it returns
    [ErrLockAlreadyReleased], and when it affects one, where it returns nil.
    A [storeHeartbeat] whose driver calls succeed sets the flag when its
    update affects no row, the lock being lost, and leaves it alone
    otherwise.  Whatever the driver does, a [storeRelease] that returns nil
    or [ErrLockAlreadyReleased] and a [storeHeartbeat] that returns
    [ErrLockAlreadyReleased] have set the flag.  No transaction of the
    client, no public operation built on them and no interleaving of
    transactions of any number of handles turns a set flag back to
    false. *)
Theorem isReleased_monotonic :
  (forall c name opts, l_isReleased (newLock c name opts) = false)
  /\ (forall c l w,
         calls_succeed 5 w = true ->
         let affected :=
           (update_rvn (l_name l) (l_recordVersionNumber l) None (table w)).2 in
         l_isReleased (storeRelease c l w).1.2 = true
         /\ (affected = 0 ->
             (storeRelease c l w).1.1 = Some ErrLockAlreadyReleased)
         /\ (affected <> 0 -> (storeRelease c l w).1.1 = None))
  /\ (forall c l w,
         calls_succeed 5 w = true ->
         let affected :=
           (update_rvn (l_name l) (l_recordVersionNumber l)
              (Some (rvn_seq w + 1)) (table w)).2 in
         (affected = 0 ->
          l_isReleased (storeHeartbeat c l w).1.2 = true
          /\ (storeHeartbeat c l w).1.1 = Some ErrLockAlreadyReleased)
         /\ (affected <> 0 ->
             l_isReleased (storeHeartbeat c l w).1.2 = l_isReleased l
             /\ (storeHeartbeat c l w).1.1 = None))
  /\ (forall c l w err l' w',
         storeRelease c l w = (err, l', w') ->
         err = None \/ err = Some ErrLockAlreadyReleased ->
         l_isReleased l' = true)
  /\ (forall c l w l' w',
         storeHeartbeat c l w = (Some ErrLockAlreadyReleased, l', w') ->
         l_isReleased l' = true)
  /\ (forall c l w,
         l_isReleased l = true ->
         l_isReleased (storeAcquire c l w).1.2 = true
         /\ l_isReleased (tryAcquire c l w).1.2 = true
         /\ l_isReleased (storeRelease c l w).1.2 = true
         /\ l_isReleased (storeHeartbeat c l w).1.2 = true)
  /\ (forall fuel c l w err l' w',
         l_isReleased l = true ->
         ReleaseContext fuel c l w = Some (err, (l', w'))
         \/ SendHeartbeat fuel c l w = Some (err, (l', w')) ->
         l_isReleased l' = true)
  /\ (forall sched s h l,
         sys_handles s !! h = Some l ->
         l_isReleased l = true ->
         exists l', sys_handles (run_schedule sched s).1 !! h = Some l'
                    /\ l_isReleased l' = true).
Proof.
  split_and!.
  - intros c name opts. apply newLock_fresh.
  - intros c l w Hok affected. subst affected. rewrite holds_affected.
    destruct (storeRelease c l w) as [[err l'] w'] eqn:Hrun. cbn [fst snd].
    destruct (storeRelease_result _ _ _ _ _ _ Hrun)
      as (_ & _ & [(n & e & v & Hn & Hf & _)
                  |[(Hh & -> & -> & _)|(Hh & -> & -> & _)]]).
    + exfalso. by eapply calls_succeed_lookup.
    + rewrite Hh. split_and!; [apply released_flags | done | done].
    + rewrite Hh. split_and!; [apply released_flags | discriminate | done].
  - intros c l w Hok affected. subst affected. rewrite holds_affected.
    destruct (storeHeartbeat c l w) as [[err l'] w'] eqn:Hrun. cbn [fst snd].
    destruct (storeHeartbeat_result _ _ _ _ _ _ Hrun)
      as (_ & [(n & e & v & Hn & Hf & _)
              |[(Hh & -> & -> & _)|(Hh & -> & -> & _)]]).
    + exfalso. by eapply calls_succeed_lookup.
    + rewrite Hh. by split.
    + rewrite Hh. split; [discriminate|done].
  - intros c l w err l' w' Hrun Herr.
    destruct (storeRelease_result _ _ _ _ _ _ Hrun)
      as (_ & _ & [(n & e & v & _ & _ & -> & _)|[(_ & _ & -> & _)|(_ & _ & -> & _)]]).
    + exfalso. destruct Herr as [Herr|Herr].
      * by apply typedError_not_nil in Herr.
      * by apply typedError_not_ErrLockAlreadyReleased in Herr.
    + apply released_flags.
    + apply released_flags.
  - intros c l w l' w' Hrun.
    destruct (storeHeartbeat_result _ _ _ _ _ _ Hrun)
      as (_ & [(n & e & v & _ & _ & Herr & _)|[(_ & _ & -> & _)|(_ & Herr & _)]]).
    + exfalso. symmetry in Herr. by apply typedError_not_ErrLockAlreadyReleased in Herr.
    + reflexivity.
    + discriminate.
  - intros c l w Hrel. split_and!.
    + destruct (storeAcquire c l w) as [[e l'] w'] eqn:Hrun. cbn [fst snd].
      destruct (storeAcquire_handle _ _ _ _ _ _ Hrun) as (_ & -> & _). exact Hrel.
    + destruct (tryAcquire c l w) as [[e l'] w'] eqn:Hrun. cbn [fst snd].
      destruct (tryAcquire_handle _ _ _ _ _ _ Hrun) as (_ & ->). exact Hrel.
    + destruct (storeRelease c l w) as [[e l'] w'] eqn:Hrun. cbn [fst snd].
      by apply (storeRelease_handle _ _ _ _ _ _ Hrun).
    + destruct (storeHeartbeat c l w) as [[e l'] w'] eqn:Hrun. cbn [fst snd].
      by apply (storeHeartbeat_handle _ _ _ _ _ _ Hrun).
  - intros fuel c l w err l' w' Hrel [Hrun|Hrun].
    + unfold ReleaseContext, IsReleased in Hrun. rewrite Hrel in Hrun.
      by injection Hrun as <- <- <-.
    + unfold SendHeartbeat in Hrun.
      destruct (retry fuel _ _) as [[err1 s1]|] eqn:Hr; [|discriminate].
      injection Hrun as <- ->.
      apply (retry_invariant (fun s => l_isReleased s.1 = true)) in Hr; [exact Hr| |exact Hrel].
      intros [l0 w0] H0. unfold attempt. cbn [fst snd] in *.
      destruct (storeHeartbeat c l0 (interleave w0)) as [[e1 l1] w1] eqn:Hrun. cbn.
      by apply (storeHeartbeat_handle _ _ _ _ _ _ Hrun).
  - intros sched. apply run_schedule_isReleased.
Qed.

Lemma isReleased_monotonic_witness :
  l_isReleased ex_holder = false
  /\ l_isReleased (storeRelease ex_client ex_holder ex_world_held).1.2 = true
  /\ (storeRelease ex_client ex_holder ex_world_held).1.1 = None
  /\ l_isReleased (storeRelease ex_client ex_holder ex_world_taken).1.2 = true
  /\ (storeRelease ex_client ex_holder ex_world_taken).1.1 = Some ErrLockAlreadyReleased
  /\ l_isReleased (storeHeartbeat ex_client ex_holder ex_world_taken).1.2 = true
  /\ l_isReleased (storeHeartbeat ex_client ex_holder ex_world_held).1.2 = false
  /\ exists l', sys_handles (run_schedule ex_schedule ex_system).1 !! 0%nat = Some l'
                /\ l_isReleased l' = true.
Proof.
  destruct isReleased_monotonic as (_ & Hrelease & Hbeat & _ & _ & _ & _ & Hsched).
  assert (Hheld : calls_succeed 5 ex_world_held = true) by (vm_compute; reflexivity).
  assert (Htaken : calls_succeed 5 ex_world_taken = true) by (vm_compute; reflexivity).
  assert (Hone : (update_rvn (l_name ex_holder) (l_recordVersionNumber ex_holder) None
                    (table ex_world_held)).2 <> 0) by (vm_compute; discriminate).
  assert (Hzero : (update_rvn (l_name ex_holder) (l_recordVersionNumber ex_holder) None
                     (table ex_world_taken)).2 = 0) by (vm_compute; reflexivity).
  assert (Hbzero : (update_rvn (l_name ex_holder) (l_recordVersionNumber ex_holder)
                      (Some (rvn_seq ex_world_taken + 1)) (table ex_world_taken)).2 = 0)
    by (vm_compute; reflexivity).
  assert (Hbone : (update_rvn (l_name ex_holder) (l_recordVersionNumber ex_holder)
                     (Some (rvn_seq ex_world_held + 1)) (table ex_world_held)).2 <> 0)
    by (vm_compute; discriminate).
  destruct (Hrelease ex_client ex_holder ex_world_held Hheld) as (Hf1 & _ & He1).
  destruct (Hrelease ex_client ex_holder ex_world_taken Htaken) as (Hf2 & He2 & _).
  destruct (Hbeat ex_client ex_holder ex_world_taken Htaken) as (Hb1 & _).
  destruct (Hbeat ex_client ex_holder ex_world_held Hheld) as (_ & Hb2).
  split_and!;
    [reflexivity | exact Hf1 | exact (He1 Hone) | exact Hf2 | exact (He2 Hzero)
    | exact (proj1 (Hb1 Hbzero)) | exact (proj1 (Hb2 Hbone)) |].
  exact (Hsched ex_schedule ex_system 0%nat ex_released eq_refl eq_refl).
Defined.

(** ** The attempts of [AcquireContext] *)

Lemma state_after_invariant {St} (P : St -> Prop) (f : St -> option error * St) :
  (forall s, P s -> P (f s).2) ->
  forall n s, P s -> P (state_after f n s).
Proof.
  intros Hf. induction n as [|n IH]; intros s Hs; [exact Hs|].
  cbn [state_after]. apply IH. by apply Hf.
Qed.

Lemma interleave_frame w :
  faults (interleave w) = faults w /\ ctx_done (interleave w) = ctx_done w
  /\ trace (interleave w) = trace w /\ rvn_seq w <= rvn_seq (interleave w)
  /\ (length (others (interleave w)) <= length (others w))%nat.
Proof.
  unfold interleave. destruct (others w) as [|i rest] eqn:Ho;
    cbn [faults ctx_done trace rvn_seq others length]; rewrite ?Ho;
    cbn [length]; split_and!; try reflexivity; lia.
Qed.

Lemma round_keeps_refl l w : round_keeps l w (l, w).
Proof.
  unfold round_keeps, same_settings. cbn. split_and!; try reflexivity.
  exists []. by rewrite app_nil_r.
Qed.

Lemma round_keeps_attempt c l w s :
  round_keeps l w s ->
  round_keeps l w (attempt (tryAcquire c) s).2
  /\ exists cs, cs <> []
       /\ trace (attempt (tryAcquire c) s).2.2 = trace s.2 ++ map ev_db cs.
Proof.
  destruct s as [l0 w0]. intros ((Hn & Hd & Hk & Hr & Hf) & Hrel & Hctx & cs & Htr).
  cbn [fst snd] in *. unfold attempt. cbn [fst snd].
  destruct (tryAcquire c l0 (interleave w0)) as [[err l1] w1] eqn:Hrun. cbn [fst snd].
  destruct (tryAcquire_handle _ _ _ _ _ _ Hrun) as ((Hn1 & Hd1 & Hk1 & Hr1 & Hf1) & Hrel1).
  rewrite tryAcquire_storeAcquire in Hrun.
  destruct (storeAcquire c l0 (interleave w0)) as [[err2 l2] w2] eqn:Hrun2.
  injection Hrun as <- _ <-.
  destruct (storeAcquire_result _ _ _ _ _ _ Hrun2) as [(_ & Hctx2 & _ & (cs2 & Hne & Htr2) & _) _].
  destruct (interleave_frame w0) as (_ & Hctx0 & Htr0 & _).
  rewrite Htr0 in Htr2. rewrite Hctx0 in Hctx2.
  split.
  - unfold round_keeps, same_settings. cbn [fst snd].
    split_and!; try congruence.
    exists (cs ++ cs2). by rewrite Htr2, Htr, map_app, app_assoc.
  - by exists cs2.
Qed.

Lemma round_result c fuel l w err l' w' :
  retry fuel (attempt (tryAcquire c)) (l, w) = Some (err, (l', w')) ->
  same_settings l l' /\ l_isReleased l' = l_isReleased l
  /\ ctx_done w' = ctx_done w
  /\ (exists cs, cs <> [] /\ trace w' = trace w ++ map ev_db cs)
  /\ (err = Some ErrNotAcquired ->
      exists r, table w' !! l_name l = Some r
                /\ record_version_number r = Some (l_recordVersionNumber l'))
  /\ (err = None ->
      l_heartbeat l' = hb_active
      /\ exists r, table w' !! l_name l = Some r
                   /\ record_version_number r = Some (l_recordVersionNumber l')).
Proof.
  intros Hr. apply retry_result_inv in Hr as (_ & n & _ & Heq & _).
  pose proof (state_after_invariant (round_keeps l w) (attempt (tryAcquire c))
                (fun s Hs => proj1 (round_keeps_attempt c l w s Hs))
                n (l, w) (round_keeps_refl l w)) as Hinv.
  destruct (round_keeps_attempt c l w _ Hinv) as (Hlast & cs1 & Hne1 & Htr1).
  rewrite <- Heq in Hlast, Htr1.
  destruct Hinv as (Hset0 & _ & _ & cs0 & Htr0).
  destruct Hlast as (Hset & Hrel & Hctx & _). cbn [fst snd] in *.
  split_and!; [exact Hset | exact Hrel | exact Hctx | | |].
  - exists (cs0 ++ cs1). split; [by destruct cs0, cs1|].
    by rewrite Htr1, Htr0, map_app, app_assoc.
  - intros ->.
    destruct (state_after (attempt (tryAcquire c)) n (l, w)) as [l0 w0].
    unfold attempt in Heq. cbn [fst snd] in Heq, Hset0.
    rewrite tryAcquire_storeAcquire in Heq.
    destruct (storeAcquire c l0 (interleave w0)) as [[err2 l2] w2] eqn:Hrun2.
    injection Heq as <- -> ->. cbn in *.
    destruct Hset0 as (Hname & _).
    destruct (storeAcquire_result _ _ _ _ _ _ Hrun2)
      as [_ [(k & e & v & _ & _ & Herr & _)
            |[(r & held & Hrow & Hh & _ & _ & _ & -> & Ht & _)|(data & Herr & _)]]].
    + exfalso. pose proof (typedError_not_ErrNotAcquired e v) as Hno.
      rewrite <- Herr in Hno. discriminate.
    + exists r. rewrite Ht, <- Hname. by split.
    + discriminate.
  - intros ->.
    destruct (state_after (attempt (tryAcquire c)) n (l, w)) as [l0 w0].
    unfold attempt in Heq. cbn [fst snd] in Heq, Hset0.
    rewrite tryAcquire_storeAcquire in Heq.
    destruct (storeAcquire c l0 (interleave w0)) as [[err2 l2] w2] eqn:Hrun2.
    injection Heq as <- -> ->. cbn in *.
    destruct Hset0 as (Hname & _).
    destruct (storeAcquire_result _ _ _ _ _ _ Hrun2)
      as [_ [(k & e & v & _ & _ & Herr & _)
            |[(r & held & _ & _ & _ & _ & Herr & _)|(data & _ & -> & _ & Hrow & _)]]].
    + exfalso. symmetry in Herr. by apply typedError_not_nil in Herr.
    + discriminate.
    + split; [reflexivity|]. rewrite <- Hname. eexists. split; [exact Hrow|reflexivity].
Qed.

(** ** The wait loop *)

Lemma is_ErrNotAcquired_true err :
  is_ErrNotAcquired err = true -> err = Some ErrNotAcquired.
Proof. destruct err as [[]|]; cbn; congruence. Qed.

Lemma AcquireContext_loop_unfold fuel c l w :
  AcquireContext_loop (S fuel) c l w =
  if (ctx_Done w).1 then Some (None, Some ErrNotAcquired, (ctx_Done w).2)
  else
    match retry (S fuel) (attempt (tryAcquire c)) (l, (ctx_Done w).2) with
    | None => None
    | Some (err, (l1, w1)) =>
        if l_failIfLocked l1 && is_ErrNotAcquired err
        then Some (Some l1, err, w1)
        else if is_ErrNotAcquired err
        then AcquireContext_loop fuel c l1 (time_Sleep (l_leaseDuration l1) w1)
        else
          match err with
          | Some e => Some (None, Some e, w1)
          | None => Some (Some l1, None, w1)
          end
    end.
Proof. reflexivity. Qed.

Lemma AcquireContext_loop_failure fuel c :
  forall l w l' e w',
    AcquireContext_loop fuel c l w = Some (Some l', Some e, w') ->
    e = ErrNotAcquired /\ l_failIfLocked l' = true /\ same_settings l l'
    /\ exists r, table w' !! l_name l = Some r
                 /\ record_version_number r = Some (l_recordVersionNumber l').
Proof.
  induction fuel as [|fuel IH]; intros l w l' e w' Hrun; [discriminate|].
  rewrite AcquireContext_loop_unfold in Hrun.
  destruct (ctx_Done w).1; [discriminate|].
  destruct (retry _ _ _) as [[err [l1 w1]]|] eqn:Hretry; [|discriminate].
  destruct (round_result _ _ _ _ _ _ _ Hretry) as (Hset & _ & _ & _ & Hrow & _).
  destruct (l_failIfLocked l1) eqn:Hfail; cbn [andb] in Hrun.
  - destruct (is_ErrNotAcquired err) eqn:Hna.
    + apply is_ErrNotAcquired_true in Hna as ->.
      injection Hrun as <- <- <-. split_and!; auto.
    + destruct err; discriminate.
  - destruct (is_ErrNotAcquired err) eqn:Hna.
    + destruct (IH _ _ _ _ _ Hrun) as (-> & Hf & Hset' & r & Hr & Hh).
      destruct Hset as (Hn & Hd & Hk & Hrd & Hfl).
      destruct Hset' as (Hn' & Hd' & Hk' & Hrd' & Hfl').
      split_and!; [reflexivity | exact Hf | unfold same_settings; split_and!; congruence |].
      exists r. rewrite <- Hn. by split.
    + destruct err; discriminate.
Qed.

(** ** C10: what a failed [AcquireContext] hands back *)

(** C10.  When the handle was made with [failIfLocked] and a round of
    attempts ends in [ErrNotAcquired], [AcquireContext] returns that error
    together with the handle, and the handle's RVN is the RVN found in the
    row of the holder by the failed attempt.  Every other failure returns a
    nil handle: an [AcquireContext] that returns an error and a handle
    returns [ErrNotAcquired], the handle has [failIfLocked] set, and its RVN
    is the one in the row. *)
Theorem AcquireContext_failure_handle c :
  (forall fuel l w l1 w1,
      (ctx_Done w).1 = false ->
      retry (S fuel) (attempt (tryAcquire c)) (l, (ctx_Done w).2)
      = Some (Some ErrNotAcquired, (l1, w1)) ->
      l_failIfLocked l = true ->
      AcquireContext_loop (S fuel) c l w = Some (Some l1, Some ErrNotAcquired, w1)
      /\ exists r, table w1 !! l_name l = Some r
                   /\ record_version_number r = Some (l_recordVersionNumber l1))
  /\ (forall fuel name opts w l' e w',
         AcquireContext fuel c name opts w = Some (Some l', Some e, w') ->
         e = ErrNotAcquired
         /\ l_failIfLocked (newLock c name opts) = true
         /\ l_name l' = name
         /\ exists r, table w' !! name = Some r
                      /\ record_version_number r = Some (l_recordVersionNumber l')).
Proof.
  split.
  - intros fuel l w l1 w1 Hpoll Hretry Hfail.
    rewrite AcquireContext_loop_unfold, Hpoll, Hretry.
    destruct (round_result _ _ _ _ _ _ _ Hretry) as ((_ & _ & _ & _ & Hfl) & _ & _ & _ & Hrow & _).
    rewrite Hfl, Hfail. cbn. split; [reflexivity|]. by apply Hrow.
  - intros fuel name opts w l' e w' Hrun.
    destruct (AcquireContext_loop_failure _ _ _ _ _ _ _ Hrun)
      as (-> & Hf & (Hn & _ & _ & _ & Hfl) & r & Hr & Hh).
    destruct (newLock_fresh c name opts) as (_ & _ & Hname & _).
    rewrite Hname in Hr, Hn.
    split_and!; [reflexivity | congruence | exact Hn | by exists r].
Qed.

Lemma AcquireContext_failure_handle_witness :
  match ex_refused with
  | Some (Some l', Some e, w') =>
      e = ErrNotAcquired /\ l_recordVersionNumber l' = 7
      /\ exists r, table w' !! "job" = Some r
                   /\ record_version_number r = Some (l_recordVersionNumber l')
  | _ => False
  end.
Proof.
  destruct ex_refused as [[[[l'|] [e|]] w']|] eqn:Hrun;
    try (vm_compute in Hrun; discriminate).
  unfold ex_refused in Hrun.
  destruct (proj2 (AcquireContext_failure_handle ex_client) _ _ _ _ _ _ _ Hrun)
    as (He & _ & _ & Hrow).
  split; [exact He|]. split; [|exact Hrow].
  vm_compute in Hrun. by injection Hrun as <- _ _.
Defined.

Lemma wait_loop_shape_db d cs rest p :
  p <> at_select -> cs <> [] ->
  wait_loop_shape d p (map ev_db cs ++ rest) = wait_loop_shape d attempted rest.
Proof.
  intros Hp Hcs. destruct cs as [|c cs]; [done|]. clear Hcs.
  assert (Hin : forall cs, wait_loop_shape d attempted (map ev_db cs ++ rest)
                           = wait_loop_shape d attempted rest).
  { clear. induction cs as [|c cs IH]; [reflexivity|exact IH]. }
  cbn [map app wait_loop_shape]. destruct p; [done | apply Hin | apply Hin].
Qed.

Lemma no_Sleep_db cs : forallb (fun e => negb (is_Sleep e)) (map ev_db cs) = true.
Proof. induction cs as [|c cs IH]; [reflexivity|exact IH]. Qed.

Lemma AcquireContext_loop_shape fuel c :
  forall l w hdl err w',
    AcquireContext_loop fuel c l w = Some (hdl, err, w') ->
    exists tr,
      trace w' = trace w ++ tr
      /\ wait_loop_shape (l_leaseDuration l) at_select tr = true
      /\ (l_failIfLocked l = true -> forallb (fun e => negb (is_Sleep e)) tr = true).
Proof.
  induction fuel as [|fuel IH]; intros l w hdl err w' Hrun; [discriminate|].
  rewrite AcquireContext_loop_unfold in Hrun.
  assert (Hpoll : trace (ctx_Done w).2 = trace w ++ [ev_Done (ctx_Done w).1]) by reflexivity.
  destruct (ctx_Done w) as [done w0]. cbn [fst snd] in *.
  destruct done.
  { injection Hrun as <- <- <-. exists [ev_Done true]. by split_and!. }
  destruct (retry _ _ _) as [[err1 [l1 w1]]|] eqn:Hretry; [|discriminate].
  destruct (round_result _ _ _ _ _ _ _ Hretry)
    as ((_ & Hd & _ & _ & Hfl) & _ & _ & (cs & Hcs & Htr) & _).
  rewrite Hpoll, <- app_assoc in Htr. cbn [app] in Htr.
  assert (Hstop : exists tr,
             trace w1 = trace w ++ tr
             /\ wait_loop_shape (l_leaseDuration l) at_select tr = true
             /\ (l_failIfLocked l = true ->
                 forallb (fun e => negb (is_Sleep e)) tr = true)).
  { exists (ev_Done false :: map ev_db cs). split_and!; [exact Htr | |].
    - cbn [wait_loop_shape]. rewrite <- (app_nil_r (map ev_db cs)).
      by rewrite wait_loop_shape_db.
    - intros _. cbn. apply no_Sleep_db. }
  destruct (l_failIfLocked l1 && is_ErrNotAcquired err1) eqn:Hfast.
  { by injection Hrun as <- <- <-. }
  destruct (is_ErrNotAcquired err1) eqn:Hna.
  - destruct (IH _ _ _ _ _ Hrun) as (tr & Htr' & Hshape & _).
    cbn [time_Sleep trace] in Htr'. rewrite Htr, <- !app_assoc in Htr'. cbn [app] in Htr'.
    exists (ev_Done false :: map ev_db cs ++ ev_Sleep (l_leaseDuration l1) :: tr).
    split_and!; [exact Htr' | |].
    + cbn [wait_loop_shape]. rewrite wait_loop_shape_db by done.
      cbn [wait_loop_shape]. rewrite Hd, Z.eqb_refl. cbn. by rewrite <- Hd.
    + intros Hf. rewrite Hfl, Hf in Hfast. discriminate.
  - destruct err1; by injection Hrun as <- <- <-.
Qed.

(** ** Several handles: the RVNs handed to successful callers *)

Lemma tryAcquire_success c l w l' w' :
  tryAcquire c l w = (None, l', w') ->
  l_recordVersionNumber l' = rvn_seq w + 1 /\ rvn_seq w' = rvn_seq w + 1
  /\ l_name l' = l_name l
  /\ exists r, table w' !! l_name l = Some r
               /\ record_version_number r = Some (l_recordVersionNumber l').
Proof.
  rewrite tryAcquire_storeAcquire.
  destruct (storeAcquire c l w) as [[err l1] w1] eqn:Hrun.
  intros [= -> <- <-].
  destruct (storeAcquire_result _ _ _ _ _ _ Hrun)
    as [_ [(n & e & v & _ & _ & Herr & _)
          |[(r & held & _ & _ & _ & _ & Herr & _)|(data & _ & -> & _ & Hrow & Hseq)]]].
  - symmetry in Herr. by apply typedError_not_nil in Herr.
  - discriminate.
  - cbn. split_and!; [reflexivity | exact Hseq | reflexivity |]. eauto.
Qed.

Lemma tryAcquire_seq c l w err l' w' :
  tryAcquire c l w = (err, l', w') -> rvn_seq w <= rvn_seq w'.
Proof.
  rewrite tryAcquire_storeAcquire.
  destruct (storeAcquire c l w) as [[err1 l1] w1] eqn:Hrun.
  intros [= _ _ <-].
  destruct (storeAcquire_result _ _ _ _ _ _ Hrun) as [(_ & _ & Hs & _) _]. lia.
Qed.

Lemma step_seq a s :
  rvn_seq (sys_world s) <= rvn_seq (sys_world (step a s).1)
  /\ forall name,
       Forall (fun r => rvn_seq (sys_world s) < r <= rvn_seq (sys_world (step a s).1))
         (acquired_rvns name (step a s).2).
Proof.
  destruct a as [c name opts|c k|c k|c k]; cbn [step].
  - cbn. split; [lia | intros; constructor].
  - destruct (sys_handles s !! k) as [lk|] eqn:Hk; [|cbn; split; [lia|intros; constructor]].
    destruct (tryAcquire c lk (sys_world s)) as [[err l1] w1] eqn:Hrun. cbn [fst snd sys_world].
    pose proof (tryAcquire_seq _ _ _ _ _ _ Hrun) as Hle.
    split; [exact Hle|]. intros name.
    destruct err as [e|]; [constructor|].
    destruct (tryAcquire_success _ _ _ _ _ Hrun) as (Hr & Hs & _).
    unfold acquired_rvns. cbn. destruct (String.eqb _ _); constructor; [lia|constructor].
  - split; [|intros; constructor].
    unfold on_handle. destruct (sys_handles s !! k) as [lk|]; [|cbn; lia].
    destruct (storeHeartbeat c lk (sys_world s)) as [[err l1] w1] eqn:Hrun. cbn.
    destruct (storeHeartbeat_result _ _ _ _ _ _ Hrun) as [(_ & _ & Hs & _) _]. lia.
  - split; [|intros; constructor].
    unfold on_handle. destruct (sys_handles s !! k) as [lk|]; [|cbn; lia].
    destruct (IsReleased lk); [cbn; lia|].
    destruct (storeRelease c lk (sys_world s)) as [[err l1] w1] eqn:Hrun. cbn.
    destruct (storeRelease_result _ _ _ _ _ _ Hrun) as [(_ & _ & Hs & _) _]. lia.
Qed.

Lemma step_sorted_one name a s :
  StronglySorted Z.lt (acquired_rvns name (step a s).2).
Proof.
  assert (Hshort : forall os : list Observation,
             (length os <= 1)%nat -> StronglySorted Z.lt (acquired_rvns name os)).
  { intros [|[h n r] [|o os]] Hlen; cbn in Hlen; [constructor| |lia].
    unfold acquired_rvns. cbn. destruct (String.eqb _ _); repeat constructor. }
  apply Hshort.
  destruct a as [c n opts|c k|c k|c k]; cbn [step snd length]; try lia.
  destruct (sys_handles s !! k) as [lk|]; [|cbn; lia].
  destruct (tryAcquire c lk (sys_world s)) as [[[e|] l1] w1]; cbn; lia.
Qed.

Lemma run_schedule_rvns name sched :
  forall s,
    rvn_seq (sys_world s) <= rvn_seq (sys_world (run_schedule sched s).1)
    /\ StronglySorted Z.lt (acquired_rvns name (run_schedule sched s).2)
    /\ Forall (fun r => rvn_seq (sys_world s) < r
                        <= rvn_seq (sys_world (run_schedule sched s).1))
         (acquired_rvns name (run_schedule sched s).2).
Proof.
  induction sched as [|a sched IH]; intros s.
  - cbn. split_and!; [lia | constructor | constructor].
  - rewrite run_schedule_cons. cbn [fst snd].
    destruct (step_seq a s) as [Hle Hobs]. specialize (Hobs name).
    destruct (IH (step a s).1) as (Hle' & Hsorted & Hall).
    unfold acquired_rvns in *. rewrite omap_app.
    split_and!; [lia | |].
    + apply StronglySorted_app_2; [|by apply step_sorted_one|exact Hsorted].
      intros x y Hx Hy.
      rewrite Forall_forall in Hobs, Hall.
      specialize (Hobs _ Hx). specialize (Hall _ Hy). lia.
    + apply Forall_app. split.
      * eapply Forall_impl; [exact Hobs|]. cbn. intros; lia.
      * eapply Forall_impl; [exact Hall|]. cbn. intros; lia.
Qed.

Lemma StronglySorted_lookup_lt {A} (R : relation A) (l : list A) :
  StronglySorted R l ->
  forall i j x y, (i < j)%nat -> l !! i = Some x -> l !! j = Some y -> R x y.
Proof.
  induction 1 as [|a l Hs IH Hall]; intros i j x y Hij Hi Hj; [by destruct i|].
  destruct j as [|j]; [lia|]. cbn in Hj.
  destruct i as [|i].
  - injection Hi as <-. rewrite Forall_forall in Hall. apply Hall.
    by eapply list_elem_of_lookup_2.
  - cbn in Hi. apply (IH i j); [lia|done|done].
Qed.

Lemma StronglySorted_lt_NoDup (l : list Z) : StronglySorted Z.lt l -> NoDup l.
Proof.
  induction 1 as [|a l Hs IH Hall]; constructor; [|exact IH].
  intros Hin. rewrite Forall_forall in Hall. specialize (Hall _ Hin). lia.
Qed.

Lemma run_schedule_observations sched :
  forall s,
    StronglySorted (fun o1 o2 => obs_rvn o1 < obs_rvn o2) (run_schedule sched s).2
    /\ Forall (fun o => rvn_seq (sys_world s) < obs_rvn o) (run_schedule sched s).2.
Proof.
  induction sched as [|a sched IH]; intros s; [split; constructor|].
  rewrite run_schedule_cons. cbn [fst snd].
  destruct (IH (step a s).1) as (Hsorted & Hall).
  assert (Hone : (step a s).2 = []
                 \/ exists h n r, (step a s).2 = [obs_acquired h n r]
                                  /\ rvn_seq (sys_world s) < r
                                     <= rvn_seq (sys_world (step a s).1)).
  { destruct a as [c n opts|c k|c k|c k]; cbn [step snd]; auto.
    destruct (sys_handles s !! k) as [lk|]; [|by left].
    destruct (tryAcquire c lk (sys_world s)) as [[[e|] l1] w1] eqn:Hrun; [by left|].
    right. destruct (tryAcquire_success _ _ _ _ _ Hrun) as (Hr & Hs & _).
    eexists _, _, _. split; [reflexivity|]. cbn. lia. }
  destruct (step_seq a s) as [Hle _].
  destruct Hone as [->|(h & n & r & -> & Hr)]; cbn [app].
  - split; [exact Hsorted|]. eapply Forall_impl; [exact Hall|]. cbn. intros; lia.
  - split.
    + constructor; [exact Hsorted|].
      eapply Forall_impl; [exact Hall|]. cbn. intros; lia.
    + constructor; [cbn; lia|].
      eapply Forall_impl; [exact Hall|]. cbn. intros; lia.
Qed.

Lemma upsert_lookup_ne name rvn data claimant rd tx k :
  k <> name -> upsert name rvn data claimant rd tx !! k = tx !! k.
Proof.
  intros Hne. unfold upsert.
  repeat case_match; rewrite ?lookup_insert_ne by done; reflexivity.
Qed.

Lemma rows_old_or_fresh_same w w' :
  table w' = table w -> rows_old_or_fresh w w'.
Proof. intros Ht name r x Hr Hx. left. exists r. by rewrite <- Ht. Qed.

Lemma storeAcquire_rows c l w err l' w' :
  storeAcquire c l w = (err, l', w') -> rows_old_or_fresh w w'.
Proof.
  intros Hrun.
  destruct (storeAcquire_result _ _ _ _ _ _ Hrun)
    as [_ [(n & e & v & _ & _ & _ & _ & Ht & _)
          |[(r & held & _ & _ & _ & _ & _ & _ & Ht & _)|(data & _ & _ & Ht & Hrow & Hs)]]];
    [by apply rows_old_or_fresh_same | by apply rows_old_or_fresh_same |].
  intros name r x Hr Hx. destruct (decide (name = l_name l)) as [->|Hne].
  - right. rewrite Hrow in Hr. injection Hr as <-. cbn in Hx. injection Hx as <-. lia.
  - left. exists r. by rewrite Ht, upsert_lookup_ne in Hr.
Qed.

Lemma storeHeartbeat_rows c l w err l' w' :
  storeHeartbeat c l w = (err, l', w') -> rows_old_or_fresh w w'.
Proof.
  intros Hrun.
  destruct (storeHeartbeat_result _ _ _ _ _ _ Hrun)
    as (_ & [(n & e & v & _ & _ & _ & _ & Ht & _)
            |[(_ & _ & _ & Ht)|(_ & _ & _ & Ht & Hs)]]);
    [by apply rows_old_or_fresh_same | by apply rows_old_or_fresh_same |].
  intros name r x Hr Hx. rewrite Ht in Hr.
  destruct (decide (l_name l = name)) as [<-|Hne].
  - right. rewrite lookup_alter_eq in Hr.
    destruct (table w !! l_name l) as [r0|]; [|discriminate].
    injection Hr as <-. cbn in Hx. injection Hx as <-. lia.
  - left. exists r. by rewrite lookup_alter_ne in Hr.
Qed.

Lemma storeRelease_rows c l w err l' w' :
  storeRelease c l w = (err, l', w') -> rows_old_or_fresh w w'.
Proof.
  intros Hrun.
  destruct (storeRelease_result _ _ _ _ _ _ Hrun)
    as (_ & _ & [(n & e & v & _ & _ & _ & _ & Ht & _)
                |[(_ & _ & _ & Ht)|(_ & _ & _ & Ht)]]);
    [by apply rows_old_or_fresh_same | by apply rows_old_or_fresh_same |].
  intros name r x Hr Hx. rewrite Ht in Hr. left.
  destruct (l_keepOnRelease l); destruct (decide (l_name l = name)) as [<-|Hne].
  - rewrite lookup_alter_eq in Hr.
    destruct (table w !! l_name l) as [r0|]; [|discriminate].
    injection Hr as <-. discriminate.
  - exists r. by rewrite lookup_alter_ne in Hr.
  - by rewrite lookup_delete_eq in Hr.
  - exists r. by rewrite lookup_delete_ne in Hr.
Qed.

Lemma step_rows a s :
  rows_old_or_fresh (sys_world s) (sys_world (step a s).1).
Proof.
  destruct a as [c name opts|c k|c k|c k]; cbn [step fst];
    [by apply rows_old_or_fresh_same | | |].
  - destruct (sys_handles s !! k) as [lk|]; [|by apply rows_old_or_fresh_same].
    rewrite tryAcquire_storeAcquire.
    destruct (storeAcquire c lk (sys_world s)) as [[err l1] w1] eqn:Hrun. cbn.
    by eapply storeAcquire_rows.
  - unfold on_handle. destruct (sys_handles s !! k) as [lk|];
      [|by apply rows_old_or_fresh_same].
    destruct (storeHeartbeat c lk (sys_world s)) as [[err l1] w1] eqn:Hrun. cbn.
    by eapply storeHeartbeat_rows.
  - unfold on_handle. destruct (sys_handles s !! k) as [lk|];
      [|by apply rows_old_or_fresh_same].
    destruct (IsReleased lk); [by apply rows_old_or_fresh_same|].
    destruct (storeRelease c lk (sys_world s)) as [[err l1] w1] eqn:Hrun. cbn.
    by eapply storeRelease_rows.
Qed.

Lemma step_observation_row a s :
  Forall (fun o => rvn_seq (sys_world s) < obs_rvn o
                   /\ obs_rvn o <= rvn_seq (sys_world (step a s).1)
                   /\ row_not_behind (table (sys_world (step a s).1))
                        (obs_name o) (obs_rvn o))
    (step a s).2.
Proof.
  destruct a as [c name opts|c k|c k|c k]; cbn [step fst snd]; try constructor.
  destruct (sys_handles s !! k) as [lk|]; [|constructor].
  destruct (tryAcquire c lk (sys_world s)) as [[[e|] l1] w1] eqn:Hrun; constructor;
    [|constructor].
  destruct (tryAcquire_success _ _ _ _ _ Hrun) as (Hr & Hs & Hn & r & Hrow & Hh).
  cbn. split_and!; [lia | lia |].
  intros r' x Hr' Hx. rewrite Hn, Hrow in Hr'. injection Hr' as <-.
  rewrite Hh in Hx. injection Hx as <-. lia.
Qed.

Lemma run_schedule_rows sched :
  forall s (before : list Observation),
    Forall (fun o => obs_rvn o <= rvn_seq (sys_world s)
                     /\ row_not_behind (table (sys_world s)) (obs_name o) (obs_rvn o))
      before ->
    Forall (fun o => row_not_behind (table (sys_world (run_schedule sched s).1))
                       (obs_name o) (obs_rvn o))
      (before ++ (run_schedule sched s).2).
Proof.
  induction sched as [|a sched IH]; intros s before Hbefore.
  - cbn. rewrite app_nil_r. eapply Forall_impl; [exact Hbefore|]. by intros o [_ ?].
  - rewrite run_schedule_cons. cbn [fst snd]. rewrite app_assoc. apply IH.
    destruct (step_seq a s) as [Hle _].
    apply Forall_app. split.
    + eapply Forall_impl; [exact Hbefore|]. cbn. intros o [Ho Hrow].
      split; [lia|]. intros r x Hr Hx.
      destruct (step_rows a s _ _ _ Hr Hx) as [(r0 & Hr0 & Hx0)|Hfresh].
      * by eapply Hrow.
      * lia.
    + eapply Forall_impl; [apply step_observation_row|]. cbn. by intros o (_ & ? & ?).
Qed.

(** ** C1: mutual exclusion by record version numbers *)

(** C1.  The transactions are serializable, so a concurrent run is an
    interleaving of whole transactions.  Take any number of handles on one
    database and any interleaving of their transactions (acquisition
    attempts, heartbeats, releases, new handles).  Of two acquisitions that
    returned without error, the later one returned a strictly greater RVN
    than the earlier one.  So for every lock
    name the RVNs handed to successful callers are strictly increasing in
    the order of the run, no RVN is handed out twice, and each of them was
    drawn after the run began.  And the row of a lock, while it is held,
    never carries an RVN below one that was handed out for it: of all the
    callers that acquired the lock, only the last can still find its RVN in
    the row. *)
Theorem acquire_mutual_exclusion sched s :
  (forall i j h1 h2 n1 n2 r1 r2,
      (i < j)%nat ->
      (run_schedule sched s).2 !! i = Some (obs_acquired h1 n1 r1) ->
      (run_schedule sched s).2 !! j = Some (obs_acquired h2 n2 r2) ->
      r1 < r2)
  /\ (forall name,
         StronglySorted Z.lt (acquired_rvns name (run_schedule sched s).2)
         /\ NoDup (acquired_rvns name (run_schedule sched s).2)
         /\ Forall (fun r => rvn_seq (sys_world s) < r)
              (acquired_rvns name (run_schedule sched s).2))
  /\ (forall h name rvn r x,
         obs_acquired h name rvn ∈ (run_schedule sched s).2 ->
         table (sys_world (run_schedule sched s).1) !! name = Some r ->
         record_version_number r = Some x ->
         rvn <= x).
Proof.
  split_and!.
  - intros i j h1 h2 n1 n2 r1 r2 Hij Hi Hj.
    destruct (run_schedule_observations sched s) as [Hsorted _].
    apply (StronglySorted_lookup_lt _ _ Hsorted i j _ _ Hij Hi Hj).
  - intros name. destruct (run_schedule_rvns name sched s) as (_ & Hsorted & Hall).
    split_and!; [exact Hsorted | by apply StronglySorted_lt_NoDup |].
    eapply Forall_impl; [exact Hall|]. cbn. intros; lia.
  - intros h name rvn r x Hin Hr Hx.
    pose proof (run_schedule_rows sched s [] ltac:(constructor)) as Hrows.
    cbn [app] in Hrows. rewrite Forall_forall in Hrows.
    apply (Hrows _ Hin r x Hr Hx).
Qed.

Lemma acquire_mutual_exclusion_witness :
  (run_schedule ex_schedule ex_system).2 !! 0%nat = Some (obs_acquired 0 "job" 8)
  /\ (run_schedule ex_schedule ex_system).2 !! 1%nat = Some (obs_acquired 2 "job" 12)
  /\ 8 < 12.
Proof.
  assert (H0 : (run_schedule ex_schedule ex_system).2 !! 0%nat
               = Some (obs_acquired 0 "job" 8)) by (vm_compute; reflexivity).
  assert (H1 : (run_schedule ex_schedule ex_system).2 !! 1%nat
               = Some (obs_acquired 2 "job" 12)) by (vm_compute; reflexivity).
  split; [exact H0|]. split; [exact H1|].
  exact (proj1 (acquire_mutual_exclusion ex_schedule ex_system)
           0%nat 1%nat _ _ _ _ _ _ (Nat.lt_0_1) H0 H1).
Defined.

(** ** Termination of the loops *)

Lemma tryAcquire_result c l w err l' w' :
  tryAcquire c l w = (err, l', w') ->
  attempt_frame w w'
  /\ (errors_Is FailedPrecondition err = true ->
      (length (faults w') < length (faults w))%nat)
  /\ (err = Some ErrNotAcquired ->
      claimable (table w !! l_name l) (l_recordVersionNumber l) = false
      /\ claimable (table w' !! l_name l') (l_recordVersionNumber l') = true)
  /\ (err = None ->
      claimable (table w' !! l_name l') (l_recordVersionNumber l') = true)
  /\ (err <> None -> err <> Some ErrNotAcquired -> l' = l /\ table w' = table w).
Proof.
  rewrite tryAcquire_storeAcquire.
  destruct (storeAcquire c l w) as [[err1 l1] w1] eqn:Hrun.
  intros [= <- <- <-].
  destruct (storeAcquire_result _ _ _ _ _ _ Hrun)
    as [Hframe [(n & e & v & _ & _ & -> & -> & Ht & Hlen)
               |[(r & held & Hrow & Hh & Hne & _ & -> & -> & Ht & _)
                |(data & -> & -> & _ & Hrow & _)]]];
    (split; [exact Hframe|]).
  - split_and!.
    + intros _. exact Hlen.
    + intros Herr. pose proof (typedError_not_ErrNotAcquired e v) as Hno.
      rewrite Herr in Hno. discriminate.
    + intros Herr. by apply typedError_not_nil in Herr.
    + intros _ _. pose proof (typedError_not_nil e v). by destruct (typedError (Some e) v).
  - split_and!; [discriminate | | discriminate | congruence].
    intros _. cbn. rewrite Ht. unfold claimable. rewrite Hrow, Hh.
    split; [by apply Z.eqb_neq | apply Z.eqb_refl].
  - split_and!; [discriminate | discriminate | | congruence].
    intros _. cbn in *. unfold claimable. rewrite Hrow. cbn. apply Z.eqb_refl.
Qed.

Lemma attempt_tryAcquire_consumes c w s :
  round_consumes w s ->
  round_consumes w (attempt (tryAcquire c) s).2
  /\ (length (others (attempt (tryAcquire c) s).2.2) <= length (others s.2) - 1)%nat
  /\ (errors_Is FailedPrecondition (attempt (tryAcquire c) s).1 = true ->
      (length (faults (attempt (tryAcquire c) s).2.2) < length (faults s.2))%nat).
Proof.
  destruct s as [l0 w0]. intros [Hf Ho]. cbn [fst snd] in *.
  unfold attempt. cbn [fst snd].
  destruct (tryAcquire c l0 (interleave w0)) as [[err l1] w1] eqn:Hrun. cbn [fst snd].
  destruct (tryAcquire_result _ _ _ _ _ _ Hrun) as ((Hoth & _ & _ & _ & Hlen) & Hfp & _).
  assert (Hpop : (length (others (interleave w0)) <= length (others w0) - 1)%nat).
  { unfold interleave. destruct (others w0) as [|i rest] eqn:Hw0; [by rewrite Hw0|].
    cbn. lia. }
  destruct (interleave_frame w0) as (Hfaults & _).
  rewrite Hfaults in Hlen, Hfp.
  unfold round_consumes. cbn [fst snd]. rewrite Hoth.
  split_and!; [lia | lia | lia | exact Hfp].
Qed.

Lemma retry_attempt_terminates (f : Lock -> World -> option error * Lock * World) :
  (forall l w,
      errors_Is FailedPrecondition (f l w).1.1 = true ->
      (length (faults (f l w).2) < length (faults w))%nat) ->
  forall fuel l w,
    (length (faults w) < fuel)%nat ->
    exists r, retry fuel (attempt f) (l, w) = Some r.
Proof.
  intros Hf. induction fuel as [|fuel IH]; intros l w Hfuel; [lia|].
  rewrite retry_unfold.
  destruct (errors_Is FailedPrecondition (attempt f (l, w)).1) eqn:Hfp; [|eauto].
  unfold attempt in *. cbn [fst snd] in *.
  specialize (Hf l (interleave w)).
  destruct (f l (interleave w)) as [[err l1] w1]. cbn [fst snd] in *.
  destruct (interleave_frame w) as (Hfaults & _). rewrite Hfaults in Hf.
  apply IH. specialize (Hf Hfp). lia.
Qed.

Lemma round_terminates c :
  forall fuel l w,
    (length (faults w) < fuel)%nat ->
    exists r, retry fuel (attempt (tryAcquire c)) (l, w) = Some r.
Proof.
  apply retry_attempt_terminates. intros l w.
  destruct (tryAcquire c l w) as [[err l1] w1] eqn:Hrun.
  by apply (tryAcquire_result _ _ _ _ _ _ Hrun).
Qed.

Lemma ReleaseContext_terminates c fuel l w :
  (length (faults w) < fuel)%nat -> exists r, ReleaseContext fuel c l w = Some r.
Proof.
  intros Hfuel. unfold ReleaseContext. destruct (IsReleased l); [eauto|].
  apply retry_attempt_terminates; [|exact Hfuel]. clear. intros l w.
  destruct (storeRelease c l w) as [[err l1] w1] eqn:Hrun. cbn [fst snd].
  destruct (storeRelease_result _ _ _ _ _ _ Hrun)
    as (_ & _ & [(n & e & v & _ & _ & _ & _ & _ & Hlen)
                |[(_ & -> & _)|(_ & -> & _)]]); [by intros _| |]; discriminate.
Qed.

Lemma SendHeartbeat_terminates c fuel l w :
  (length (faults w) < fuel)%nat -> exists r, SendHeartbeat fuel c l w = Some r.
Proof.
  intros Hfuel. unfold SendHeartbeat.
  destruct (retry_attempt_terminates (storeHeartbeat c)) with (fuel := fuel) (l := l) (w := w)
    as [[err s] ->]; [|exact Hfuel|eauto].
  clear. intros l w.
  destruct (storeHeartbeat c l w) as [[err l1] w1] eqn:Hrun. cbn [fst snd].
  destruct (storeHeartbeat_result _ _ _ _ _ _ Hrun)
    as (_ & [(n & e & v & _ & _ & _ & _ & _ & Hlen)
            |[(_ & -> & _)|(_ & -> & _)]]); [by intros _| |]; discriminate.
Qed.

Lemma round_oracles c fuel l w err l' w' :
  retry fuel (attempt (tryAcquire c)) (l, w) = Some (err, (l', w')) ->
  (length (faults w') <= length (faults w))%nat
  /\ (length (others w') <= length (others w) - 1)%nat.
Proof.
  intros Hr. apply retry_result_inv in Hr as (_ & n & _ & Heq & _).
  pose proof (state_after_invariant (round_consumes w) (attempt (tryAcquire c))
                (fun s Hs => proj1 (attempt_tryAcquire_consumes c w s Hs))
                n (l, w) ltac:(split; cbn; lia)) as Hinv.
  destruct (attempt_tryAcquire_consumes c w _ Hinv) as ([Hf _] & Ho & _).
  rewrite <- Heq in Hf, Ho. cbn [fst snd] in *.
  destruct Hinv as [_ Ho']. split; [exact Hf | lia].
Qed.

Lemma quiet_attempt c s :
  quiet_and_claimable s ->
  quiet_and_claimable (attempt (tryAcquire c) s).2
  /\ (attempt (tryAcquire c) s).1 <> Some ErrNotAcquired.
Proof.
  destruct s as [l0 w0]. intros [Ho Hcl]. cbn [fst snd] in *.
  assert (Hsame : interleave w0 = w0) by (unfold interleave; by rewrite Ho).
  unfold attempt. cbn [fst snd]. rewrite Hsame.
  destruct (tryAcquire c l0 w0) as [[err l1] w1] eqn:Hrun. cbn [fst snd].
  destruct (tryAcquire_result _ _ _ _ _ _ Hrun)
    as ((Hoth & _) & _ & Hna & Hok & Hfail).
  unfold quiet_and_claimable. cbn [fst snd]. rewrite Hoth.
  destruct err as [e|].
  - destruct (is_ErrNotAcquired (Some e)) eqn:Hne.
    + apply is_ErrNotAcquired_true in Hne. destruct (Hna Hne) as [Hno _]. congruence.
    + assert (Some e <> Some ErrNotAcquired) as Hne' by (intros [= ->]; discriminate).
      destruct Hfail as [-> ->]; [discriminate | exact Hne' |].
      split; [by split | exact Hne'].
  - split; [split; [exact Ho | by apply Hok] | discriminate].
Qed.

Lemma quiet_round c fuel l w err l' w' :
  quiet_and_claimable (l, w) ->
  retry fuel (attempt (tryAcquire c)) (l, w) = Some (err, (l', w')) ->
  is_ErrNotAcquired err = false.
Proof.
  intros Hq Hr. apply retry_result_inv in Hr as (_ & n & _ & Heq & _).
  pose proof (state_after_invariant quiet_and_claimable (attempt (tryAcquire c))
                (fun s Hs => proj1 (quiet_attempt c s Hs)) n (l, w) Hq) as Hinv.
  destruct (quiet_attempt c _ Hinv) as [_ Hno]. rewrite <- Heq in Hno. cbn in Hno.
  destruct (is_ErrNotAcquired err) eqn:Hna; [|reflexivity].
  by apply is_ErrNotAcquired_true in Hna.
Qed.

Lemma ctx_Done_frame w :
  table (ctx_Done w).2 = table w /\ faults (ctx_Done w).2 = faults w
  /\ others (ctx_Done w).2 = others w /\ rvn_seq (ctx_Done w).2 = rvn_seq w.
Proof. by repeat split. Qed.

Lemma AcquireContext_loop_terminates c :
  forall fuel l w,
    (length (faults w) + length (others w) + 2 <= fuel)%nat
    \/ (quiet_and_claimable (l, w) /\ (length (faults w) + 1 <= fuel)%nat) ->
    exists r, AcquireContext_loop fuel c l w = Some r.
Proof.
  induction fuel as [|fuel IH]; intros l w Hfuel.
  { exfalso. destruct Hfuel as [?|[_ ?]]; lia. }
  rewrite AcquireContext_loop_unfold.
  destruct (ctx_Done_frame w) as (Ht & Hf & Ho & _).
  destruct (ctx_Done w) as [done w0]. cbn [fst snd] in *.
  destruct done; [eauto|].
  destruct (round_terminates c (S fuel) l w0) as [[err [l1 w1]] Hretry].
  { rewrite Hf. destruct Hfuel as [?|[_ ?]]; lia. }
  rewrite Hretry.
  destruct (l_failIfLocked l1 && is_ErrNotAcquired err); [eauto|].
  destruct (is_ErrNotAcquired err) eqn:Hna; [|destruct err; eauto].
  apply IH.
  destruct (round_oracles _ _ _ _ _ _ _ Hretry) as [Hf1 Ho1].
  rewrite Hf, Ho in *.
  destruct (round_result _ _ _ _ _ _ _ Hretry) as ((Hn & _) & _ & _ & _ & Hrow & _).
  apply is_ErrNotAcquired_true in Hna. destruct (Hrow Hna) as (r & Hr & Hh).
  destruct Hfuel as [Hfuel|[[Hq Hcl] Hfuel]].
  - destruct (others w) as [|i rest] eqn:Hothers.
    + right. split; [|cbn [time_Sleep faults length] in *; lia].
      split; cbn [fst snd time_Sleep others table].
      * destruct (others w1); [reflexivity | cbn in Ho1; lia].
      * rewrite Hn. unfold claimable. rewrite Hr, Hh. apply Z.eqb_refl.
    + left. cbn [time_Sleep faults others length] in *. lia.
  - exfalso. cbn [fst snd] in *.
    assert (Hq0 : quiet_and_claimable (l, w0)).
    { split; cbn [fst snd]; [by rewrite Ho | by rewrite Ht]. }
    pose proof (quiet_round _ _ _ _ _ _ _ Hq0 Hretry) as Hno.
    rewrite Hna in Hno. discriminate.
Qed.

(** ** C3: the wait loop of [AcquireContext] *)

(** The loop never polls past the cancellation of its context, and the poll
    that meets it ends the call. *)
Lemma AcquireContext_loop_cancelled c fuel :
  forall n l w rest hdl err w',
    ctx_done w = replicate n false ++ true :: rest ->
    AcquireContext_loop fuel c l w = Some (hdl, err, w') ->
    (exists k, (k < n)%nat /\ ctx_done w' = replicate k false ++ true :: rest)
    \/ (ctx_done w' = rest /\ hdl = None /\ err = Some ErrNotAcquired).
Proof.
  induction fuel as [|fuel IH]; intros n l w rest hdl err w' Hc Hrun; [discriminate|].
  rewrite AcquireContext_loop_unfold in Hrun.
  destruct n as [|n]; cbn [replicate app] in Hc.
  - assert (Hdone : (ctx_Done w).1 = true) by (unfold ctx_Done; cbn; by rewrite Hc).
    rewrite Hdone in Hrun. injection Hrun as <- <- <-. right.
    unfold ctx_Done. cbn. by rewrite Hc.
  - assert (Hdone : (ctx_Done w).1 = false) by (unfold ctx_Done; cbn; by rewrite Hc).
    assert (Hc0 : ctx_done (ctx_Done w).2 = replicate n false ++ true :: rest)
      by (unfold ctx_Done; cbn; by rewrite Hc).
    rewrite Hdone in Hrun.
    destruct (retry _ _ _) as [[err1 [l1 w1]]|] eqn:Hretry; [|discriminate].
    destruct (round_result _ _ _ _ _ _ _ Hretry) as (_ & _ & Hc1 & _).
    rewrite Hc0 in Hc1.
    destruct (l_failIfLocked l1 && is_ErrNotAcquired err1).
    { injection Hrun as <- <- <-. left. exists n. split; [lia|done]. }
    destruct (is_ErrNotAcquired err1).
    + destruct (IH n l1 (time_Sleep (l_leaseDuration l1) w1) rest hdl err w' Hc1 Hrun)
        as [(k & Hk & Hw')|Hcancel]; [left; exists k; split; [lia|done] | by right].
    + left. exists n. split; [lia|]. by destruct err1; injection Hrun as <- <- <-.
Qed.

(** C3.  A caller's context that is cancelled makes [AcquireContext] return
    a nil handle and [ErrNotAcquired], in either mode: when the context is
    done at the first poll, the call returns at once, with no driver call;
    when it is cancelled during a wait, the call returns at the poll that
    follows the sleep; and whenever the context is cancelled, the loop never
    polls past the cancellation, and the poll that meets it ends the call
    with a nil handle and [ErrNotAcquired].  With [failIfLocked], a round of
    attempts that ends in [ErrNotAcquired] is returned as it is, without a
    sleep.  Without it, such a round is followed by one sleep of the
    handle's [leaseDuration] and the next turn of the loop.  A round that
    ends otherwise ends the loop.  So in the trace of a call that returns,
    every turn of the loop starts with one poll, and two turns are separated
    by exactly one sleep, of exactly the lease duration, after the driver
    calls of the first; with [failIfLocked] there is no sleep at all.  Every
    round ends once the driver has no more serialization failures to report,
    and the call returns once the other clients have stopped writing: fuel
    beyond the lengths of the two oracles gives a result. *)
Theorem AcquireContext_wait_loop c :
  (forall fuel l w rest,
      ctx_done w = true :: rest ->
      AcquireContext_loop (S fuel) c l w
      = Some (None, Some ErrNotAcquired,
              {| table := table w; rvn_seq := rvn_seq w; faults := faults w;
                 others := others w; ctx_done := rest;
                 trace := trace w ++ [ev_Done true] |}))
  /\ (forall fuel l w l1 w1 rest,
         ctx_done w = false :: true :: rest ->
         retry (S (S fuel)) (attempt (tryAcquire c)) (l, (ctx_Done w).2)
         = Some (Some ErrNotAcquired, (l1, w1)) ->
         l_failIfLocked l = false ->
         AcquireContext_loop (S (S fuel)) c l w
         = Some (None, Some ErrNotAcquired,
                 {| table := table w1; rvn_seq := rvn_seq w1; faults := faults w1;
                    others := others w1; ctx_done := rest;
                    trace := trace w1 ++ [ev_Sleep (l_leaseDuration l); ev_Done true] |}))
  /\ (forall fuel n l w rest hdl err w',
         ctx_done w = replicate n false ++ true :: rest ->
         AcquireContext_loop fuel c l w = Some (hdl, err, w') ->
         (exists k, (k < n)%nat /\ ctx_done w' = replicate k false ++ true :: rest)
         \/ (ctx_done w' = rest /\ hdl = None /\ err = Some ErrNotAcquired))
  /\ (forall fuel l w l1 w1,
         (ctx_Done w).1 = false ->
         retry (S fuel) (attempt (tryAcquire c)) (l, (ctx_Done w).2)
         = Some (Some ErrNotAcquired, (l1, w1)) ->
         l_failIfLocked l = true ->
         AcquireContext_loop (S fuel) c l w = Some (Some l1, Some ErrNotAcquired, w1))
  /\ (forall fuel l w l1 w1,
         (ctx_Done w).1 = false ->
         retry (S fuel) (attempt (tryAcquire c)) (l, (ctx_Done w).2)
         = Some (Some ErrNotAcquired, (l1, w1)) ->
         l_failIfLocked l = false ->
         AcquireContext_loop (S fuel) c l w
         = AcquireContext_loop fuel c l1 (time_Sleep (l_leaseDuration l) w1)
         /\ trace (time_Sleep (l_leaseDuration l) w1)
            = trace w1 ++ [ev_Sleep (l_leaseDuration l)])
  /\ (forall fuel l w err l1 w1,
         (ctx_Done w).1 = false ->
         retry (S fuel) (attempt (tryAcquire c)) (l, (ctx_Done w).2)
         = Some (err, (l1, w1)) ->
         is_ErrNotAcquired err = false ->
         AcquireContext_loop (S fuel) c l w
         = Some (if err is None then Some l1 else None, err, w1))
  /\ (forall fuel l w hdl err w',
         AcquireContext_loop fuel c l w = Some (hdl, err, w') ->
         exists tr,
           trace w' = trace w ++ tr
           /\ wait_loop_shape (l_leaseDuration l) at_select tr = true
           /\ (l_failIfLocked l = true ->
               forallb (fun e => negb (is_Sleep e)) tr = true))
  /\ (forall fuel l w,
         (length (faults w) < fuel)%nat ->
         exists r, retry fuel (attempt (tryAcquire c)) (l, w) = Some r)
  /\ (forall fuel l w,
         (length (faults w) + length (others w) + 2 <= fuel)%nat ->
         exists r, AcquireContext_loop fuel c l w = Some r).
Proof.
  assert (Hfirst : forall fuel l w rest,
             ctx_done w = true :: rest ->
             AcquireContext_loop (S fuel) c l w
             = Some (None, Some ErrNotAcquired,
                     {| table := table w; rvn_seq := rvn_seq w; faults := faults w;
                        others := others w; ctx_done := rest;
                        trace := trace w ++ [ev_Done true] |})).
  { intros fuel l w rest Hc. rewrite AcquireContext_loop_unfold.
    unfold ctx_Done. cbn [fst snd]. by rewrite Hc. }
  split_and!.
  - exact Hfirst.
  - intros fuel l w l1 w1 rest Hc Hretry Hfail.
    assert (Hpoll : (ctx_Done w).1 = false) by (unfold ctx_Done; cbn; by rewrite Hc).
    assert (Hc0 : ctx_done (ctx_Done w).2 = true :: rest)
      by (unfold ctx_Done; cbn; by rewrite Hc).
    rewrite AcquireContext_loop_unfold, Hpoll, Hretry.
    destruct (round_result _ _ _ _ _ _ _ Hretry) as ((_ & Hd & _ & _ & Hfl) & _ & Hc1 & _).
    rewrite Hfl, Hfail, Hd. cbn [andb is_ErrNotAcquired].
    rewrite Hc0 in Hc1.
    rewrite (Hfirst fuel l1 (time_Sleep (l_leaseDuration l) w1) rest Hc1).
    unfold time_Sleep. cbn [table rvn_seq faults others trace].
    by rewrite <- app_assoc.
  - intros fuel. apply AcquireContext_loop_cancelled.
  - intros fuel l w l1 w1 Hpoll Hretry Hfail.
    rewrite AcquireContext_loop_unfold, Hpoll, Hretry.
    destruct (round_result _ _ _ _ _ _ _ Hretry) as ((_ & _ & _ & _ & Hfl) & _).
    by rewrite Hfl, Hfail.
  - intros fuel l w l1 w1 Hpoll Hretry Hfail.
    rewrite AcquireContext_loop_unfold, Hpoll, Hretry.
    destruct (round_result _ _ _ _ _ _ _ Hretry) as ((_ & Hd & _ & _ & Hfl) & _).
    by rewrite Hfl, Hfail, Hd.
  - intros fuel l w err l1 w1 Hpoll Hretry Hna.
    rewrite AcquireContext_loop_unfold, Hpoll, Hretry, Hna, andb_false_r.
    by destruct err.
  - intros fuel. apply AcquireContext_loop_shape.
  - apply round_terminates.
  - intros fuel l w Hfuel. apply AcquireContext_loop_terminates. by left.
Qed.

Lemma AcquireContext_wait_loop_witness :
  (match ex_waiting with
   | Some (hdl, err, w') =>
       err = None
       /\ exists tr,
            trace w' = trace ex_world_held ++ tr
            /\ wait_loop_shape (20 * Second) at_select tr = true
            /\ length (filter (fun e => is_Sleep e = true) tr) = 1%nat
   | None => False
   end)
  /\ exists w',
       ex_cancelled = Some (None, Some ErrNotAcquired, w')
       /\ ctx_done ex_world_cancelled = [false; true]
       /\ ctx_done w' = []
       /\ table w' = table ex_world_cancelled
       /\ filter (fun e => is_Sleep e = true) (trace w') = [ev_Sleep (20 * Second)].
Proof.
  destruct (AcquireContext_wait_loop ex_client)
    as (_ & Hwait & _ & _ & _ & _ & Hshape & _).
  split.
  - destruct ex_waiting as [[[hdl err] w']|] eqn:Hrun;
      [|vm_compute in Hrun; discriminate].
    unfold ex_waiting, AcquireContext in Hrun.
    destruct (Hshape _ _ _ _ _ _ Hrun) as (tr & Htr & Hs & _).
    split; [vm_compute in Hrun; by injection Hrun as _ <- _|].
    exists tr. split; [exact Htr|]. split; [exact Hs|].
    vm_compute in Hrun. injection Hrun as _ _ <-.
    cbn [trace ex_world_held app] in Htr. subst tr. reflexivity.
  - destruct (retry 2 (attempt (tryAcquire ex_client))
                (newLock ex_client "job" [], (ctx_Done ex_world_cancelled).2))
      as [[err [l1 w1]]|] eqn:Hretry; [|vm_compute in Hretry; discriminate].
    assert (Herr : err = Some ErrNotAcquired).
    { assert (H : fst <$> retry 2 (attempt (tryAcquire ex_client))
                    (newLock ex_client "job" [], (ctx_Done ex_world_cancelled).2)
                  = Some (Some ErrNotAcquired)) by (vm_compute; reflexivity).
      rewrite Hretry in H. by injection H. }
    subst err.
    assert (Hw1 : table w1 = table ex_world_cancelled
                  /\ filter (fun e => is_Sleep e = true) (trace w1) = []).
    { assert (H : (fun r => (table r.2.2, filter (fun e => is_Sleep e = true) (trace r.2.2)))
                  <$> retry 2 (attempt (tryAcquire ex_client))
                        (newLock ex_client "job" [], (ctx_Done ex_world_cancelled).2)
                  = Some (table ex_world_cancelled, [])) by (vm_compute; reflexivity).
      rewrite Hretry in H. cbn in H. by injection H. }
    destruct Hw1 as [Ht1 Htr1].
    pose proof (Hwait 0%nat (newLock ex_client "job" []) ex_world_cancelled l1 w1 []
                  eq_refl Hretry eq_refl) as Hrun.
    eexists. split; [exact Hrun|]. cbn [ctx_done table trace].
    split_and!; [reflexivity | reflexivity | exact Ht1 |].
    rewrite filter_app, Htr1. reflexivity.
Defined.


(** ** The sequence stays ahead of the table *)

Lemma drawn_before_mono r seq seq' :
  seq <= seq' -> drawn_before r seq = true -> drawn_before r seq' = true.
Proof.
  unfold drawn_before. destruct r as [r|]; [|done].
  destruct (record_version_number r); [|done].
  intros Hle H%Z.leb_le. apply Z.leb_le. lia.
Qed.

Lemma storeAcquire_sequence_ahead c l w :
  sequence_ahead w -> sequence_ahead (storeAcquire c l w).2.
Proof.
  intros Hw name.
  destruct (storeAcquire c l w) as [[err l'] w'] eqn:Hrun. cbn [snd].
  destruct (storeAcquire_result _ _ _ _ _ _ Hrun)
    as [(_ & _ & Hseq & _)
          [(n & e & v & _ & _ & _ & _ & Ht & _)
          |[(r & held & _ & _ & _ & _ & _ & _ & Ht & _)|(data & _ & _ & Ht & Hrow & Hs)]]].
  - rewrite Ht. eapply drawn_before_mono; [|apply Hw]. lia.
  - rewrite Ht. eapply drawn_before_mono; [|apply Hw]. lia.
  - destruct (decide (name = l_name l)) as [->|Hne].
    + rewrite Hrow. cbn. apply Z.leb_le. lia.
    + rewrite Ht. unfold upsert.
      assert (Hold : drawn_before (table w !! name) (rvn_seq w') = true).
      { eapply drawn_before_mono; [|apply Hw]. lia. }
      repeat case_match; rewrite ?lookup_insert_ne by done; exact Hold.
Qed.

Lemma storeRelease_sequence_ahead c l w :
  sequence_ahead w -> sequence_ahead (storeRelease c l w).2.
Proof.
  intros Hw name.
  destruct (storeRelease c l w) as [[err l'] w'] eqn:Hrun. cbn [snd].
  destruct (storeRelease_result _ _ _ _ _ _ Hrun)
    as (_ & Hseq & [(n & e & v & _ & _ & _ & _ & Ht & _)
                   |[(_ & _ & _ & Ht)|(_ & _ & _ & Ht)]]);
    rewrite Ht, Hseq; try apply Hw.
  specialize (Hw name).
  destruct (l_keepOnRelease l); destruct (decide (l_name l = name)) as [<-|Hne].
  - rewrite lookup_alter_eq. by destruct (table w !! l_name l).
  - by rewrite lookup_alter_ne.
  - by rewrite lookup_delete_eq.
  - by rewrite lookup_delete_ne.
Qed.

Lemma storeHeartbeat_sequence_ahead c l w :
  sequence_ahead w -> sequence_ahead (storeHeartbeat c l w).2.
Proof.
  intros Hw name.
  destruct (storeHeartbeat c l w) as [[err l'] w'] eqn:Hrun. cbn [snd].
  destruct (storeHeartbeat_result _ _ _ _ _ _ Hrun)
    as ((_ & _ & Hseq & _)
        & [(n & e & v & _ & _ & _ & _ & Ht & _)
          |[(_ & _ & _ & Ht)|(_ & _ & _ & Ht & Hs)]]).
  - rewrite Ht. eapply drawn_before_mono; [|apply Hw]. lia.
  - rewrite Ht. eapply drawn_before_mono; [|apply Hw]. lia.
  - rewrite Ht, Hs. specialize (Hw name).
    destruct (decide (l_name l = name)) as [<-|Hne].
    + rewrite lookup_alter_eq. destruct (table w !! l_name l); [|done].
      cbn. apply Z.leb_le. lia.
    + rewrite lookup_alter_ne by done. eapply drawn_before_mono; [|exact Hw]. lia.
Qed.

(** Along any schedule from a database whose RVNs were drawn from its
    sequence, they still are: the side condition of C2 holds in every state
    the clients can reach. *)
Lemma run_schedule_sequence_ahead sched :
  forall s, sequence_ahead (sys_world s) ->
            sequence_ahead (sys_world (run_schedule sched s).1).
Proof.
  induction sched as [|a sched IH]; intros s Hs; [exact Hs|].
  rewrite run_schedule_cons. cbn [fst]. apply IH.
  destruct a as [c name opts|c k|c k|c k]; cbn [step fst]; [exact Hs| | |].
  - destruct (sys_handles s !! k) as [lk|]; [|exact Hs].
    pose proof (storeAcquire_sequence_ahead c lk _ Hs) as Hacq.
    rewrite tryAcquire_storeAcquire.
    by destruct (storeAcquire c lk (sys_world s)) as [[err l1] w1].
  - unfold on_handle. destruct (sys_handles s !! k) as [lk|]; [|exact Hs].
    pose proof (storeHeartbeat_sequence_ahead c lk _ Hs) as Hhb.
    by destruct (storeHeartbeat c lk (sys_world s)) as [[err l1] w1].
  - unfold on_handle. destruct (sys_handles s !! k) as [lk|]; [|exact Hs].
    destruct (IsReleased lk); [exact Hs|].
    pose proof (storeRelease_sequence_ahead c lk _ Hs) as Hrel.
    by destruct (storeRelease c lk (sys_world s)) as [[err l1] w1].
Qed.

(** ** C4: construction of the client *)

Lemma wrap64_in_range z : in_int64 z -> wrap64 z = z.
Proof.
  unfold in_int64, int64_min, int64_max, wrap64. intros Hz.
  rewrite Z.mod_small; lia.
Qed.

(** [New] on a nil handle or on a driver that is not [pq] fails with
    [ErrNotPostgreSQLDriver]; on a [pq] handle it configures the defaults
    with the options and, as long as twice the heartbeat frequency fits in a
    [time.Duration], rejects the configuration exactly when the frequency
    is positive and the lease is less than twice the frequency. *)
Lemma New_validation db opts :
  (db = None \/ (exists d n, db = Some d /\ db_Driver d = other_Driver n) ->
   New db opts = (None, Some ErrNotPostgreSQLDriver))
  /\ (forall d,
         db = Some d -> db_Driver d = pq_Driver ->
         in_int64 (2 * c_heartbeatFrequency (configured d opts)) ->
         (New db opts = (None, Some ErrDurationTooSmall)
          <-> 0 < c_heartbeatFrequency (configured d opts)
              /\ c_leaseDuration (configured d opts)
                 < 2 * c_heartbeatFrequency (configured d opts))
         /\ (New db opts = (Some (configured d opts), None)
             \/ New db opts = (None, Some ErrDurationTooSmall)))
  /\ configured ex_db []
     = {| c_db := ex_db; c_tableName := "locks"; c_leaseDuration := 20 * Second;
          c_heartbeatFrequency := 5 * Second; c_log := discard_Logger |}.
Proof.
  split_and!.
  - intros [->|(d & n & -> & Hd)]; [reflexivity|]. unfold New. by rewrite Hd.
  - intros d -> Hd Hrange. unfold New. rewrite Hd. fold (configured d opts).
    unfold isDurationTooSmall. rewrite (wrap64_in_range _ Hrange).
    destruct (0 <? c_heartbeatFrequency (configured d opts)) eqn:Hpos;
      destruct (c_leaseDuration (configured d opts)
                <? 2 * c_heartbeatFrequency (configured d opts)) eqn:Hlt;
      cbn [andb];
      rewrite ?Z.ltb_lt, ?Z.ltb_ge in Hpos, Hlt;
      (split; [split; [intros; first [discriminate | lia] | intros; first [reflexivity|lia]] | auto]).
  - reflexivity.
Qed.

(** C4, where the code departs from it.  With a heartbeat frequency of 2^62
    nanoseconds, a value of [time.Duration], the frequency is positive and
    the default lease of 20s is less than twice the frequency, yet [New]
    returns a client and no error: the product [2*c.heartbeatFrequency]
    wraps around to -2^63 and the comparison with the lease fails. *)
Theorem New_accepts_overflowing_heartbeat :
  in_int64 (2 ^ 62)
  /\ 0 < 2 ^ 62
  /\ DefaultLeaseDuration < 2 * 2 ^ 62
  /\ wrap64 (2 * 2 ^ 62) = - 2 ^ 63
  /\ New (Some ex_db) [WithHeartbeatFrequency (2 ^ 62)]
     = (Some (configured ex_db [WithHeartbeatFrequency (2 ^ 62)]), None)
  /\ c_heartbeatFrequency (configured ex_db [WithHeartbeatFrequency (2 ^ 62)]) = 2 ^ 62
  /\ c_leaseDuration (configured ex_db [WithHeartbeatFrequency (2 ^ 62)]) = 20 * Second.
Proof.
  unfold in_int64, int64_min, int64_max.
  split_and!; try (vm_compute; reflexivity); lia.
Qed.



(** * Further properties of the client *)

(** ** Transactions on a driver that does not fail *)

Lemma no_faults_next cs w e :
  faults w = [] -> next_fault (after_calls cs w) <> Some e.
Proof.
  intros Hf He. apply next_fault_after_calls in He.
  rewrite Hf, lookup_nil in He. discriminate.
Qed.

Lemma quiet_frame b cs t w :
  quiet w ->
  quiet (drawn_if b (after_calls cs w))
  /\ quiet (set_table t (drawn_if b (after_calls cs w))).
Proof.
  intros [Hf Ho]. destruct (frame_after b cs w) as (_ & Ho' & _ & _ & _ & Hf').
  cbv zeta in *. unfold quiet, set_table. cbn [faults others].
  rewrite Hf', Ho', Hf, Ho, drop_nil. auto.
Qed.

Lemma quiet_interleave w : others w = [] -> interleave w = w.
Proof. intros Ho. unfold interleave. by rewrite Ho. Qed.

Lemma storeAcquire_claimable c l w :
  faults w = [] ->
  drawn_before (table w !! l_name l) (rvn_seq w) = true ->
  claimable (table w !! l_name l) (l_recordVersionNumber l) = true ->
  storeAcquire c l w
  = (None,
     set_data (acquired_data l (table w !! l_name l))
       (set_recordVersionNumber (rvn_seq w + 1) l),
     set_table
       (<[l_name l := {| record_version_number := Some (rvn_seq w + 1);
                         row_data := acquired_data l (table w !! l_name l) |}]> (table w))
       (drawn (after_calls (acquire_calls ++ [call_Commit]) w))).
Proof.
  intros Hf Hseq Hcl.
  destruct (storeAcquire_cases c l w)
    as [(cs0 & c0 & b & e & v & _ & He & _)
       |[(r & held & Htx & Hr & Hne & Heq)|(data & Htx & Heq)]].
  - by apply no_faults_next in He.
  - exfalso. rewrite (upsert_claimable _ _ _ Hcl), lookup_insert_eq in Htx.
    injection Htx as <-. cbn in Hr. congruence.
  - rewrite Heq. rewrite (upsert_claimable _ _ _ Hcl) in Htx |- *.
    rewrite lookup_insert_eq in Htx. by injection Htx as <-.
Qed.

Lemma storeAcquire_refused c l w r held :
  faults w = [] ->
  table w !! l_name l = Some r ->
  record_version_number r = Some held ->
  held <> l_recordVersionNumber l ->
  held <= rvn_seq w ->
  storeAcquire c l w
  = (Some ErrNotAcquired, set_recordVersionNumber held l,
     drawn (after_calls acquire_calls w)).
Proof.
  intros Hf Hrow Hheld Hne Hle.
  assert (Hcl : claimable (table w !! l_name l) (l_recordVersionNumber l) = false).
  { unfold claimable. rewrite Hrow, Hheld. by apply Z.eqb_neq. }
  destruct (upsert_not_claimable l (rvn_seq w + 1) _ Hcl) as (Hup & _).
  destruct (storeAcquire_cases c l w)
    as [(cs0 & c0 & b & e & v & _ & He & _)
       |[(r' & held' & Htx & Hr & _ & Heq)|(data & Htx & Heq)]].
  - by apply no_faults_next in He.
  - rewrite Hup, Hrow in Htx. injection Htx as <-.
    rewrite Hheld in Hr. injection Hr as <-. exact Heq.
  - exfalso. rewrite Hup, Hrow in Htx. injection Htx as ->.
    cbn in Hheld. injection Hheld as <-. lia.
Qed.

Lemma storeRelease_ok c l w :
  faults w = [] ->
  storeRelease c l w
  = if holds l (table w)
    then (None, released l,
          if l_keepOnRelease l
          then set_table (alter free_row (l_name l) (table w))
                 (after_calls (release_calls ++ [call_Commit]) w)
          else set_table (delete (l_name l) (table w))
                 (after_calls (release_calls ++ [call_delete; call_Commit]) w))
    else (Some ErrLockAlreadyReleased, released l, after_calls release_calls w).
Proof.
  intros Hf.
  destruct (storeRelease_cases c l w)
    as [(cs0 & c0 & e & v & _ & He & _)
       |[(Hh & Heq)|[(Hh & Hk & Heq)|(Hh & Hk & Heq)]]];
    [by apply no_faults_next in He | ..]; by rewrite Heq, Hh, ?Hk.
Qed.

Lemma storeHeartbeat_ok c l w :
  faults w = [] ->
  storeHeartbeat c l w
  = if holds l (table w)
    then (None, set_recordVersionNumber (rvn_seq w + 1) l,
          set_table (alter (refresh_row (rvn_seq w + 1)) (l_name l) (table w))
            (drawn (after_calls (heartbeat_calls ++ [call_Commit]) w)))
    else (Some ErrLockAlreadyReleased, set_isReleased true l,
          drawn (after_calls heartbeat_calls w)).
Proof.
  intros Hf.
  destruct (storeHeartbeat_cases c l w)
    as [(cs0 & c0 & b & e & v & _ & He & _)|[(Hh & Heq)|(Hh & Heq)]];
    [by apply no_faults_next in He | ..]; by rewrite Heq, Hh.
Qed.

(** ** Failure leaves the table alone *)

(** X1.  The three transactions are all or nothing on the table: when
    [storeAcquire], [storeRelease] or [storeHeartbeat] returns an error, the
    table is as it was before the call, whatever the driver did; and unless
    the error is one of the two sentinels that report the state of the row
    ([ErrNotAcquired], [ErrLockAlreadyReleased]), the handle is as it was
    too. *)
Theorem failed_transaction_leaves_table c l w e l' w' :
  storeAcquire c l w = (Some e, l', w')
  \/ storeRelease c l w = (Some e, l', w')
  \/ storeHeartbeat c l w = (Some e, l', w') ->
  table w' = table w
  /\ (e <> ErrNotAcquired -> e <> ErrLockAlreadyReleased -> l' = l).
Proof.
  intros [Hrun|[Hrun|Hrun]].
  - destruct (storeAcquire_result _ _ _ _ _ _ Hrun)
      as [_ [(n & e0 & v & _ & _ & _ & -> & Ht & _)
            |[(r & held & _ & _ & _ & _ & [= ->] & _ & Ht & _)|(data & [=] & _)]]];
      (split; [exact Ht|]); [done | intros; congruence].
  - destruct (storeRelease_result _ _ _ _ _ _ Hrun)
      as (_ & _ & [(n & e0 & v & _ & _ & _ & -> & Ht & _)
                  |[(_ & [= ->] & _ & Ht)|(_ & [=] & _)]]);
      (split; [exact Ht|]); [done | intros; congruence].
  - destruct (storeHeartbeat_result _ _ _ _ _ _ Hrun)
      as (_ & [(n & e0 & v & _ & _ & _ & -> & Ht & _)
              |[(_ & [= ->] & _ & Ht)|(_ & [=] & _)]]);
      (split; [exact Ht|]); [done | intros; congruence].
Qed.

Lemma failed_transaction_leaves_table_witness :
  (storeRelease ex_client ex_holder ex_world_conflict).1.1
  = Some (E FailedPrecondition (pq_Error "40001")
            "cannot create transaction for lock acquisition")
  /\ table (storeRelease ex_client ex_holder ex_world_conflict).2
     = table ex_world_conflict
  /\ (storeRelease ex_client ex_holder ex_world_conflict).1.2 = ex_holder.
Proof.
  assert (Hrun : storeRelease ex_client ex_holder ex_world_conflict
                 = (Some (E FailedPrecondition (pq_Error "40001")
                            "cannot create transaction for lock acquisition"),
                    (storeRelease ex_client ex_holder ex_world_conflict).1.2,
                    (storeRelease ex_client ex_holder ex_world_conflict).2))
    by (vm_compute; reflexivity).
  split; [vm_compute; reflexivity|].
  destruct (failed_transaction_leaves_table _ _ _ _ _ _ (or_intror (or_introl Hrun)))
    as [Ht Hl].
  split; [exact Ht|]. apply Hl; discriminate.
Defined.

(** ** Locks of different names *)

(** X2.  A transaction on the lock of one name reads and writes the row of
    that name only: every row of another name is the same after
    [storeAcquire], [storeRelease] and [storeHeartbeat] as before, whether
    the transaction succeeds or not. *)
Theorem other_locks_untouched c l w k :
  k <> l_name l ->
  table (storeAcquire c l w).2 !! k = table w !! k
  /\ table (storeRelease c l w).2 !! k = table w !! k
  /\ table (storeHeartbeat c l w).2 !! k = table w !! k.
Proof.
  intros Hk. split_and!.
  - destruct (storeAcquire c l w) as [[err l'] w'] eqn:Hrun. cbn [snd].
    destruct (storeAcquire_result _ _ _ _ _ _ Hrun)
      as [_ [(n & e & v & _ & _ & _ & _ & Ht & _)
            |[(r & held & _ & _ & _ & _ & _ & _ & Ht & _)|(data & _ & _ & Ht & _)]]];
      rewrite Ht; [done | done | by apply upsert_lookup_ne].
  - destruct (storeRelease c l w) as [[err l'] w'] eqn:Hrun. cbn [snd].
    destruct (storeRelease_result _ _ _ _ _ _ Hrun)
      as (_ & _ & [(n & e & v & _ & _ & _ & _ & Ht & _)
                  |[(_ & _ & _ & Ht)|(_ & _ & _ & Ht)]]);
      rewrite Ht; [done | done |].
    destruct (l_keepOnRelease l); [by rewrite lookup_alter_ne | by rewrite lookup_delete_ne].
  - destruct (storeHeartbeat c l w) as [[err l'] w'] eqn:Hrun. cbn [snd].
    destruct (storeHeartbeat_result _ _ _ _ _ _ Hrun)
      as (_ & [(n & e & v & _ & _ & _ & _ & Ht & _)
              |[(_ & _ & _ & Ht)|(_ & _ & _ & Ht & _)]]);
      rewrite Ht; [done | done | by rewrite lookup_alter_ne].
Qed.

Lemma other_locks_untouched_witness :
  "report" <> l_name ex_holder
  /\ table (storeRelease ex_client ex_holder ex_world_two).2 !! "report"
     = table ex_world_two !! "report".
Proof.
  assert (Hne : "report" <> l_name ex_holder) by (vm_compute; discriminate).
  split; [exact Hne|].
  exact (proj1 (proj2 (other_locks_untouched ex_client ex_holder ex_world_two "report" Hne))).
Defined.

(** ** Record version numbers along a run *)

Lemma run_schedule_rows_old_or_fresh sched :
  forall s, rows_old_or_fresh (sys_world s) (sys_world (run_schedule sched s).1).
Proof.
  induction sched as [|a sched IH]; intros s.
  - intros name r x Hr Hx. left. by exists r.
  - rewrite run_schedule_cons. cbn [fst]. intros name r x Hr Hx.
    destruct (step_seq a s) as [Hle _].
    destruct (run_schedule_rvns name sched (step a s).1) as (Hle' & _).
    destruct (IH (step a s).1 name r x Hr Hx) as [(r1 & Hr1 & Hx1)|Hfresh].
    + destruct (step_rows a s name r1 x Hr1 Hx1) as [Hold|Hfresh]; [by left|].
      right. lia.
    + right. lia.
Qed.

Lemma sequence_ahead_ex_world_held : sequence_ahead ex_world_held.
Proof.
  intros name. unfold ex_world_held. cbn [table rvn_seq].
  destruct (decide (name = "job")) as [->|Hne].
  - by rewrite lookup_singleton_eq.
  - by rewrite lookup_singleton_ne.
Qed.

(** X3.  Start from a table whose RVNs were all drawn from the sequence, and
    run any interleaving of transactions of any handles.  Then the RVNs of
    the table are still all drawn from the sequence, and the RVN of a row
    never goes down: a row that carried [x] at the start and carries [y] at
    the end has [x <= y], and [y] is either [x] itself or a value drawn
    during the run. *)
Theorem row_rvn_never_decreases sched s name r x r' y :
  sequence_ahead (sys_world s) ->
  table (sys_world s) !! name = Some r ->
  record_version_number r = Some x ->
  table (sys_world (run_schedule sched s).1) !! name = Some r' ->
  record_version_number r' = Some y ->
  sequence_ahead (sys_world (run_schedule sched s).1)
  /\ x <= y
  /\ (y = x \/ rvn_seq (sys_world s) < y).
Proof.
  intros Hs Hr Hx Hr' Hy.
  split; [by apply run_schedule_sequence_ahead|].
  pose proof (Hs name) as Hbefore. rewrite Hr in Hbefore.
  unfold drawn_before in Hbefore. rewrite Hx in Hbefore. apply Z.leb_le in Hbefore.
  destruct (run_schedule_rows_old_or_fresh sched s name r' y Hr' Hy)
    as [(r0 & Hr0 & Hx0)|Hfresh].
  - rewrite Hr in Hr0. injection Hr0 as <-. rewrite Hx in Hx0. injection Hx0 as <-.
    split; [lia | by left].
  - split; [lia | right; lia].
Qed.

Lemma row_rvn_never_decreases_witness :
  sequence_ahead (sys_world ex_system)
  /\ (exists r', table (sys_world (run_schedule ex_schedule ex_system).1) !! "job" = Some r'
                 /\ record_version_number r' = Some 12)
  /\ 7 <= 12.
Proof.
  assert (Hs : sequence_ahead (sys_world ex_system)) by exact sequence_ahead_ex_world_held.
  assert (Hr : table (sys_world ex_system) !! "job"
               = Some {| record_version_number := Some 7; row_data := [Byte.x01] |})
    by (vm_compute; reflexivity).
  assert (Hr' : table (sys_world (run_schedule ex_schedule ex_system).1) !! "job"
                = Some {| record_version_number := Some 12; row_data := [] |})
    by (vm_compute; reflexivity).
  split; [exact Hs|]. split; [eexists; split; [exact Hr'|reflexivity]|].
  exact (proj1 (proj2 (row_rvn_never_decreases ex_schedule ex_system "job" _ 7 _ 12
                         Hs Hr eq_refl Hr' eq_refl))).
Defined.

(** ** The settings of a handle *)

Lemma same_settings_refl l : same_settings l l.
Proof. by repeat split. Qed.

Lemma same_settings_trans l1 l2 l3 :
  same_settings l1 l2 -> same_settings l2 l3 -> same_settings l1 l3.
Proof.
  intros (?&?&?&?&?) (?&?&?&?&?). unfold same_settings. split_and!; congruence.
Qed.

Lemma step_settings a s h l :
  sys_handles s !! h = Some l ->
  exists l', sys_handles (step a s).1 !! h = Some l' /\ same_settings l l'.
Proof.
  intros Hh.
  assert (Hupd : forall k l1 w1,
             (k = h -> same_settings l l1) ->
             exists l',
               sys_handles {| sys_world := w1; sys_handles := <[k := l1]> (sys_handles s) |}
                 !! h = Some l' /\ same_settings l l').
  { intros k l1 w1 Hk. cbn. destruct (decide (k = h)) as [->|Hne].
    - exists l1. split; [|auto].
      apply list_lookup_insert_eq. by eapply lookup_lt_Some.
    - exists l. split; [by rewrite list_lookup_insert_ne | apply same_settings_refl]. }
  destruct a as [c name opts|c k|c k|c k]; cbn [step].
  - exists l. split; [|apply same_settings_refl]. cbn. by apply lookup_app_l_Some.
  - destruct (sys_handles s !! k) as [lk|] eqn:Hk;
      [|exists l; split; [done | apply same_settings_refl]].
    destruct (tryAcquire c lk (sys_world s)) as [[err l1] w1] eqn:Hrun. cbn [fst].
    apply Hupd. intros ->. rewrite Hh in Hk. injection Hk as <-.
    by apply (tryAcquire_handle _ _ _ _ _ _ Hrun).
  - unfold on_handle. destruct (sys_handles s !! k) as [lk|] eqn:Hk;
      [|exists l; split; [done | apply same_settings_refl]].
    destruct (storeHeartbeat c lk (sys_world s)) as [[err l1] w1] eqn:Hrun. cbn [fst snd].
    apply Hupd. intros ->. rewrite Hh in Hk. injection Hk as <-.
    by apply (storeHeartbeat_handle _ _ _ _ _ _ Hrun).
  - unfold on_handle. destruct (sys_handles s !! k) as [lk|] eqn:Hk;
      [|exists l; split; [done | apply same_settings_refl]].
    destruct (IsReleased lk); cbn [fst snd].
    + apply Hupd. intros ->. rewrite Hh in Hk. injection Hk as <-. apply same_settings_refl.
    + destruct (storeRelease c lk (sys_world s)) as [[err l1] w1] eqn:Hrun. cbn [fst snd].
      apply Hupd. intros ->. rewrite Hh in Hk. injection Hk as <-.
      by apply (storeRelease_handle _ _ _ _ _ _ Hrun).
Qed.

(** X4.  No transaction writes the settings of a handle: along any
    interleaving of transactions, a handle keeps its name, its lease
    duration and its three options ([keepOnRelease], [replaceData],
    [failIfLocked]); only its RVN, its payload, its released flag and its
    heartbeat context move. *)
Theorem handle_settings_never_change sched s h l :
  sys_handles s !! h = Some l ->
  exists l',
    sys_handles (run_schedule sched s).1 !! h = Some l'
    /\ l_name l' = l_name l
    /\ l_leaseDuration l' = l_leaseDuration l
    /\ l_keepOnRelease l' = l_keepOnRelease l
    /\ l_replaceData l' = l_replaceData l
    /\ l_failIfLocked l' = l_failIfLocked l.
Proof.
  revert s l. induction sched as [|a sched IH]; intros s l Hh.
  - exists l. by split_and!.
  - rewrite run_schedule_cons. cbn [fst].
    destruct (step_settings a s h l Hh) as (l1 & Hh1 & (?&?&?&?&?)).
    destruct (IH _ _ Hh1) as (l' & Hh' & ?&?&?&?&?).
    exists l'. split_and!; congruence.
Qed.

Lemma handle_settings_never_change_witness :
  sys_handles ex_system !! 1%nat = Some ex_contender
  /\ exists l',
       sys_handles (run_schedule ex_schedule ex_system).1 !! 1%nat = Some l'
       /\ l_name l' = "job" /\ l_failIfLocked l' = true.
Proof.
  assert (Hh : sys_handles ex_system !! 1%nat = Some ex_contender) by reflexivity.
  split; [exact Hh|].
  destruct (handle_settings_never_change ex_schedule ex_system 1%nat ex_contender Hh)
    as (l' & Hl' & Hn & _ & _ & _ & Hf).
  exists l'. split_and!; [exact Hl' | exact Hn | exact Hf].
Defined.

(** ** What a successful acquisition returns *)

Lemma tryAcquire_success_row c l w l' w' :
  tryAcquire c l w = (None, l', w') ->
  table w' !! l_name l
  = Some {| record_version_number := Some (l_recordVersionNumber l');
            row_data := l_data l' |}
  /\ rvn_seq w' = l_recordVersionNumber l'
  /\ l_heartbeat l' = hb_active.
Proof.
  rewrite tryAcquire_storeAcquire.
  destruct (storeAcquire c l w) as [[err l1] w1] eqn:Hrun.
  intros [= -> <- <-].
  destruct (storeAcquire_result _ _ _ _ _ _ Hrun)
    as [_ [(n & e & v & _ & _ & Herr & _)
          |[(r & held & _ & _ & _ & _ & Herr & _)|(data & _ & -> & _ & Hrow & Hseq)]]].
  - symmetry in Herr. by apply typedError_not_nil in Herr.
  - discriminate.
  - by split_and!.
Qed.

Lemma AcquireContext_loop_success fuel c :
  forall l w l' w',
    AcquireContext_loop fuel c l w = Some (Some l', None, w') ->
    same_settings l l' /\ l_isReleased l' = l_isReleased l
    /\ l_heartbeat l' = hb_active
    /\ table w' !! l_name l
       = Some {| record_version_number := Some (l_recordVersionNumber l');
                 row_data := l_data l' |}
    /\ rvn_seq w' = l_recordVersionNumber l'.
Proof.
  induction fuel as [|fuel IH]; intros l w l' w' Hrun; [discriminate|].
  rewrite AcquireContext_loop_unfold in Hrun.
  destruct (ctx_Done w).1; [discriminate|].
  destruct (retry _ _ _) as [[err [l1 w1]]|] eqn:Hretry; [|discriminate].
  destruct (round_result _ _ _ _ _ _ _ Hretry) as (Hset & Hrel & _).
  destruct (l_failIfLocked l1 && is_ErrNotAcquired err) eqn:Hfast.
  { injection Hrun as _ -> _. apply andb_true_iff in Hfast as [_ Hna]. discriminate. }
  destruct (is_ErrNotAcquired err) eqn:Hna.
  - destruct (IH _ _ _ _ Hrun) as (Hset' & Hrel' & Hhb & Hrow & Hseq).
    pose proof (proj1 Hset) as Hn.
    split_and!; [by eapply same_settings_trans | congruence | exact Hhb
                | by rewrite <- Hn | exact Hseq].
  - destruct err as [e|]; [discriminate|]. injection Hrun as <- <-.
    apply retry_last_call in Hretry as [[l0 w0] Hcall].
    unfold attempt in Hcall. cbn [fst snd] in Hcall.
    destruct (tryAcquire c l0 (interleave w0)) as [[err2 l2] w2] eqn:Htry.
    injection Hcall as <- <- <-.
    destruct (tryAcquire_success_row _ _ _ _ _ Htry) as (Hrow & Hseq & Hhb).
    destruct (tryAcquire_handle _ _ _ _ _ _ Htry) as ((Hn0 & _) & _).
    pose proof (proj1 Hset) as Hn.
    split_and!; [exact Hset | exact Hrel | exact Hhb | | exact Hseq].
    by rewrite <- Hn, Hn0.
Qed.

(** X5.  When [AcquireContext] returns a handle and no error, the handle
    holds the lock: it bears the name asked for, it is not released, its
    heartbeat context is live, and the row of that name carries the handle's
    RVN, which is the last value drawn from the sequence, and the handle's
    payload. *)
Theorem AcquireContext_success_holds fuel c name opts w l' w' :
  AcquireContext fuel c name opts w = Some (Some l', None, w') ->
  l_name l' = name
  /\ l_isReleased l' = false
  /\ l_heartbeat l' = hb_active
  /\ holds l' (table w') = true
  /\ table w' !! name
     = Some {| record_version_number := Some (l_recordVersionNumber l');
               row_data := l_data l' |}
  /\ l_recordVersionNumber l' = rvn_seq w'.
Proof.
  intros Hrun.
  destruct (AcquireContext_loop_success _ _ _ _ _ _ Hrun)
    as ((Hn & _) & Hrel & Hhb & Hrow & Hseq).
  destruct (newLock_fresh c name opts) as (Hfresh & _ & Hname & _).
  rewrite Hname in Hn, Hrow.
  split_and!; [exact Hn | congruence | exact Hhb | | exact Hrow | by symmetry].
  unfold holds. rewrite Hn, Hrow. cbn. apply Z.eqb_refl.
Qed.

Lemma AcquireContext_success_holds_witness :
  match ex_waiting with
  | Some (Some l', None, w') =>
      l_name l' = "job" /\ holds l' (table w') = true
      /\ l_recordVersionNumber l' = rvn_seq w'
  | _ => False
  end.
Proof.
  destruct ex_waiting as [[[[l'|] [e|]] w']|] eqn:Hrun;
    try (vm_compute in Hrun; discriminate).
  unfold ex_waiting in Hrun.
  destruct (AcquireContext_success_holds _ _ _ _ _ _ _ Hrun)
    as (Hn & _ & _ & Hh & _ & Hs).
  by split_and!.
Defined.

(** ** Rounds on a quiet database *)

Lemma round_quiet_refused c fuel l w r held :
  quiet w ->
  table w !! l_name l = Some r ->
  record_version_number r = Some held ->
  held <> l_recordVersionNumber l ->
  held <= rvn_seq w ->
  retry (S fuel) (attempt (tryAcquire c)) (l, w)
  = Some (Some ErrNotAcquired,
          (set_recordVersionNumber held l, drawn (after_calls acquire_calls w))).
Proof.
  intros [Hf Ho] Hrow Hheld Hne Hle.
  rewrite retry_unfold. unfold attempt. cbn [fst snd].
  rewrite (quiet_interleave _ Ho), tryAcquire_storeAcquire.
  by rewrite (storeAcquire_refused c l w r held Hf Hrow Hheld Hne Hle).
Qed.

Lemma round_quiet_claimable c fuel l w :
  quiet w ->
  drawn_before (table w !! l_name l) (rvn_seq w) = true ->
  claimable (table w !! l_name l) (l_recordVersionNumber l) = true ->
  retry (S fuel) (attempt (tryAcquire c)) (l, w)
  = Some (None,
          (set_heartbeat hb_active
             (set_data (acquired_data l (table w !! l_name l))
                (set_recordVersionNumber (rvn_seq w + 1) l)),
           set_table
             (<[l_name l := {| record_version_number := Some (rvn_seq w + 1);
                               row_data := acquired_data l (table w !! l_name l) |}]>
                (table w))
             (drawn (after_calls (acquire_calls ++ [call_Commit]) w)))).
Proof.
  intros [Hf Ho] Hseq Hcl.
  rewrite retry_unfold. unfold attempt. cbn [fst snd].
  rewrite (quiet_interleave _ Ho), tryAcquire_storeAcquire.
  by rewrite (storeAcquire_claimable c l w Hf Hseq Hcl).
Qed.

Lemma ctx_Done_never w :
  ctx_done w = [] ->
  (ctx_Done w).1 = false /\ ctx_done (ctx_Done w).2 = []
  /\ table (ctx_Done w).2 = table w /\ rvn_seq (ctx_Done w).2 = rvn_seq w
  /\ faults (ctx_Done w).2 = faults w /\ others (ctx_Done w).2 = others w
  /\ trace (ctx_Done w).2 = trace w ++ [ev_Done false].
Proof. intros Hc. unfold ctx_Done. cbn. by rewrite Hc. Qed.

Lemma calm_ctx_Done w :
  calm w ->
  (ctx_Done w).1 = false /\ calm (ctx_Done w).2
  /\ table (ctx_Done w).2 = table w /\ rvn_seq (ctx_Done w).2 = rvn_seq w
  /\ trace (ctx_Done w).2 = trace w ++ [ev_Done false].
Proof.
  intros [[Hf Ho] Hc]. unfold ctx_Done, calm, quiet. cbn. rewrite Hc. cbn.
  by split_and!.
Qed.

Lemma calm_frame b cs t w :
  calm w ->
  calm (drawn_if b (after_calls cs w))
  /\ calm (set_table t (drawn_if b (after_calls cs w))).
Proof.
  intros [Hq Hc]. destruct (quiet_frame b cs t w Hq) as [Hq1 Hq2].
  destruct (frame_after b cs w) as (_ & _ & Hc' & _).
  cbv zeta in Hc'. unfold calm. split_and!; try done.
  - by rewrite Hc'.
  - unfold set_table. cbn [ctx_done]. by rewrite Hc'.
Qed.

Lemma calm_time_Sleep d w : calm w -> calm (time_Sleep d w).
Proof. intros [[Hf Ho] Hc]. by split_and!. Qed.

Lemma AcquireContext_loop_refused fuel c l w r held :
  calm w ->
  l_failIfLocked l = false ->
  table w !! l_name l = Some r ->
  record_version_number r = Some held ->
  held <> l_recordVersionNumber l ->
  held <= rvn_seq w ->
  AcquireContext_loop (S fuel) c l w
  = AcquireContext_loop fuel c (set_recordVersionNumber held l)
      (time_Sleep (l_leaseDuration l)
         (drawn (after_calls acquire_calls (ctx_Done w).2))).
Proof.
  intros Hcalm Hfail Hrow Hheld Hne Hle.
  destruct (calm_ctx_Done w Hcalm) as (Hdone & [Hq _] & Ht & Hs & _).
  rewrite AcquireContext_loop_unfold, Hdone.
  rewrite (round_quiet_refused c fuel l _ r held Hq);
    [|by rewrite Ht|done|done|by rewrite Hs].
  change (l_failIfLocked (set_recordVersionNumber held l)) with (l_failIfLocked l).
  by rewrite Hfail.
Qed.

Lemma AcquireContext_loop_claimable fuel c l w :
  calm w ->
  drawn_before (table w !! l_name l) (rvn_seq w) = true ->
  claimable (table w !! l_name l) (l_recordVersionNumber l) = true ->
  AcquireContext_loop (S fuel) c l w
  = Some (Some (set_heartbeat hb_active
                  (set_data (acquired_data l (table w !! l_name l))
                     (set_recordVersionNumber (rvn_seq w + 1) l))),
          None,
          set_table
            (<[l_name l := {| record_version_number := Some (rvn_seq w + 1);
                              row_data := acquired_data l (table w !! l_name l) |}]>
               (table w))
            (drawn (after_calls (acquire_calls ++ [call_Commit]) (ctx_Done w).2))).
Proof.
  intros Hcalm Hseq Hcl.
  destruct (calm_ctx_Done w Hcalm) as (Hdone & [Hq _] & Ht & Hs & _).
  rewrite AcquireContext_loop_unfold, Hdone.
  rewrite (round_quiet_claimable c fuel l _ Hq); rewrite ?Ht, ?Hs; try done.
  by rewrite andb_false_r.
Qed.

(** ** A holder that fell silent *)

(** X6.  A waiting acquirer takes over the lock of a holder that fell silent
    after exactly one lease: on a database that nothing else touches, with
    the row held under another RVN, one that was drawn from the sequence,
    and without [FailIfLocked], [AcquireContext]'s loop is refused once,
    sleeps once for the handle's lease duration, and succeeds at the second
    round.  The row then carries the second value drawn from the sequence;
    its payload is the one found in the row unless the handle replaces
    data. *)
Theorem takeover_after_one_lease fuel c l w r held :
  calm w ->
  l_failIfLocked l = false ->
  table w !! l_name l = Some r ->
  record_version_number r = Some held ->
  held <> l_recordVersionNumber l ->
  held <= rvn_seq w ->
  exists l' w',
    AcquireContext_loop (S (S fuel)) c l w = Some (Some l', None, w')
    /\ l_recordVersionNumber l' = rvn_seq w + 2
    /\ rvn_seq w' = rvn_seq w + 2
    /\ table w'
       = <[l_name l := {| record_version_number := Some (rvn_seq w + 2);
                          row_data := if l_replaceData l then l_data l
                                      else row_data r |}]> (table w)
    /\ filter is_Sleep (trace w')
       = filter is_Sleep (trace w) ++ [ev_Sleep (l_leaseDuration l)].
Proof.
  intros Hcalm Hfail Hrow Hheld Hne Hle.
  rewrite (AcquireContext_loop_refused _ c l w r held) by done.
  destruct (calm_ctx_Done w Hcalm) as (_ & Hcalm0 & Ht0 & Hs0 & Htr0).
  set (w0 := (ctx_Done w).2) in *.
  destruct (calm_frame true acquire_calls ∅ w0 Hcalm0) as [Hcalm1 _].
  destruct (frame_after true acquire_calls w0) as (Ht1 & _ & _ & Hs1 & Htr1 & _).
  cbv zeta in Ht1, Hs1, Htr1. unfold drawn_if in *.
  set (w1 := drawn (after_calls acquire_calls w0)) in *.
  set (w2 := time_Sleep (l_leaseDuration l) w1).
  assert (Hcalm2 : calm w2) by by apply calm_time_Sleep.
  assert (Ht2 : table w2 = table w) by (cbn; congruence).
  assert (Hs2 : rvn_seq w2 = rvn_seq w + 1) by (cbn; lia).
  set (l1 := set_recordVersionNumber held l).
  assert (Hrow2 : table w2 !! l_name l1 = Some r) by by rewrite Ht2.
  rewrite (AcquireContext_loop_claimable _ c l1 w2 Hcalm2).
  2: { rewrite Hrow2. unfold drawn_before. rewrite Hheld. apply Z.leb_le. lia. }
  2: { rewrite Hrow2. unfold claimable. rewrite Hheld. apply Z.eqb_refl. }
  eexists _, _. split; [reflexivity|].
  destruct (calm_ctx_Done w2 Hcalm2) as (_ & _ & _ & _ & Htr3).
  destruct (frame_after true (acquire_calls ++ [call_Commit]) (ctx_Done w2).2)
    as (_ & _ & _ & Hs4 & Htr4 & _).
  cbv zeta in Hs4, Htr4. unfold drawn_if in *.
  split_and!.
  - cbn. lia.
  - unfold set_table. cbn [rvn_seq] in *. rewrite Hs4. cbn. lia.
  - unfold set_table. cbn [table]. rewrite Hrow2, Ht2, Hs2.
    replace (rvn_seq w + 1 + 1) with (rvn_seq w + 2) by lia. reflexivity.
  - unfold set_table. cbn [trace]. rewrite Htr4, Htr3.
    change (trace w2) with (trace w1 ++ [ev_Sleep (l_leaseDuration l)]).
    rewrite Htr1, Htr0, !filter_app.
    assert (Hdb : forall cs, filter is_Sleep (map ev_db cs) = []).
    { intros cs. induction cs as [|x cs IH]; [done|]. cbn. exact IH. }
    rewrite !Hdb. cbn. by rewrite !app_nil_r.
Qed.

(** ** A holder whose heartbeats come in time *)

Lemma frame_no_faults w w' : attempt_frame w w' -> faults w = [] -> faults w' = [].
Proof.
  intros (_ & _ & _ & _ & Hlen) Hf. rewrite Hf in Hlen. cbn in Hlen.
  destruct (faults w'); [done|cbn in Hlen; lia].
Qed.

Lemma holds_row l t :
  holds l t = true <->
  exists r, t !! l_name l = Some r
            /\ record_version_number r = Some (l_recordVersionNumber l).
Proof.
  unfold holds. destruct (t !! l_name l) as [r|]; [|split; [done|by intros (? & ? & _)]].
  unfold rvn_eqb. destruct (record_version_number r) as [x|] eqn:Hx.
  - rewrite Z.eqb_eq. split; [intros ->; by exists r|].
    intros (r' & [= <-] & Hr). congruence.
  - split; [done|]. intros (r' & [= <-] & Hr). congruence.
Qed.

Lemma holds_same_row l t t' :
  t' !! l_name l = t !! l_name l -> holds l t' = holds l t.
Proof. unfold holds. by intros ->. Qed.

Lemma holds_drawn l w :
  sequence_ahead w -> holds l (table w) = true -> l_recordVersionNumber l <= rvn_seq w.
Proof.
  intros Hs (r & Hr & Hx)%holds_row. specialize (Hs (l_name l)).
  rewrite Hr in Hs. unfold drawn_before in Hs. rewrite Hx in Hs. by apply Z.leb_le.
Qed.

Lemma no_fault_case (w : World) n (e : driver_error) :
  faults w = [] -> faults w !! n = Some (Some e) -> False.
Proof. intros ->. by rewrite lookup_nil. Qed.

Lemma storeAcquire_protects c l w lh err l' w' :
  faults w = [] -> sequence_ahead w ->
  holds lh (table w) = true ->
  l_recordVersionNumber l <> l_recordVersionNumber lh ->
  storeAcquire c l w = (err, l', w') ->
  faults w' = [] /\ sequence_ahead w' /\ rvn_seq w <= rvn_seq w'
  /\ holds lh (table w') = true
  /\ l_recordVersionNumber l' <= rvn_seq w'
  /\ (l_name l = l_name lh -> err <> None).
Proof.
  intros Hf Hs Hh Hne Hrun.
  pose proof (storeAcquire_sequence_ahead c l w Hs) as Hs'. rewrite Hrun in Hs'.
  cbn [snd] in Hs'.
  destruct (storeAcquire_result _ _ _ _ _ _ Hrun)
    as [Hframe [(n & e & v & _ & He & _)
               |[(r & held & Hrow & Hheld & _ & _ & -> & -> & Ht & Hseq)
                |(data & -> & -> & Ht & Hrow & Hseq)]]].
  - destruct (no_fault_case _ _ _ Hf He).
  - split_and!; [by eapply frame_no_faults | exact Hs' | lia | by rewrite Ht | | done].
    cbn. specialize (Hs (l_name l)). rewrite Hrow in Hs. unfold drawn_before in Hs.
    rewrite Hheld in Hs. apply Z.leb_le in Hs. lia.
  - assert (Hother : l_name l <> l_name lh).
    { intros Hn. apply holds_row in Hh as (r & Hr & Hx).
      pose proof (holds_drawn lh w Hs) as Hle.
      rewrite <- Hn in Hr.
      pose proof (upsert_lookup (l_name l) (rvn_seq w + 1) (l_data l)
                    (l_recordVersionNumber l) (l_replaceData l) (table w)) as Hup.
      rewrite <- Ht, Hrow, Hr in Hup. unfold claimable in Hup. rewrite Hx in Hup.
      destruct (Z.eqb_spec (l_recordVersionNumber lh) (l_recordVersionNumber l)) as [Heq|_];
        [congruence|].
      injection Hup as <-. cbn in Hx. injection Hx as Hx.
      assert (holds lh (table w) = true) as Hh'.
      { apply holds_row. exists {| record_version_number := Some (rvn_seq w + 1); row_data := data |}.
        rewrite <- Hn. by rewrite Hr, Hx. }
      specialize (Hle Hh'). lia. }
    split_and!; [by eapply frame_no_faults | exact Hs' | lia | | cbn; lia | done].
    rewrite <- Hh. apply holds_same_row. rewrite Ht. by apply upsert_lookup_ne.
Qed.

Lemma storeHeartbeat_protects c l w lh err l' w' :
  faults w = [] -> sequence_ahead w ->
  holds lh (table w) = true ->
  l_recordVersionNumber l <= rvn_seq w ->
  l_recordVersionNumber l <> l_recordVersionNumber lh ->
  storeHeartbeat c l w = (err, l', w') ->
  faults w' = [] /\ sequence_ahead w' /\ rvn_seq w <= rvn_seq w'
  /\ holds lh (table w') = true
  /\ l_recordVersionNumber l' <= rvn_seq w'
  /\ l_recordVersionNumber l' <> l_recordVersionNumber lh.
Proof.
  intros Hf Hs Hh Hle Hne Hrun.
  pose proof (storeHeartbeat_sequence_ahead c l w Hs) as Hs'. rewrite Hrun in Hs'.
  cbn [snd] in Hs'.
  pose proof (holds_drawn lh w Hs Hh) as Hdrawn.
  destruct (storeHeartbeat_result _ _ _ _ _ _ Hrun)
    as [Hframe [(n & e & v & _ & He & _)
               |[(Hno & -> & -> & Ht)|(Hyes & -> & -> & Ht & Hseq)]]].
  - destruct (no_fault_case _ _ _ Hf He).
  - pose proof (frame_no_faults _ _ Hframe Hf) as Hf'.
    destruct Hframe as (_ & _ & Hseq & _).
    split_and!; [exact Hf' | exact Hs' | lia | by rewrite Ht | cbn; lia | done].
  - assert (Hother : l_name l <> l_name lh).
    { intros Hn. apply holds_row in Hh as (r & Hr & Hx).
      apply holds_row in Hyes as (r' & Hr' & Hx'). rewrite Hn in Hr'. congruence. }
    split_and!; [by eapply frame_no_faults | exact Hs' | lia | | cbn; lia | cbn; lia].
    rewrite <- Hh. apply holds_same_row. rewrite Ht. by apply lookup_alter_ne.
Qed.

Lemma storeRelease_protects c l w lh err l' w' :
  faults w = [] -> sequence_ahead w ->
  holds lh (table w) = true ->
  l_recordVersionNumber l <> l_recordVersionNumber lh ->
  storeRelease c l w = (err, l', w') ->
  faults w' = [] /\ sequence_ahead w' /\ rvn_seq w' = rvn_seq w
  /\ holds lh (table w') = true
  /\ l_recordVersionNumber l' = l_recordVersionNumber l.
Proof.
  intros Hf Hs Hh Hne Hrun.
  pose proof (storeRelease_sequence_ahead c l w Hs) as Hs'. rewrite Hrun in Hs'.
  cbn [snd] in Hs'.
  assert (Hrvn : l_recordVersionNumber (released l) = l_recordVersionNumber l).
  { unfold released, heartbeatCancel. cbn. by destruct (l_heartbeat l). }
  destruct (storeRelease_result _ _ _ _ _ _ Hrun)
    as (Hframe & Hseq & [(n & e & v & _ & He & _)
                        |[(Hno & -> & -> & Ht)|(Hyes & -> & -> & Ht)]]).
  - destruct (no_fault_case _ _ _ Hf He).
  - split_and!; [by eapply frame_no_faults | exact Hs' | exact Hseq | by rewrite Ht
                | exact Hrvn].
  - assert (Hother : l_name l <> l_name lh).
    { intros Hn. apply holds_row in Hh as (r & Hr & Hx).
      apply holds_row in Hyes as (r' & Hr' & Hx'). rewrite Hn in Hr'. congruence. }
    split_and!; [by eapply frame_no_faults | exact Hs' | exact Hseq | | exact Hrvn].
    rewrite <- Hh. apply holds_same_row. rewrite Ht.
    destruct (l_keepOnRelease l); [by apply lookup_alter_ne | by apply lookup_delete_ne].
Qed.

Lemma storeAcquire_by_holder c l w err l' w' :
  faults w = [] -> sequence_ahead w ->
  holds l (table w) = true ->
  storeAcquire c l w = (err, l', w') ->
  err = None /\ faults w' = [] /\ sequence_ahead w'
  /\ rvn_seq w' = rvn_seq w + 1
  /\ l_recordVersionNumber l' = rvn_seq w + 1
  /\ l_name l' = l_name l
  /\ holds l' (table w') = true.
Proof.
  intros Hf Hs Hh Hrun.
  pose proof (storeAcquire_sequence_ahead c l w Hs) as Hs'. rewrite Hrun in Hs'.
  cbn [snd] in Hs'.
  assert (Hcl : claimable (table w !! l_name l) (l_recordVersionNumber l) = true).
  { apply holds_row in Hh as (r & -> & Hx). unfold claimable. rewrite Hx.
    apply Z.eqb_refl. }
  rewrite (storeAcquire_claimable c l w Hf (Hs _) Hcl) in Hrun.
  injection Hrun as <- <- <-.
  destruct (frame_after true (acquire_calls ++ [call_Commit]) w)
    as (_ & _ & _ & Hseq & _ & Hfl).
  cbv zeta in Hseq, Hfl. unfold drawn_if in *. unfold set_table in *.
  cbn [faults rvn_seq table] in *.
  split_and!; [done | rewrite Hf in Hfl; exact Hfl | exact Hs' | exact Hseq | done | done |].
  apply holds_row. eexists. cbn. rewrite lookup_insert_eq. by split.
Qed.

Lemma storeHeartbeat_by_holder c l w err l' w' :
  faults w = [] -> sequence_ahead w ->
  holds l (table w) = true ->
  storeHeartbeat c l w = (err, l', w') ->
  err = None /\ faults w' = [] /\ sequence_ahead w'
  /\ rvn_seq w' = rvn_seq w + 1
  /\ l_recordVersionNumber l' = rvn_seq w + 1
  /\ l_name l' = l_name l
  /\ holds l' (table w') = true.
Proof.
  intros Hf Hs Hh Hrun.
  pose proof (storeHeartbeat_sequence_ahead c l w Hs) as Hs'. rewrite Hrun in Hs'.
  cbn [snd] in Hs'.
  rewrite (storeHeartbeat_ok c l w Hf), Hh in Hrun.
  injection Hrun as <- <- <-.
  destruct (frame_after true (heartbeat_calls ++ [call_Commit]) w)
    as (_ & _ & _ & Hseq & _ & Hfl).
  cbv zeta in Hseq, Hfl. unfold drawn_if in *. unfold set_table in *.
  cbn [faults rvn_seq table] in *.
  split_and!; [done | rewrite Hf in Hfl; exact Hfl | exact Hs' | exact Hseq | done | done |].
  apply holds_row in Hh as (r & Hr & Hx).
  apply holds_row. exists (refresh_row (rvn_seq w + 1) r). cbn.
  by rewrite lookup_alter_eq, Hr.
Qed.

Lemma lock_kept_weaken h p s lh : lock_kept h false s lh -> lock_kept h p s lh.
Proof.
  intros (Hf & Hs & Hh & Hholds & Hpos & Hall & Hne).
  split_and!; try done. intros _. by apply Hne.
Qed.

Lemma lock_kept_other h p' s lh k lk l' w' :
  lock_kept h false s lh ->
  k <> h -> sys_handles s !! k = Some lk ->
  faults w' = [] -> sequence_ahead w' ->
  rvn_seq (sys_world s) <= rvn_seq w' ->
  holds lh (table w') = true ->
  l_recordVersionNumber l' <= rvn_seq w' ->
  (p' = false -> l_recordVersionNumber l' <> l_recordVersionNumber lh) ->
  lock_kept h p' {| sys_world := w'; sys_handles := <[k := l']> (sys_handles s) |} lh.
Proof.
  intros (Hf & Hs & Hh & Hholds & Hpos & Hall & Hne) Hk Hlk Hf' Hs' Hseq Hholds' Hle Hne'.
  unfold lock_kept. cbn [sys_world sys_handles].
  split_and!; try done.
  - by rewrite list_lookup_insert_ne.
  - apply Forall_insert; [|exact Hle].
    eapply Forall_impl; [exact Hall|]. cbn. intros; lia.
  - intros Hp k' lk' Hk' Hlk'. destruct (decide (k' = k)) as [->|Hkk].
    + rewrite list_lookup_insert_eq in Hlk' by by eapply lookup_lt_Some.
      injection Hlk' as <-. by apply Hne'.
    + rewrite list_lookup_insert_ne in Hlk' by done. by eapply Hne.
Qed.

Lemma lock_kept_holder h p s lh l' w' :
  lock_kept h p s lh ->
  faults w' = [] -> sequence_ahead w' ->
  rvn_seq w' = rvn_seq (sys_world s) + 1 ->
  l_recordVersionNumber l' = rvn_seq (sys_world s) + 1 ->
  holds l' (table w') = true ->
  lock_kept h false {| sys_world := w'; sys_handles := <[h := l']> (sys_handles s) |} l'.
Proof.
  intros (Hf & Hs & Hh & Hholds & Hpos & Hall & Hne) Hf' Hs' Hseq Hrvn Hholds'.
  pose proof (holds_drawn lh _ Hs Hholds) as Hdrawn.
  unfold lock_kept. cbn [sys_world sys_handles].
  split_and!; try done.
  - apply list_lookup_insert_eq. by eapply lookup_lt_Some.
  - lia.
  - apply Forall_insert; [|lia].
    eapply Forall_impl; [exact Hall|]. cbn. intros; lia.
  - intros _ k lk Hk Hlk. rewrite list_lookup_insert_ne in Hlk by done.
    rewrite Forall_lookup in Hall. specialize (Hall _ _ Hlk). cbn in Hall. lia.
Qed.

Lemma step_lock_kept h a p p' s lh :
  lock_kept h p s lh ->
  watch h p a = Some p' ->
  exists lh',
    lock_kept h p' (step a s).1 lh'
    /\ l_name lh' = l_name lh
    /\ Forall (fun o => obs_name o = l_name lh -> obs_handle o = h) (step a s).2.
Proof.
  intros Hinv Hwatch.
  pose proof Hinv as (Hf & Hs & Hh & Hholds & Hpos & Hall & Hne).
  pose proof (holds_drawn lh _ Hs Hholds) as Hdrawn.
  destruct a as [c name opts|c k|c k|c k]; cbn [watch] in Hwatch; cbn [step].
  - injection Hwatch as <-. exists lh. cbn [fst snd]. split_and!; [|done|constructor].
    unfold lock_kept. cbn [sys_world sys_handles].
    destruct (newLock_fresh c name opts) as (_ & Hzero & _).
    split_and!; try done.
    + apply lookup_app_l_Some. exact Hh.
    + apply Forall_app. split; [exact Hall|]. constructor; [|constructor]. lia.
    + intros Hp k lk Hk Hlk. apply lookup_app_Some in Hlk as [Hlk|[_ Hlk]].
      * by eapply Hne.
      * destruct (k - length (sys_handles s))%nat; [|done].
        injection Hlk as <-. lia.
  - destruct p; [discriminate|]. injection Hwatch as <-.
    destruct (sys_handles s !! k) as [lk|] eqn:Hlk.
    2: { exists lh. cbn [fst snd]. split_and!; [by apply lock_kept_weaken|done|constructor]. }
    rewrite tryAcquire_storeAcquire.
    destruct (storeAcquire c lk (sys_world s)) as [[err l1] w1] eqn:Hrun.
    cbn [fst snd].
    destruct (Nat.eqb_spec k h) as [->|Hk]; cbn [negb].
    + assert (lk = lh) as -> by congruence.
      destruct (storeAcquire_by_holder _ _ _ _ _ _ Hf Hs Hholds Hrun)
        as (-> & Hf' & Hs' & Hseq & Hrvn & Hname & Hholds').
      exists (set_heartbeat hb_active l1). split_and!.
      * by apply (lock_kept_holder h false s lh).
      * exact Hname.
      * constructor; [done|constructor].
    + assert (Hdiff : l_recordVersionNumber lk <> l_recordVersionNumber lh)
        by by eapply Hne.
      destruct (storeAcquire_protects _ _ _ lh _ _ _ Hf Hs Hholds Hdiff Hrun)
        as (Hf' & Hs' & Hseq & Hholds' & Hle & Herr).
      destruct (storeAcquire_handle _ _ _ _ _ _ Hrun) as ((Hname & _) & _).
      exists lh. split_and!.
      * apply (lock_kept_other h true s lh k lk); try done.
        by destruct err.
      * done.
      * destruct err as [e|]; constructor; [|constructor].
        cbn. intros Hn. exfalso. apply Herr; [congruence|done].
  - unfold on_handle.
    destruct (Nat.eqb_spec k h) as [->|Hk].
    + injection Hwatch as <-. rewrite Hh.
      destruct (storeHeartbeat c lh (sys_world s)) as [[err l1] w1] eqn:Hrun.
      cbn [fst snd].
      destruct (storeHeartbeat_by_holder _ _ _ _ _ _ Hf Hs Hholds Hrun)
        as (-> & Hf' & Hs' & Hseq & Hrvn & Hname & Hholds').
      exists l1. split_and!; [by apply (lock_kept_holder h p s lh)|exact Hname|constructor].
    + destruct p; [discriminate|]. injection Hwatch as <-.
      destruct (sys_handles s !! k) as [lk|] eqn:Hlk.
      2: { exists lh. cbn [fst snd]. by split_and!; [| |constructor]. }
      destruct (storeHeartbeat c lk (sys_world s)) as [[err l1] w1] eqn:Hrun.
      cbn [fst snd].
      assert (Hdiff : l_recordVersionNumber lk <> l_recordVersionNumber lh)
        by by eapply Hne.
      assert (Hlek : l_recordVersionNumber lk <= rvn_seq (sys_world s)).
      { rewrite Forall_lookup in Hall. exact (Hall _ _ Hlk). }
      destruct (storeHeartbeat_protects _ _ _ lh _ _ _ Hf Hs Hholds Hlek Hdiff Hrun)
        as (Hf' & Hs' & Hseq & Hholds' & Hle & Hne').
      exists lh. split_and!; [|done|constructor].
      by apply (lock_kept_other h false s lh k lk).
  - unfold on_handle.
    destruct p; [discriminate|]. cbn [orb] in Hwatch.
    destruct (Nat.eqb_spec k h) as [->|Hk]; [discriminate|]. injection Hwatch as <-.
    destruct (sys_handles s !! k) as [lk|] eqn:Hlk.
    2: { exists lh. cbn [fst snd]. by split_and!; [| |constructor]. }
    assert (Hdiff : l_recordVersionNumber lk <> l_recordVersionNumber lh)
      by by eapply Hne.
    assert (Hlek : l_recordVersionNumber lk <= rvn_seq (sys_world s)).
    { rewrite Forall_lookup in Hall. exact (Hall _ _ Hlk). }
    destruct (IsReleased lk).
    + cbn [fst snd]. exists lh. split_and!; [|done|constructor].
      apply (lock_kept_other h false s lh k lk); try done; lia.
    + destruct (storeRelease c lk (sys_world s)) as [[err l1] w1] eqn:Hrun.
      cbn [fst snd].
      destruct (storeRelease_protects _ _ _ lh _ _ _ Hf Hs Hholds Hdiff Hrun)
        as (Hf' & Hs' & Hseq & Hholds' & Hrvn).
      exists lh. split_and!; [|done|constructor].
      apply (lock_kept_other h false s lh k lk); try done; try lia; congruence.
Qed.

(** X7.  Heartbeats that come in time keep the lock.  Let handle [h] hold
    its lock under a positive RVN that no other handle carries, on a
    database whose driver does not fail and where the RVNs of the rows and
    of the handles were all drawn from the sequence ([lock_kept]).  Let the
    transactions of any number of handles run in any order in which every
    attempt of another handle to acquire is followed at once by a heartbeat
    of [h], and [h] is not released ([heartbeat_in_time]).  Then [h] holds
    its lock at the end, and no other handle was ever told that it acquired
    that lock. *)
Theorem heartbeat_in_time_keeps_lock sched h s lh :
  lock_kept h false s lh ->
  heartbeat_in_time h false sched = true ->
  exists lh',
    sys_handles (run_schedule sched s).1 !! h = Some lh'
    /\ l_name lh' = l_name lh
    /\ holds lh' (table (sys_world (run_schedule sched s).1)) = true
    /\ Forall (fun o => obs_name o = l_name lh -> obs_handle o = h)
         (run_schedule sched s).2.
Proof.
  generalize false at 1 2 as p.
  intros p. revert p s lh.
  induction sched as [|a sched IH]; intros p s lh Hinv Hsched.
  - destruct Hinv as (_ & _ & Hh & Hholds & _). exists lh. cbn.
    split_and!; [done|done|done|constructor].
  - cbn [heartbeat_in_time] in Hsched.
    destruct (watch h p a) as [p'|] eqn:Hwatch; [|discriminate].
    destruct (step_lock_kept h a p p' s lh Hinv Hwatch) as (lh1 & Hinv1 & Hname1 & Hobs1).
    destruct (IH p' _ lh1 Hinv1 Hsched) as (lh' & Hh' & Hname' & Hholds' & Hobs').
    rewrite run_schedule_cons. cbn [fst snd].
    exists lh'. split_and!; [done|congruence|done|].
    apply Forall_app. split; [exact Hobs1|]. by rewrite <- Hname1.
Qed.

Lemma heartbeat_in_time_keeps_lock_witness :
  lock_kept 0 false ex_system_held ex_holder
  /\ exists lh',
       sys_handles (run_schedule ex_contended ex_system_held).1 !! 0%nat = Some lh'
       /\ holds lh' (table (sys_world (run_schedule ex_contended ex_system_held).1)) = true.
Proof.
  assert (Hinv : lock_kept 0 false ex_system_held ex_holder).
  { unfold lock_kept. split_and!.
    - reflexivity.
    - exact sequence_ahead_ex_world_held.
    - reflexivity.
    - vm_compute; reflexivity.
    - vm_compute; reflexivity.
    - repeat constructor; vm_compute; discriminate.
    - intros _ [|[|k]] lk Hk Hlk; [done| |done].
      injection Hlk as <-. vm_compute. discriminate. }
  assert (Hsched : heartbeat_in_time 0 false ex_contended = true)
    by (vm_compute; reflexivity).
  split; [exact Hinv|].
  destruct (heartbeat_in_time_keeps_lock ex_contended 0 ex_system_held ex_holder
              Hinv Hsched) as (lh' & Hh & _ & Hholds & _).
  exists lh'. split; [exact Hh | exact Hholds].
Defined.

Lemma takeover_after_one_lease_witness :
  exists l' w',
    AcquireContext_loop 2 ex_client (newLock ex_client "job" []) ex_world_held
    = Some (Some l', None, w')
    /\ l_recordVersionNumber l' = 9.
Proof.
  assert (Hcalm : calm ex_world_held) by (by split_and!).
  assert (Hrow : table ex_world_held !! l_name (newLock ex_client "job" [])
                 = Some {| record_version_number := Some 7; row_data := [Byte.x01] |})
    by (vm_compute; reflexivity).
  assert (Hne : 7 <> l_recordVersionNumber (newLock ex_client "job" []))
    by (vm_compute; discriminate).
  assert (Hle : 7 <= rvn_seq ex_world_held) by (vm_compute; discriminate).
  destruct (takeover_after_one_lease 0 ex_client (newLock ex_client "job" [])
              ex_world_held _ 7 Hcalm eq_refl Hrow eq_refl Hne Hle)
    as (l' & w' & Hrun & Hrvn & _).
  exists l', w'. split; [exact Hrun | exact Hrvn].
Defined.

(** ** Releasing through a refused handle *)

Lemma release_quiet c fuel l w :
  quiet w ->
  retry (S fuel) (attempt (storeRelease c)) (l, w)
  = Some (let '(err, l', w') := storeRelease c l w in (err, (l', w'))).
Proof.
  intros [Hf Ho]. rewrite retry_unfold. unfold attempt. cbn [fst snd].
  rewrite (quiet_interleave _ Ho), (storeRelease_ok c l w Hf).
  by destruct (holds l (table w)).
Qed.

(** X8.  With [FailIfLocked], [AcquireContext]'s loop answers a held lock
    with [ErrNotAcquired] and the handle, and that handle carries the RVN of
    the holder's row.  So a release through it is not refused: on a database
    that nothing else touches it returns no error and deletes the row, or
    frees it under [KeepOnRelease], and the holder no longer holds its
    lock. *)
Theorem refused_handle_releases_holder fuel fuel' c l lh w r :
  calm w ->
  l_failIfLocked l = true ->
  l_isReleased l = false ->
  l_name lh = l_name l ->
  l_recordVersionNumber lh <> l_recordVersionNumber l ->
  table w !! l_name l = Some r ->
  record_version_number r = Some (l_recordVersionNumber lh) ->
  l_recordVersionNumber lh <= rvn_seq w ->
  exists l1 w1 l2 w2,
    AcquireContext_loop (S fuel) c l w = Some (Some l1, Some ErrNotAcquired, w1)
    /\ l_recordVersionNumber l1 = l_recordVersionNumber lh
    /\ holds lh (table w1) = true
    /\ ReleaseContext (S fuel') c l1 w1 = Some (None, (l2, w2))
    /\ table w2 !! l_name l
       = (if l_keepOnRelease l then Some (free_row r) else None)
    /\ holds lh (table w2) = false.
Proof.
  intros Hcalm Hfail Hrel Hname Hne Hrow Hheld Hle.
  destruct (calm_ctx_Done w Hcalm) as (Hdone & Hcalm0 & Ht0 & Hs0 & _).
  rewrite AcquireContext_loop_unfold, Hdone.
  rewrite (round_quiet_refused c fuel l _ r (l_recordVersionNumber lh) (proj1 Hcalm0));
    [|by rewrite Ht0|done|done|by rewrite Hs0].
  change (l_failIfLocked (set_recordVersionNumber (l_recordVersionNumber lh) l))
    with (l_failIfLocked l).
  rewrite Hfail. cbn [is_ErrNotAcquired andb].
  set (l1 := set_recordVersionNumber (l_recordVersionNumber lh) l).
  destruct (calm_frame true acquire_calls ∅ _ Hcalm0) as [[Hq1 _] _].
  destruct (frame_after true acquire_calls (ctx_Done w).2) as (Ht1 & _).
  cbv zeta in Ht1. unfold drawn_if in *.
  set (w1 := drawn (after_calls acquire_calls (ctx_Done w).2)) in *.
  assert (Hrow1 : table w1 !! l_name l = Some r) by by rewrite Ht1, Ht0.
  assert (Hh1 : holds l1 (table w1) = true).
  { apply holds_row. by exists r. }
  assert (Hhh1 : holds lh (table w1) = true).
  { apply holds_row. exists r. by rewrite Hname. }
  assert (Hrelease : ReleaseContext (S fuel') c l1 w1
                     = Some (None, (released l1,
                                    if l_keepOnRelease l
                                    then set_table (alter free_row (l_name l) (table w1))
                                           (after_calls (release_calls ++ [call_Commit]) w1)
                                    else set_table (delete (l_name l) (table w1))
                                           (after_calls (release_calls ++ [call_delete; call_Commit]) w1)))).
  { unfold ReleaseContext.
    assert (Hrel1 : IsReleased l1 = false) by exact Hrel. rewrite Hrel1.
    by rewrite (release_quiet c fuel' l1 w1 Hq1), (storeRelease_ok c l1 w1 (proj1 Hq1)), Hh1. }
  eexists l1, w1, _, _.
  split_and!; [reflexivity|reflexivity|exact Hhh1|exact Hrelease| |].
  - destruct (l_keepOnRelease l); unfold set_table; cbn [table].
    + by rewrite lookup_alter_eq, Hrow1.
    + by rewrite lookup_delete_eq.
  - unfold holds. rewrite Hname.
    destruct (l_keepOnRelease l); unfold set_table; cbn [table].
    + by rewrite lookup_alter_eq, Hrow1.
    + by rewrite lookup_delete_eq.
Qed.

Lemma refused_handle_releases_holder_witness :
  exists l1 w1 l2 w2,
    AcquireContext_loop 1 ex_client ex_contender ex_world_held
    = Some (Some l1, Some ErrNotAcquired, w1)
    /\ ReleaseContext 1 ex_client l1 w1 = Some (None, (l2, w2))
    /\ holds ex_holder (table w2) = false.
Proof.
  assert (Hcalm : calm ex_world_held) by (by split_and!).
  assert (Hrow : table ex_world_held !! l_name ex_contender
                 = Some {| record_version_number := Some 7; row_data := [Byte.x01] |})
    by (vm_compute; reflexivity).
  assert (Hne : l_recordVersionNumber ex_holder <> l_recordVersionNumber ex_contender)
    by (vm_compute; discriminate).
  assert (Hle : l_recordVersionNumber ex_holder <= rvn_seq ex_world_held)
    by (vm_compute; discriminate).
  destruct (refused_handle_releases_holder 0 0 ex_client ex_contender ex_holder
              ex_world_held _ Hcalm eq_refl eq_refl eq_refl Hne Hrow eq_refl Hle)
    as (l1 & w1 & l2 & w2 & Hacq & _ & _ & Hrel & _ & Hgone).
  exists l1, w1, l2, w2. split_and!; [exact Hacq | exact Hrel | exact Hgone].
Defined.

(** ** Reading the payload without the lock *)

Lemma getLock_result c name w :
  forall data err w', getLock c name w = (data, err, w') ->
  w' = called call_select_for_update w
  /\ (err = None -> exists r, table w !! name = Some r /\ data = row_data r)
  /\ (err <> None -> data = [])
  /\ (table w !! name = None -> err <> None)
  /\ (faults w = [] ->
      err = match table w !! name with
            | Some _ => None
            | None => Some ErrLockNotFound
            end)
  /\ (errors_Is FailedPrecondition err = true -> faults w <> []).
Proof.
  intros data err w'. unfold getLock, db_call, next_fault.
  change (table (called call_select_for_update w)) with (table w).
  change (typedError None "cannot load the data of this lock") with (@None error).
  destruct (faults w) as [|[e|] fs] eqn:Hf; cbv beta iota.
  - destruct (table w !! name) as [r|] eqn:Hr; intros [= <- <- <-];
      split_and!; try done. intros _. by exists r.
  - pose proof (typedError_not_nil e "cannot load the data of this lock") as Hnn.
    destruct e; intros [= <- <- <-]; split_and!; try done.
  - destruct (table w !! name) as [r|] eqn:Hr; intros [= <- <- <-];
      split_and!; try done. intros _. by exists r.
Qed.

Lemma called_frame c w :
  table (called c w) = table w /\ rvn_seq (called c w) = rvn_seq w
  /\ others (called c w) = others w /\ ctx_done (called c w) = ctx_done w
  /\ faults (called c w) = tail (faults w).
Proof. by split_and!. Qed.

Lemma GetDataContext_retry c name fuel :
  forall d w err data w',
    others w = [] ->
    retry fuel (getLock_attempt c name) (d, w) = Some (err, (data, w')) ->
    table w' = table w /\ rvn_seq w' = rvn_seq w /\ others w' = []
    /\ errors_Is FailedPrecondition err = false
    /\ (err = None -> exists r, table w !! name = Some r /\ data = row_data r)
    /\ (err <> None -> data = [])
    /\ (table w !! name = None -> err <> None)
    /\ (faults w = [] ->
        err = match table w !! name with
              | Some _ => None
              | None => Some ErrLockNotFound
              end).
Proof.
  induction fuel as [|fuel IH]; intros d w err data w' Ho Hrun; [discriminate|].
  rewrite retry_unfold in Hrun.
  destruct (getLock c name w) as [[data1 err1] w1] eqn:Hget.
  assert (Hatt : getLock_attempt c name (d, w) = (err1, (data1, w1))).
  { unfold getLock_attempt. cbn [snd]. by rewrite (quiet_interleave _ Ho), Hget. }
  rewrite Hatt in Hrun. cbn [fst snd] in Hrun.
  destruct (getLock_result _ _ _ _ _ _ Hget) as (-> & Hok & Hbad & Hnone & Hquiet & Hfp).
  destruct (called_frame call_select_for_update w) as (Ht & Hs & Ho1 & _ & Hf1).
  destruct (errors_Is FailedPrecondition err1) eqn:Hretry.
  - rewrite Ho in Ho1.
    destruct (IH _ _ _ _ _ Ho1 Hrun) as (Ht' & Hs' & Ho' & Hfp' & Hok' & Hbad' & Hnone' & _).
    rewrite Ht in Ht', Hok', Hnone'. rewrite Hs in Hs'.
    split_and!; try done. intros Hq. by destruct Hfp.
  - injection Hrun as <- <- <-. by split_and!; rewrite ?Ho in *.
Qed.

Lemma GetDataContext_retry_terminates c name fuel :
  forall d w,
    (length (faults w) < fuel)%nat ->
    exists r, retry fuel (getLock_attempt c name) (d, w) = Some r.
Proof.
  induction fuel as [|fuel IH]; intros d w Hlen; [lia|].
  rewrite retry_unfold.
  destruct (getLock c name (interleave w)) as [[data1 err1] w1] eqn:Hget.
  assert (Hatt : getLock_attempt c name (d, w) = (err1, (data1, w1))).
  { unfold getLock_attempt. cbn [snd]. by rewrite Hget. }
  rewrite Hatt. cbn [fst snd].
  destruct (getLock_result _ _ _ _ _ _ Hget) as (-> & _ & _ & _ & _ & Hfp).
  destruct (errors_Is FailedPrecondition err1) eqn:Hretry; [|by eexists].
  apply IH. specialize (Hfp eq_refl).
  assert (Hfi : faults (interleave w) = faults w).
  { unfold interleave. by destruct (others w). }
  rewrite Hfi in Hfp.
  change (faults (called call_select_for_update (interleave w)))
    with (tail (faults (interleave w))).
  rewrite Hfi. destruct (faults w); [done|cbn in *; lia].
Qed.



(** ** Acquire, release, acquire again *)

Lemma no_sleep_in_calls cs : filter is_Sleep (map ev_db cs) = [].
Proof. induction cs as [|x cs IH]; [done|]. cbn. exact IH. Qed.

Lemma acquire_claimable_facts fuel c l w :
  calm w ->
  drawn_before (table w !! l_name l) (rvn_seq w) = true ->
  claimable (table w !! l_name l) (l_recordVersionNumber l) = true ->
  exists w1,
    AcquireContext_loop (S fuel) c l w
    = Some (Some (set_heartbeat hb_active
                    (set_data (acquired_data l (table w !! l_name l))
                       (set_recordVersionNumber (rvn_seq w + 1) l))),
            None, w1)
    /\ calm w1
    /\ table w1
       = <[l_name l := {| record_version_number := Some (rvn_seq w + 1);
                          row_data := acquired_data l (table w !! l_name l) |}]>
           (table w)
    /\ rvn_seq w1 = rvn_seq w + 1
    /\ filter is_Sleep (trace w1) = filter is_Sleep (trace w).
Proof.
  intros Hcalm Hseq Hcl.
  rewrite (AcquireContext_loop_claimable fuel c l w Hcalm Hseq Hcl).
  eexists. split; [reflexivity|].
  destruct (calm_ctx_Done w Hcalm) as (_ & Hcalm0 & Ht0 & Hs0 & Htr0).
  destruct (calm_frame true (acquire_calls ++ [call_Commit])
              (<[l_name l := {| record_version_number := Some (rvn_seq w + 1);
                                row_data := acquired_data l (table w !! l_name l) |}]>
                 (table w)) _ Hcalm0) as [_ Hcalm1].
  destruct (frame_after true (acquire_calls ++ [call_Commit]) (ctx_Done w).2)
    as (_ & _ & _ & Hs1 & Htr1 & _).
  cbv zeta in Hs1, Htr1. unfold drawn_if in *.
  split_and!; [exact Hcalm1 | reflexivity | | ].
  - unfold set_table. cbn [rvn_seq]. rewrite Hs1, Hs0. reflexivity.
  - unfold set_table. cbn [trace]. rewrite Htr1, Htr0, !filter_app.
    assert (Hdb : forall cs, filter is_Sleep (map ev_db cs) = []).
    { intros cs. induction cs as [|x cs IH]; [done|]. cbn. exact IH. }
    rewrite Hdb. cbn. by rewrite !app_nil_r.
Qed.

Lemma release_of_holder fuel c l w :
  quiet w ->
  holds l (table w) = true ->
  l_isReleased l = false ->
  exists w2,
    ReleaseContext (S fuel) c l w = Some (None, (released l, w2))
    /\ quiet w2
    /\ ctx_done w2 = ctx_done w
    /\ rvn_seq w2 = rvn_seq w
    /\ table w2 = (if l_keepOnRelease l
                   then alter free_row (l_name l) (table w)
                   else delete (l_name l) (table w))
    /\ filter is_Sleep (trace w2) = filter is_Sleep (trace w).
Proof.
  intros Hq Hh Hrel. unfold ReleaseContext.
  assert (Hrel1 : IsReleased l = false) by exact Hrel. rewrite Hrel1.
  rewrite (release_quiet c fuel l w Hq), (storeRelease_ok c l w (proj1 Hq)), Hh.
  eexists. split; [reflexivity|].
  destruct (l_keepOnRelease l).
  - destruct (quiet_frame false (release_calls ++ [call_Commit])
                (alter free_row (l_name l) (table w)) w Hq) as [_ Hq2].
    destruct (frame_after false (release_calls ++ [call_Commit]) w)
      as (_ & _ & Hc & Hs & Htr & _).
    cbv zeta in Hc, Hs, Htr. unfold drawn_if in *.
    split_and!; [exact Hq2 | exact Hc | | reflexivity | ].
    + unfold set_table. cbn [rvn_seq]. lia.
    + unfold set_table. cbn [trace].
      by rewrite Htr, filter_app, no_sleep_in_calls, app_nil_r.
  - destruct (quiet_frame false (release_calls ++ [call_delete; call_Commit])
                (delete (l_name l) (table w)) w Hq) as [_ Hq2].
    destruct (frame_after false (release_calls ++ [call_delete; call_Commit]) w)
      as (_ & _ & Hc & Hs & Htr & _).
    cbv zeta in Hc, Hs, Htr. unfold drawn_if in *.
    split_and!; [exact Hq2 | exact Hc | | reflexivity | ].
    + unfold set_table. cbn [rvn_seq]. lia.
    + unfold set_table. cbn [trace].
      by rewrite Htr, filter_app, no_sleep_in_calls, app_nil_r.
Qed.

(** X10.  [Acquire] and then [Release], with nothing else going on: on a
    lock that is absent or free, [Acquire] returns the handle at once, and
    [Release] of that handle returns no error, marks the handle released and
    cancels its heartbeat.  Without [KeepOnRelease] no row is left under the
    name; with it the row stays, free, with the payload that the handle
    acquired.  The one value drawn from the sequence is not given back, and
    the caller's context oracle is not read. *)
Theorem Acquire_Release_round_trip fuel fuel' c name opts w :
  quiet w ->
  drawn_before (table w !! name) (rvn_seq w) = true ->
  claimable (table w !! name) 0 = true ->
  exists l1 w1 l2 w2,
    Acquire (S fuel) c name opts w = Some (Some l1, None, w1)
    /\ l_recordVersionNumber l1 = rvn_seq w + 1
    /\ l_data l1 = acquired_data (newLock c name opts) (table w !! name)
    /\ Release (S fuel') c l1 w1 = Some (None, (l2, w2))
    /\ l_isReleased l2 = true
    /\ l_heartbeat l2 = hb_cancelled
    /\ table w2
       = (if l_keepOnRelease (newLock c name opts)
          then <[name := {| record_version_number := None;
                            row_data := l_data l1 |}]> (table w)
          else delete name (table w))
    /\ rvn_seq w2 = rvn_seq w + 1
    /\ ctx_done w2 = ctx_done w.
Proof.
  intros Hq Hseq Hcl.
  destruct (newLock_fresh c name opts) as (Hfresh & Hzero & Hname & _).
  set (l := newLock c name opts) in *.
  assert (Hcalm : calm (with_ctx_done [] w)) by (destruct Hq; by split_and!).
  destruct (acquire_claimable_facts fuel c l (with_ctx_done [] w) Hcalm)
    as (w1 & Hacq & [Hq1 _] & Ht1 & Hs1 & _).
  { change (table (with_ctx_done [] w)) with (table w).
    change (rvn_seq (with_ctx_done [] w)) with (rvn_seq w). by rewrite Hname. }
  { change (table (with_ctx_done [] w)) with (table w). by rewrite Hname, Hzero. }
  change (table (with_ctx_done [] w)) with (table w) in *.
  change (rvn_seq (with_ctx_done [] w)) with (rvn_seq w) in *.
  rewrite Hname in *.
  set (l1 := set_heartbeat hb_active
               (set_data (acquired_data l (table w !! name))
                  (set_recordVersionNumber (rvn_seq w + 1) l))) in *.
  set (w1' := with_ctx_done (ctx_done w) w1).
  assert (Hq1' : quiet w1') by (destruct Hq1; by split).
  assert (Hh1 : holds l1 (table w1') = true).
  { apply holds_row. eexists. change (table w1') with (table w1).
    change (l_name l1) with (l_name l). rewrite Ht1, Hname, lookup_insert_eq.
    by split. }
  destruct (release_of_holder fuel' c l1 w1' Hq1' Hh1 Hfresh)
    as (w2 & Hrel & _ & Hc2 & Hs2 & Ht2 & _).
  exists l1, w1', (released l1), w2.
  split_and!.
  - unfold Acquire, AcquireContext. fold l. by rewrite Hacq.
  - reflexivity.
  - reflexivity.
  - exact Hrel.
  - apply released_flags.
  - reflexivity.
  - rewrite Ht2. change (table w1') with (table w1).
    change (l_keepOnRelease l1) with (l_keepOnRelease l).
    change (l_name l1) with (l_name l). rewrite Ht1, Hname.
    destruct (l_keepOnRelease l); [by rewrite alter_insert_eq|].
    apply delete_insert_eq.
  - rewrite Hs2. exact Hs1.
  - exact Hc2.
Qed.

Lemma Acquire_Release_round_trip_witness :
  exists l1 w1 l2 w2,
    Acquire 1 ex_client "report" [KeepOnRelease] ex_world_two = Some (Some l1, None, w1)
    /\ Release 1 ex_client l1 w1 = Some (None, (l2, w2))
    /\ table w2 !! "report"
       = Some {| record_version_number := None; row_data := [Byte.x02] |}.
Proof.
  assert (Hq : quiet ex_world_two) by (by split).
  assert (Hseq : drawn_before (table ex_world_two !! "report") (rvn_seq ex_world_two) = true)
    by (vm_compute; reflexivity).
  assert (Hcl : claimable (table ex_world_two !! "report") 0 = true)
    by (vm_compute; reflexivity).
  destruct (Acquire_Release_round_trip 0 0 ex_client "report" [KeepOnRelease]
              ex_world_two Hq Hseq Hcl)
    as (l1 & w1 & l2 & w2 & Hacq & _ & Hdata & Hrel & _ & _ & Ht & _).
  exists l1, w1, l2, w2. split_and!; [exact Hacq | exact Hrel |].
  rewrite Ht, Hdata.
  assert (Hd : acquired_data (newLock ex_client "report" [KeepOnRelease])
                 (table ex_world_two !! "report") = [Byte.x02])
    by (vm_compute; reflexivity).
  rewrite Hd.
  change (l_keepOnRelease (newLock ex_client "report" [KeepOnRelease])) with true.
  cbv iota. apply lookup_insert_eq.
Defined.

(** X11.  A release hands the lock over.  After the holder's [Release], on
    a database that nothing else touches, any handle for the same name,
    whatever RVN it carries, acquires at its first attempt, without a sleep.
    It gets the payload that the holder left in the row if the holder kept
    the row ([KeepOnRelease]) and the acquirer does not replace data;
    otherwise it gets its own. *)
Theorem Release_hands_over fuel fuel' c l l' w r :
  calm w ->
  l_isReleased l = false ->
  table w !! l_name l = Some r ->
  record_version_number r = Some (l_recordVersionNumber l) ->
  l_name l' = l_name l ->
  exists l2 w2 l3 w3,
    ReleaseContext (S fuel) c l w = Some (None, (l2, w2))
    /\ AcquireContext_loop (S fuel') c l' w2 = Some (Some l3, None, w3)
    /\ l_recordVersionNumber l3 = rvn_seq w + 1
    /\ holds l3 (table w3) = true
    /\ l_data l3 = (if l_keepOnRelease l && negb (l_replaceData l')
                    then row_data r else l_data l')
    /\ filter is_Sleep (trace w3) = filter is_Sleep (trace w).
Proof.
  intros [Hq Hc] Hrel Hrow Hheld Hname.
  assert (Hh : holds l (table w) = true) by (apply holds_row; by exists r).
  destruct (release_of_holder fuel c l w Hq Hh Hrel)
    as (w2 & Hrun & Hq2 & Hc2 & Hs2 & Ht2 & Htr2).
  assert (Hcalm2 : calm w2) by (split; [exact Hq2 | by rewrite Hc2]).
  assert (Hrow2 : table w2 !! l_name l'
                  = if l_keepOnRelease l then Some (free_row r) else None).
  { rewrite Ht2, Hname. destruct (l_keepOnRelease l).
    - by rewrite lookup_alter_eq, Hrow.
    - apply lookup_delete_eq. }
  destruct (acquire_claimable_facts fuel' c l' w2 Hcalm2)
    as (w3 & Hacq & _ & Ht3 & Hs3 & Htr3).
  { rewrite Hrow2. by destruct (l_keepOnRelease l). }
  { rewrite Hrow2. by destruct (l_keepOnRelease l). }
  eexists (released l), w2, _, w3.
  split_and!; [exact Hrun | exact Hacq | cbn; lia | | | congruence].
  - apply holds_row. eexists. rewrite Ht3. cbn. rewrite lookup_insert_eq. by split.
  - cbn. rewrite Hrow2. unfold acquired_data.
    destruct (l_keepOnRelease l), (l_replaceData l'); reflexivity.
Qed.

Lemma Release_hands_over_witness :
  exists l2 w2 l3 w3,
    ReleaseContext 1 ex_client ex_holder ex_world_held = Some (None, (l2, w2))
    /\ AcquireContext_loop 1 ex_client ex_contender w2 = Some (Some l3, None, w3)
    /\ l_recordVersionNumber l3 = 8.
Proof.
  assert (Hcalm : calm ex_world_held) by (by split_and!).
  assert (Hrow : table ex_world_held !! l_name ex_holder
                 = Some {| record_version_number := Some 7; row_data := [Byte.x01] |})
    by (vm_compute; reflexivity).
  destruct (Release_hands_over 0 0 ex_client ex_holder ex_contender ex_world_held _
              Hcalm eq_refl Hrow eq_refl eq_refl)
    as (l2 & w2 & l3 & w3 & Hrel & Hacq & Hrvn & _).
  exists l2, w2, l3, w3. split_and!; [exact Hrel | exact Hacq | exact Hrvn].
Defined.

(** X12.  What [GetData] returns is what the holder's handle carries: after
    an [AcquireContext] that returned a handle and no error, and while the
    driver does not fail and no other client writes, [GetData] on the name
    returns the handle's payload and no error, and changes nothing in the
    table. *)
Theorem GetData_after_acquire fuel fuel' c name opts w l1 w1 :
  AcquireContext fuel c name opts w = Some (Some l1, None, w1) ->
  quiet w1 ->
  exists w2,
    GetData (S fuel') c name w1 = Some (l_data l1, None, w2)
    /\ table w2 = table w1.
Proof.
  intros Hacq [Hf Ho].
  destruct (AcquireContext_loop_success _ _ _ _ _ _ Hacq) as (_ & _ & _ & Hrow & _).
  destruct (newLock_fresh c name opts) as (_ & _ & Hname & _).
  rewrite Hname in Hrow.
  unfold GetData, GetDataContext.
  destruct (GetDataContext_retry_terminates c name (S fuel') [] w1)
    as ([err [data w2]] & Hrun); [rewrite Hf; cbn; lia|].
  rewrite Hrun.
  destruct (GetDataContext_retry _ _ _ _ _ _ _ _ Ho Hrun)
    as (Ht & _ & _ & _ & Hok & _ & _ & Hquiet).
  specialize (Hquiet Hf). rewrite Hrow in Hquiet. subst err.
  destruct (Hok eq_refl) as (r & Hr & ->).
  rewrite Hrow in Hr. injection Hr as <-.
  by exists w2.
Qed.

Lemma GetData_after_acquire_witness :
  match ex_waiting with
  | Some (Some l1, None, w1) =>
      exists w2, GetData 1 ex_client "job" w1 = Some (l_data l1, None, w2)
  | _ => False
  end.
Proof.
  destruct ex_waiting as [[[[l1|] [e|]] w1]|] eqn:Hrun;
    try (vm_compute in Hrun; discriminate).
  assert (Hq : quiet w1).
  { assert (Hw : (faults <$> (snd <$> ex_waiting)) = Some [] /\
                 (others <$> (snd <$> ex_waiting)) = Some [])
      by (split; vm_compute; reflexivity).
    rewrite Hrun in Hw. destruct Hw as [[= Hf] [= Ho]]. by split. }
  unfold ex_waiting in Hrun.
  destruct (GetData_after_acquire 3 0 ex_client "job" [] ex_world_held l1 w1 Hrun Hq)
    as (w2 & Hget & _).
  by exists w2.
Defined.

(** ** [Acquire] waits *)

Lemma AcquireContext_loop_background fuel c :
  forall l w hdl err w',
    ctx_done w = [] ->
    l_failIfLocked l = false ->
    AcquireContext_loop fuel c l w = Some (hdl, err, w') ->
    ctx_done w' = []
    /\ err <> Some ErrNotAcquired
    /\ (err = None -> exists l', hdl = Some l')
    /\ (err <> None -> hdl = None).
Proof.
  induction fuel as [|fuel IH]; intros l w hdl err w' Hc Hfail Hrun; [discriminate|].
  rewrite AcquireContext_loop_unfold in Hrun.
  assert (Hdone : (ctx_Done w).1 = false) by (unfold ctx_Done; cbn; by rewrite Hc).
  assert (Hc0 : ctx_done (ctx_Done w).2 = []) by (unfold ctx_Done; cbn; by rewrite Hc).
  rewrite Hdone in Hrun.
  destruct (retry _ _ _) as [[err1 [l1 w1]]|] eqn:Hretry; [|discriminate].
  destruct (round_result _ _ _ _ _ _ _ Hretry) as ((_ & _ & _ & _ & Hfl) & _ & Hc1 & _).
  rewrite Hfl, Hfail in Hrun. cbn [andb] in Hrun.
  destruct (is_ErrNotAcquired err1) eqn:Hna.
  - eapply IH; [| |exact Hrun]; [cbn; congruence|congruence].
  - destruct err1 as [e|]; injection Hrun as <- <- <-.
    + split_and!; [congruence| |done|done].
      intros [= ->]. discriminate.
    + split_and!; [congruence|done| |done]. intros _. by eexists.
Qed.

(** X13.  [Acquire] waits instead of giving up: without [FailIfLocked] it
    never returns [ErrNotAcquired].  What it returns is either a handle and
    no error, or an error of the driver and no handle; and it leaves the
    caller's context alone. *)
Theorem Acquire_never_gives_up fuel c name opts w hdl err w' :
  l_failIfLocked (newLock c name opts) = false ->
  Acquire fuel c name opts w = Some (hdl, err, w') ->
  err <> Some ErrNotAcquired
  /\ (err = None -> exists l', hdl = Some l')
  /\ (err <> None -> hdl = None)
  /\ ctx_done w' = ctx_done w.
Proof.
  intros Hfail. unfold Acquire, AcquireContext.
  destruct (AcquireContext_loop _ _ _ _) as [[[hdl1 err1] w1]|] eqn:Hrun; [|discriminate].
  intros [= <- <- <-].
  destruct (AcquireContext_loop_background fuel c _ (with_ctx_done [] w) _ _ _ eq_refl Hfail Hrun)
    as (_ & Hne & Hok & Hbad).
  by split_and!.
Qed.

Lemma Acquire_never_gives_up_witness :
  match Acquire 3 ex_client "job" [] ex_world_held with
  | Some (hdl, err, w') => err <> Some ErrNotAcquired
  | None => False
  end.
Proof.
  destruct (Acquire 3 ex_client "job" [] ex_world_held) as [[[hdl err] w']|] eqn:Hrun;
    [|vm_compute in Hrun; discriminate].
  exact (proj1 (Acquire_never_gives_up 3 ex_client "job" [] ex_world_held hdl err w'
                  eq_refl Hrun)).
Defined.

(** ** The heartbeat task *)

Lemma heartbeat_loop_unfold fuel c l w :
  l_heartbeat l <> hb_cancelled ->
  heartbeat_loop (S fuel) c l w
  = if (ctx_Done w).1 then Some (l, (ctx_Done w).2)
    else match SendHeartbeat (S fuel) c l
                 (time_Sleep (c_heartbeatFrequency c) (ctx_Done w).2) with
         | None => None
         | Some (Some _, (l1, w1)) => Some (l1, w1)
         | Some (None, (l1, w1)) => heartbeat_loop fuel c l1 w1
         end.
Proof.
  intros Hhb. cbn [heartbeat_loop].
  destruct (l_heartbeat l); [|  |done]; by destruct (ctx_Done w) as [[] w0].
Qed.

Lemma SendHeartbeat_quiet c fuel l w :
  quiet w ->
  SendHeartbeat (S fuel) c l w
  = Some (errors_Wrapf (storeHeartbeat c l w).1.1 ("cannot send heartbeat: " +:+ l_name l),
          ((storeHeartbeat c l w).1.2, (storeHeartbeat c l w).2)).
Proof.
  intros [Hf Ho]. unfold SendHeartbeat. rewrite retry_unfold. unfold attempt.
  cbn [fst snd]. rewrite (quiet_interleave _ Ho), (storeHeartbeat_ok c l w Hf).
  by destruct (holds l (table w)).
Qed.

Lemma heartbeat_loop_ticks c n :
  forall fuel l w rest,
    quiet w ->
    ctx_done w = replicate n false ++ true :: rest ->
    holds l (table w) = true ->
    l_heartbeat l <> hb_cancelled ->
    (n < fuel)%nat ->
    exists l' w',
      heartbeat_loop fuel c l w = Some (l', w')
      /\ l_recordVersionNumber l'
         = (if n is O then l_recordVersionNumber l else rvn_seq w + Z.of_nat n)
      /\ rvn_seq w' = rvn_seq w + Z.of_nat n
      /\ holds l' (table w') = true
      /\ same_settings l l' /\ l_isReleased l' = l_isReleased l
      /\ (forall r, table w !! l_name l = Some r ->
                    exists r', table w' !! l_name l = Some r'
                               /\ row_data r' = row_data r)
      /\ ctx_done w' = rest
      /\ filter is_Sleep (trace w')
         = filter is_Sleep (trace w)
           ++ replicate n (ev_Sleep (c_heartbeatFrequency c)).
Proof.
  induction n as [|n IH]; intros fuel l w rest Hq Hc Hh Hhb Hfuel;
    (destruct fuel as [|fuel]; [lia|]); rewrite heartbeat_loop_unfold by done.
  - assert (Hdone : (ctx_Done w).1 = true) by (unfold ctx_Done; cbn; by rewrite Hc).
    rewrite Hdone. eexists _, _. split; [reflexivity|].
    unfold ctx_Done. cbn. rewrite Hc. cbn.
    split_and!; try done; [lia | by eauto | by rewrite filter_app].
  - assert (Hdone : (ctx_Done w).1 = false) by (unfold ctx_Done; cbn; by rewrite Hc).
    rewrite Hdone.
    set (w0 := time_Sleep (c_heartbeatFrequency c) (ctx_Done w).2).
    assert (Hq0 : quiet w0) by (destruct Hq; by split).
    assert (Ht0 : table w0 = table w) by reflexivity.
    assert (Hs0 : rvn_seq w0 = rvn_seq w) by reflexivity.
    assert (Hc0 : ctx_done w0 = replicate n false ++ true :: rest).
    { unfold w0, ctx_Done. cbn. by rewrite Hc. }
    assert (Htr0 : trace w0 = trace w ++ [ev_Done false; ev_Sleep (c_heartbeatFrequency c)]).
    { unfold w0, ctx_Done. cbn. rewrite Hc. cbn. by rewrite <- app_assoc. }
    rewrite (SendHeartbeat_quiet c fuel l w0 Hq0), (storeHeartbeat_ok c l w0 (proj1 Hq0)).
    rewrite Ht0, Hh. cbn [fst snd errors_Wrapf].
    set (l1 := set_recordVersionNumber (rvn_seq w0 + 1) l).
    set (w1 := set_table _ _).
    destruct (quiet_frame true (heartbeat_calls ++ [call_Commit])
                (alter (refresh_row (rvn_seq w0 + 1)) (l_name l) (table w)) w0 Hq0)
      as [_ Hq1].
    destruct (frame_after true (heartbeat_calls ++ [call_Commit]) w0)
      as (_ & _ & Hc1 & Hs1 & Htr1 & _).
    cbv zeta in Hc1, Hs1, Htr1. unfold drawn_if in *. fold w1 in Hq1.
    assert (Ht1 : table w1 = alter (refresh_row (rvn_seq w0 + 1)) (l_name l) (table w))
      by reflexivity.
    apply holds_row in Hh as (r & Hr & Hx).
    assert (Hh1 : holds l1 (table w1) = true).
    { apply holds_row. exists (refresh_row (rvn_seq w0 + 1) r).
      rewrite Ht1. change (l_name l1) with (l_name l).
      by rewrite lookup_alter_eq, Hr. }
    destruct (IH fuel l1 w1 rest Hq1) as (l' & w' & Hrun & Hrvn & Hseq & Hh' & Hset & Hrel & Hdata & Hc' & Htr');
      [unfold w1, set_table; cbn [ctx_done]; congruence | exact Hh1 | exact Hhb | lia |].
    exists l', w'. split; [exact Hrun|].
    assert (Hs1' : rvn_seq w1 = rvn_seq w + 1).
    { unfold w1, set_table. cbn [rvn_seq]. lia. }
    split_and!.
    + rewrite Hrvn. destruct n; [cbn; lia|]. rewrite Hs1'. lia.
    + rewrite Hseq, Hs1'. lia.
    + exact Hh'.
    + exact Hset.
    + exact Hrel.
    + intros r0 Hr0. rewrite Hr in Hr0. injection Hr0 as <-.
      destruct (Hdata (refresh_row (rvn_seq w0 + 1) r)) as (r' & Hr' & Hd').
      { rewrite Ht1. change (l_name l1) with (l_name l).
        by rewrite lookup_alter_eq, Hr. }
      exists r'. split; [exact Hr'|exact Hd'].
    + exact Hc'.
    + rewrite Htr'. unfold w1, set_table. cbn [trace].
      rewrite Htr1, Htr0, !filter_app, no_sleep_in_calls. cbn.
      rewrite app_nil_r, <- app_assoc. reflexivity.
Qed.

(** X14.  The heartbeat task, left alone: with a positive frequency, a
    driver that does not fail and no other client writing, on a handle that
    holds its lock and whose heartbeat context is not cancelled, and with a
    context that is done at the poll after [n] ticks, the task sleeps [n]
    times for the heartbeat frequency, draws [n] values from the sequence,
    and returns with the handle still holding the lock under the last value
    drawn.  The payload of the row and the settings of the handle are as
    before. *)
Theorem heartbeat_refreshes_until_cancelled c n fuel l w rest :
  0 < c_heartbeatFrequency c ->
  quiet w ->
  ctx_done w = replicate n false ++ true :: rest ->
  holds l (table w) = true ->
  l_heartbeat l <> hb_cancelled ->
  (n < fuel)%nat ->
  exists l' w',
    heartbeat fuel c l w = Some (l', w')
    /\ l_recordVersionNumber l'
       = (if n is O then l_recordVersionNumber l else rvn_seq w + Z.of_nat n)
    /\ rvn_seq w' = rvn_seq w + Z.of_nat n
    /\ holds l' (table w') = true
    /\ same_settings l l' /\ l_isReleased l' = l_isReleased l
    /\ (forall r, table w !! l_name l = Some r ->
                  exists r', table w' !! l_name l = Some r'
                             /\ row_data r' = row_data r)
    /\ ctx_done w' = rest
    /\ filter is_Sleep (trace w')
       = filter is_Sleep (trace w) ++ replicate n (ev_Sleep (c_heartbeatFrequency c)).
Proof.
  intros Hpos Hq Hc Hh Hhb Hfuel. unfold heartbeat.
  destruct (Z.leb_spec (c_heartbeatFrequency c) 0) as [Hle|_]; [lia|].
  by apply heartbeat_loop_ticks.
Qed.

Lemma heartbeat_refreshes_until_cancelled_witness :
  exists l' w',
    heartbeat 3 ex_client ex_holder ex_world_ticking = Some (l', w')
    /\ l_recordVersionNumber l' = 9
    /\ holds l' (table w') = true.
Proof.
  assert (Hpos : 0 < c_heartbeatFrequency ex_client) by (vm_compute; reflexivity).
  assert (Hq : quiet ex_world_ticking) by (by split).
  assert (Hh : holds ex_holder (table ex_world_ticking) = true)
    by (vm_compute; reflexivity).
  assert (Hhb : l_heartbeat ex_holder <> hb_cancelled) by (vm_compute; discriminate).
  destruct (heartbeat_refreshes_until_cancelled ex_client 2 3 ex_holder ex_world_ticking []
              Hpos Hq eq_refl Hh Hhb ltac:(lia))
    as (l' & w' & Hrun & Hrvn & _ & Hholds & _).
  exists l', w'. split_and!; [exact Hrun | exact Hrvn | exact Hholds].
Defined.

(** X15.  The heartbeat task notices a lost lock at its next tick.  With a
    positive frequency, a driver that does not fail and no other client
    writing, on a handle whose RVN is no longer the row's, and with its
    context neither cancelled nor done at the first poll, the task sleeps
    once for the heartbeat frequency, draws one value from the sequence,
    marks the handle released, and returns: it does not tick again, and it
    leaves the table as it was. *)
Theorem heartbeat_stops_on_loss c fuel l w :
  0 < c_heartbeatFrequency c ->
  quiet w ->
  (ctx_Done w).1 = false ->
  holds l (table w) = false ->
  l_heartbeat l <> hb_cancelled ->
  exists w',
    heartbeat (S fuel) c l w = Some (set_isReleased true l, w')
    /\ table w' = table w
    /\ rvn_seq w' = rvn_seq w + 1
    /\ ctx_done w' = tail (ctx_done w)
    /\ filter is_Sleep (trace w')
       = filter is_Sleep (trace w) ++ [ev_Sleep (c_heartbeatFrequency c)].
Proof.
  intros Hpos Hq Hdone Hh Hhb. unfold heartbeat.
  destruct (Z.leb_spec (c_heartbeatFrequency c) 0) as [Hle|_]; [lia|].
  rewrite heartbeat_loop_unfold by done. rewrite Hdone.
  set (w0 := time_Sleep (c_heartbeatFrequency c) (ctx_Done w).2).
  assert (Hq0 : quiet w0) by (destruct Hq; by split).
  assert (Ht0 : table w0 = table w) by reflexivity.
  rewrite (SendHeartbeat_quiet c fuel l w0 Hq0), (storeHeartbeat_ok c l w0 (proj1 Hq0)).
  rewrite Ht0, Hh. cbn [fst snd errors_Wrapf].
  eexists. split; [reflexivity|].
  destruct (frame_after true heartbeat_calls w0) as (Ht1 & _ & Hc1 & Hs1 & Htr1 & _).
  cbv zeta in Ht1, Hc1, Hs1, Htr1. unfold drawn_if in *.
  split_and!; [by rewrite Ht1 | by rewrite Hs1 | by rewrite Hc1 |].
  rewrite Htr1. unfold w0, time_Sleep, ctx_Done. cbn [trace snd].
  rewrite !filter_app, no_sleep_in_calls. cbn. by rewrite !app_nil_r.
Qed.

Lemma heartbeat_stops_on_loss_witness :
  exists w',
    heartbeat 1 ex_client ex_holder ex_world_taken
    = Some (set_isReleased true ex_holder, w')
    /\ table w' = table ex_world_taken.
Proof.
  assert (Hpos : 0 < c_heartbeatFrequency ex_client) by (vm_compute; reflexivity).
  assert (Hq : quiet ex_world_taken) by (by split).
  assert (Hh : holds ex_holder (table ex_world_taken) = false)
    by (vm_compute; reflexivity).
  assert (Hhb : l_heartbeat ex_holder <> hb_cancelled) by (vm_compute; discriminate).
  destruct (heartbeat_stops_on_loss ex_client 0 ex_holder ex_world_taken
              Hpos Hq eq_refl Hh Hhb) as (w' & Hrun & Ht & _).
  exists w'. split; [exact Hrun | exact Ht].
Defined.

(** ** [Do] *)

Lemma Do_loop_unfold fuel c f l w :
  Do_loop (S fuel) c f l w =
  if (ctx_Done w).1 then Some (Some ErrNotAcquired, l, (ctx_Done w).2)
  else
    match retry (S fuel) (attempt (do c f)) (l, (ctx_Done w).2) with
    | None => None
    | Some (err, (l1, w1)) =>
        if l_failIfLocked l1 && is_ErrNotAcquired err
        then Some (err, l1, w1)
        else if is_ErrNotAcquired err
        then Do_loop fuel c f l1 (time_Sleep (l_leaseDuration l1) w1)
        else Some (err, l1, w1)
    end.
Proof. cbn [Do_loop]. by destruct (ctx_Done w) as [[] w0]. Qed.

Lemma storeAcquire_success_row c l w l1 w1 :
  storeAcquire c l w = (None, l1, w1) ->
  l_name l1 = l_name l
  /\ table w1 !! l_name l
     = Some {| record_version_number := Some (l_recordVersionNumber l1);
               row_data := l_data l1 |}
  /\ l_recordVersionNumber l1 = rvn_seq w1.
Proof.
  intros Hrun.
  destruct (storeAcquire_result _ _ _ _ _ _ Hrun)
    as [_ [(n & e & v & _ & _ & Herr & _)
          |[(r & held & _ & _ & _ & _ & Herr & _)|(data & _ & -> & _ & Hrow & Hseq)]]].
  - symmetry in Herr. by apply typedError_not_nil in Herr.
  - discriminate.
  - by split_and!.
Qed.

Lemma do_keeps_name c f :
  (forall l w, l_name (f l w).1.2 = l_name l) ->
  forall name (s : Lock * World),
    l_name s.1 = name -> l_name (attempt (do c f) s).2.1 = name.
Proof.
  intros Hf name [l w] Hname. unfold attempt, do. cbn [fst snd] in *.
  destruct (storeAcquire c l (interleave w)) as [[[e|] l1] w1] eqn:Hacq.
  - cbn. destruct (storeAcquire_handle _ _ _ _ _ _ Hacq) as ((Hn & _) & _). congruence.
  - destruct (storeAcquire_handle _ _ _ _ _ _ Hacq) as ((Hn & _) & _).
    pose proof (Hf (set_heartbeat hb_active l1) w1) as Hfn.
    destruct (f (set_heartbeat hb_active l1) w1) as [[err l2] w2]. cbn in *. congruence.
Qed.

Lemma Do_loop_nil fuel c f :
  (forall l w, l_name (f l w).1.2 = l_name l) ->
  forall l w lr wr,
    Do_loop fuel c f l w = Some (None, lr, wr) ->
    exists l0 w0 l1 w1 l2,
      l_name l0 = l_name l
      /\ storeAcquire c l0 w0 = (None, l1, w1)
      /\ f (set_heartbeat hb_active l1) w1 = (None, l2, wr)
      /\ lr = set_heartbeat hb_cancelled l2.
Proof.
  intros Hf.
  induction fuel as [|fuel IH]; intros l w lr wr Hrun; [discriminate|].
  rewrite Do_loop_unfold in Hrun.
  destruct (ctx_Done w).1; [discriminate|].
  destruct (retry _ _ _) as [[err [l1 w1]]|] eqn:Hretry; [|discriminate].
  assert (Hkeep : forall s : Lock * World,
             l_name s.1 = l_name l -> l_name (attempt (do c f) s).2.1 = l_name l)
    by (intros s; by apply do_keeps_name).
  assert (Hname1 : l_name l1 = l_name l).
  { change (l_name (err, (l1, w1)).2.1 = l_name l).
    by apply (retry_invariant (fun s : Lock * World => l_name s.1 = l_name l)
                (attempt (do c f)) Hkeep (S fuel) (l, (ctx_Done w).2)). }
  destruct (l_failIfLocked l1 && is_ErrNotAcquired err) eqn:Hfast.
  { injection Hrun as -> _ _. apply andb_true_iff in Hfast as [_ Hna]. discriminate. }
  destruct (is_ErrNotAcquired err) eqn:Hna.
  { destruct (IH _ _ _ _ Hrun) as (l0 & w0 & la & wa & l2 & Hn & Hacq & Hcall & Hlr).
    exists l0, w0, la, wa, l2. split_and!; [congruence|done|done|done]. }
  injection Hrun as -> <- <-.
  destruct (retry_result_inv _ _ _ _ Hretry) as (_ & n & _ & Hcall & _).
  assert (Hname0 : l_name (state_after (attempt (do c f)) n (l, (ctx_Done w).2)).1
                   = l_name l)
    by by apply (state_after_invariant (fun s : Lock * World => l_name s.1 = l_name l)
                   (attempt (do c f)) Hkeep n (l, (ctx_Done w).2)).
  destruct (state_after (attempt (do c f)) n (l, (ctx_Done w).2)) as [la wa].
  cbn [fst] in Hname0.
  unfold attempt, do in Hcall. cbn [fst snd] in Hcall.
  destruct (storeAcquire c la (interleave wa)) as [[[e|] lb] wb] eqn:Hacq;
    [discriminate|].
  destruct (f (set_heartbeat hb_active lb) wb) as [[err2 l2] w2] eqn:Hcb.
  injection Hcall as <- -> ->.
  by exists la, (interleave wa), lb, wb, l2.
Qed.

(** X16.  [Do] runs the callback under the lock that the call names.  A
    callback cannot rename the handle.  When [Do] returns no error, there
    was a [storeAcquire] that succeeded on a handle of that name, the
    callback was called on the handle that it left, with a live heartbeat
    context, in a database where the row of that name carried the handle's
    RVN, the last value drawn, and the handle's payload, and the callback
    returned nil.  And on a database that nothing else touches, where the
    lock is absent or free, [Do] acquires from that database at once, calls
    the callback on the acquired handle, whatever the callback is, and
    returns what the callback returns, unless that is a serialization
    failure or [ErrNotAcquired].  The deferred close gets the handle with
    its heartbeat context cancelled. *)
Theorem Do_nil_means_callback_ran c name opts :
  (forall fuel Close f w l' w',
      (forall l w, l_name (f l w).1.2 = l_name l) ->
      Do fuel c Close name f opts w = Some (None, l', w') ->
      exists l0 w0 l1 w1 l2 w2,
        l_name l1 = name
        /\ storeAcquire c l0 w0 = (None, l1, w1)
        /\ table w1 !! name
           = Some {| record_version_number := Some (l_recordVersionNumber l1);
                     row_data := l_data l1 |}
        /\ l_recordVersionNumber l1 = rvn_seq w1
        /\ f (set_heartbeat hb_active l1) w1 = (None, l2, w2)
        /\ (Close (set_heartbeat hb_cancelled l2) w2).1.2 = l'
        /\ (Close (set_heartbeat hb_cancelled l2) w2).2 = w')
  /\ (forall fuel w,
         calm w ->
         drawn_before (table w !! name) (rvn_seq w) = true ->
         claimable (table w !! name) 0 = true ->
         exists l1 w1,
           l_name l1 = name
           /\ l_heartbeat l1 = hb_active
           /\ l_recordVersionNumber l1 = rvn_seq w + 1
           /\ l_data l1 = acquired_data (newLock c name opts) (table w !! name)
           /\ rvn_seq w1 = rvn_seq w + 1
           /\ table w1
              = <[name := {| record_version_number := Some (rvn_seq w + 1);
                             row_data := l_data l1 |}]> (table w)
           /\ forall Close f err l2 w2,
                f l1 w1 = (err, l2, w2) ->
                errors_Is FailedPrecondition err = false ->
                is_ErrNotAcquired err = false ->
                Do (S fuel) c Close name f opts w
                = Some (err, (Close (set_heartbeat hb_cancelled l2) w2).1.2,
                        (Close (set_heartbeat hb_cancelled l2) w2).2)).
Proof.
  destruct (newLock_fresh c name opts) as (_ & Hzero & Hname & _).
  split.
  - intros fuel Close f w l' w' Hf. unfold Do.
    destruct (Do_loop _ _ _ _ _) as [[[err lr] wr]|] eqn:Hloop; [|discriminate].
    destruct (Close lr wr) as [[e3 l3] w3] eqn:Hclose. intros [= -> <- <-].
    destruct (Do_loop_nil _ _ _ Hf _ _ _ _ Hloop)
      as (l0 & w0 & l1 & w1 & l2 & Hn0 & Hacq & Hcb & ->).
    destruct (storeAcquire_success_row _ _ _ _ _ Hacq) as (Hn1 & Hrow & Hrvn).
    rewrite Hn0, Hname in Hn1, Hrow.
    exists l0, w0, l1, w1, l2, wr. rewrite Hclose.
    by split_and!.
  - intros fuel w Hcalm Hseq Hcl.
    set (l := newLock c name opts) in *.
    destruct (calm_ctx_Done w Hcalm) as (Hdone & [[Hf0 Ho0] _] & Ht0 & Hs0 & _).
    set (w0 := (ctx_Done w).2) in *.
    assert (Hacq : storeAcquire c l w0
                   = (None,
                      set_data (acquired_data l (table w !! name))
                        (set_recordVersionNumber (rvn_seq w + 1) l),
                      set_table
                        (<[name := {| record_version_number := Some (rvn_seq w + 1);
                                      row_data := acquired_data l (table w !! name) |}]>
                           (table w))
                        (drawn (after_calls (acquire_calls ++ [call_Commit]) w0)))).
    { rewrite (storeAcquire_claimable c l w0 Hf0); rewrite ?Hname, ?Ht0, ?Hs0, ?Hzero;
        done. }
    destruct (frame_after true (acquire_calls ++ [call_Commit]) w0) as (_ & _ & _ & Hs1 & _).
    cbv zeta in Hs1. unfold drawn_if in Hs1.
    exists (set_heartbeat hb_active
              (set_data (acquired_data l (table w !! name))
                 (set_recordVersionNumber (rvn_seq w + 1) l))),
           (set_table
              (<[name := {| record_version_number := Some (rvn_seq w + 1);
                            row_data := acquired_data l (table w !! name) |}]>
                 (table w))
              (drawn (after_calls (acquire_calls ++ [call_Commit]) w0))).
    split_and!; [exact Hname | reflexivity | reflexivity | reflexivity | | reflexivity |].
    + unfold set_table. cbn [rvn_seq]. rewrite Hs1, Hs0. reflexivity.
    + intros Close f err l2 w2 Hcb Hfp Hna.
      unfold Do. fold l. rewrite Do_loop_unfold, Hdone. fold w0.
      rewrite retry_unfold.
      assert (Hdo : attempt (do c f) (l, w0) = (err, (set_heartbeat hb_cancelled l2, w2))).
      { unfold attempt, do. cbn [fst snd].
        by rewrite (quiet_interleave _ Ho0), Hacq, Hcb. }
      rewrite Hdo. cbn [fst snd]. rewrite Hfp, Hna, andb_false_r.
      by destruct (Close (set_heartbeat hb_cancelled l2) w2) as [[e3 l3] w3].
Qed.

Lemma Do_nil_means_callback_ran_witness :
  exists l1 w1,
    l_name l1 = "report"
    /\ table w1 !! "report"
       = Some {| record_version_number := Some 8; row_data := [Byte.x02] |}
    /\ Do 1 ex_client ex_Close "report" ex_callback [] ex_world_two
       = Some (None, set_heartbeat hb_cancelled l1, w1).
Proof.
  assert (Hcalm : calm ex_world_two) by (by split_and!).
  assert (Hseq : drawn_before (table ex_world_two !! "report") (rvn_seq ex_world_two) = true)
    by (vm_compute; reflexivity).
  assert (Hcl : claimable (table ex_world_two !! "report") 0 = true)
    by (vm_compute; reflexivity).
  destruct (Do_nil_means_callback_ran ex_client "report" []) as [_ Hrun].
  destruct (Hrun 0%nat ex_world_two Hcalm Hseq Hcl)
    as (l1 & w1 & Hname & _ & _ & Hdata & _ & Ht & Hdo).
  exists l1, w1. split; [exact Hname|]. split.
  - rewrite Ht, Hdata, lookup_insert_eq.
    assert (Hd : acquired_data (newLock ex_client "report" []) (table ex_world_two !! "report")
                 = [Byte.x02]) by (vm_compute; reflexivity).
    rewrite Hd. reflexivity.
  - exact (Hdo ex_Close ex_callback None l1 w1 eq_refl eq_refl eq_refl).
Defined.

(** ** What [SendHeartbeat] reports *)

(** X17.  [SendHeartbeat] returns no error only when the heartbeat went
    through: the handle then carries the last value drawn from the sequence
    and holds its lock.  Any error it returns is wrapped with the message
    that names the lock, so it is never the bare [ErrLockAlreadyReleased];
    when the wrapped error is that sentinel, the handle is marked
    released. *)
Theorem SendHeartbeat_report fuel c l w err l' w' :
  SendHeartbeat fuel c l w = Some (err, (l', w')) ->
  (err = None ->
   l_recordVersionNumber l' = rvn_seq w' /\ holds l' (table w') = true)
  /\ (forall e, err = Some e ->
        exists cause, e = Wrapf cause ("cannot send heartbeat: " +:+ l_name l)
                      /\ is_kind FailedPrecondition cause = false)
  /\ err <> Some ErrLockAlreadyReleased
  /\ (err = Some (Wrapf ErrLockAlreadyReleased ("cannot send heartbeat: " +:+ l_name l)) ->
      l_isReleased l' = true).
Proof.
  unfold SendHeartbeat.
  destruct (retry _ _ _) as [[err0 [l1 w1]]|] eqn:Hretry; [|discriminate].
  intros [= <- <- <-].
  destruct (retry_result_inv _ _ _ _ Hretry) as (Hfp & _). cbn [fst] in Hfp.
  apply retry_last_call in Hretry as [[l0 w0] Hcall].
  unfold attempt in Hcall. cbn [fst snd] in Hcall.
  destruct (storeHeartbeat c l0 (interleave w0)) as [[err2 l2] w2] eqn:Hrun.
  injection Hcall as <- <- <-.
  destruct (storeHeartbeat_result _ _ _ _ _ _ Hrun)
    as (_ & [(n & e & v & _ & _ & -> & _)
            |[(_ & -> & -> & _)|(Hh & -> & -> & Ht & Hseq)]]).
  - pose proof (typedError_not_nil e v) as Hnn.
    pose proof (typedError_not_ErrLockAlreadyReleased e v) as Hnr.
    destruct (typedError (Some e) v) as [e'|] eqn:He; [|done].
    cbn [errors_Wrapf]. split_and!; try done.
    + intros e0 [= <-]. by exists e'.
    + intros [= ->]. done.
  - cbn [errors_Wrapf]. split_and!; try done.
    intros e0 [= <-]. by eexists.
  - cbn [errors_Wrapf]. split_and!; try done. intros _. split; [by rewrite Hseq|].
    apply holds_row in Hh as (r & Hr & Hx). apply holds_row.
    exists (refresh_row (rvn_seq (interleave w0) + 1) r). cbn.
    by rewrite Ht, lookup_alter_eq, Hr.
Qed.

Lemma SendHeartbeat_report_witness :
  exists l' w',
    SendHeartbeat 1 ex_client ex_holder ex_world_taken
    = Some (Some (Wrapf ErrLockAlreadyReleased "cannot send heartbeat: job"), (l', w'))
    /\ l_isReleased l' = true.
Proof.
  destruct (SendHeartbeat 1 ex_client ex_holder ex_world_taken)
    as [[err [l' w']]|] eqn:Hrun; [|vm_compute in Hrun; discriminate].
  assert (Herr : err = Some (Wrapf ErrLockAlreadyReleased "cannot send heartbeat: job")).
  { assert (H : fst <$> SendHeartbeat 1 ex_client ex_holder ex_world_taken
                = Some (Some (Wrapf ErrLockAlreadyReleased "cannot send heartbeat: job")))
      by (vm_compute; reflexivity).
    rewrite Hrun in H. by injection H. }
  subst err. exists l', w'. split; [reflexivity|].
  exact (proj2 (proj2 (proj2 (SendHeartbeat_report 1 ex_client ex_holder ex_world_taken
                                _ l' w' Hrun))) eq_refl).
Defined.

(** ** The options of [New] *)

Lemma foldl_durations opts :
  forall c c',
    c_db c = c_db c' ->
    c_leaseDuration c = c_leaseDuration c' ->
    c_heartbeatFrequency c = c_heartbeatFrequency c' ->
    c_db (foldl apply_ClientOption c opts) = c_db (foldl apply_ClientOption c' opts)
    /\ c_leaseDuration (foldl apply_ClientOption c opts)
       = c_leaseDuration (foldl apply_ClientOption c' opts)
    /\ c_heartbeatFrequency (foldl apply_ClientOption c opts)
       = c_heartbeatFrequency (foldl apply_ClientOption c' opts).
Proof.
  induction opts as [|o opts IH]; intros c c' Hd Hl Hh; [done|].
  cbn [foldl]. apply IH; by destruct o.
Qed.

Lemma New_cosmetic db opts1 opts2 o :
  (forall c, c_db (apply_ClientOption c o) = c_db c
             /\ c_leaseDuration (apply_ClientOption c o) = c_leaseDuration c
             /\ c_heartbeatFrequency (apply_ClientOption c o) = c_heartbeatFrequency c) ->
  (New db (opts1 ++ o :: opts2)).2 = (New db (opts1 ++ opts2)).2
  /\ c_leaseDuration <$> (New db (opts1 ++ o :: opts2)).1
     = c_leaseDuration <$> (New db (opts1 ++ opts2)).1
  /\ c_heartbeatFrequency <$> (New db (opts1 ++ o :: opts2)).1
     = c_heartbeatFrequency <$> (New db (opts1 ++ opts2)).1.
Proof.
  intros Ho. unfold New. destruct db as [d|]; [|done].
  destruct (db_Driver d); [|done].
  rewrite !foldl_app. cbn [foldl].
  set (c1 := foldl apply_ClientOption (default_Client d) opts1).
  destruct (Ho c1) as (Hd & Hl & Hh).
  destruct (foldl_durations opts2 _ _ Hd Hl Hh) as (_ & Hl2 & Hh2).
  unfold isDurationTooSmall. rewrite Hl2, Hh2.
  destruct (_ && _); cbn; [done|]. by rewrite Hl2, Hh2.
Qed.

(** X19.  The verdict of [New] depends on the two durations only: adding
    a [WithLogger] or a [WithCustomTable] anywhere among the options changes
    neither the error that [New] returns nor the lease duration and the
    heartbeat frequency of the client that it returns. *)
Theorem New_verdict_ignores_logger_and_table db opts1 opts2 :
  (forall lg,
      (New db (opts1 ++ WithLogger lg :: opts2)).2 = (New db (opts1 ++ opts2)).2
      /\ c_leaseDuration <$> (New db (opts1 ++ WithLogger lg :: opts2)).1
         = c_leaseDuration <$> (New db (opts1 ++ opts2)).1
      /\ c_heartbeatFrequency <$> (New db (opts1 ++ WithLogger lg :: opts2)).1
         = c_heartbeatFrequency <$> (New db (opts1 ++ opts2)).1)
  /\ (forall t,
         (New db (opts1 ++ WithCustomTable t :: opts2)).2 = (New db (opts1 ++ opts2)).2
         /\ c_leaseDuration <$> (New db (opts1 ++ WithCustomTable t :: opts2)).1
            = c_leaseDuration <$> (New db (opts1 ++ opts2)).1
         /\ c_heartbeatFrequency <$> (New db (opts1 ++ WithCustomTable t :: opts2)).1
            = c_heartbeatFrequency <$> (New db (opts1 ++ opts2)).1).
Proof. split; intros x; by apply New_cosmetic. Qed.

(** ** Reading after a release *)

(** X20.  What [GetData] finds after the holder's [Release], on a database
    that nothing else touches: with [KeepOnRelease] the row is still there
    and [GetData] returns its payload, unchanged, and no error; without it
    the row is gone and [GetData] returns no payload and
    [ErrLockNotFound]. *)
Theorem GetData_after_release fuel fuel' c l w r :
  quiet w ->
  l_isReleased l = false ->
  table w !! l_name l = Some r ->
  record_version_number r = Some (l_recordVersionNumber l) ->
  exists l2 w2 w3,
    Release (S fuel) c l w = Some (None, (l2, w2))
    /\ GetData (S fuel') c (l_name l) w2
       = Some (if l_keepOnRelease l then row_data r else [],
               if l_keepOnRelease l then None else Some ErrLockNotFound,
               w3)
    /\ table w3 = table w2.
Proof.
  intros Hq Hrel Hrow Hheld.
  assert (Hh : holds l (table w) = true) by (apply holds_row; by exists r).
  destruct (release_of_holder fuel c l w Hq Hh Hrel)
    as (w2 & Hrun & [Hf2 Ho2] & _ & _ & Ht2 & _).
  exists (released l), w2.
  unfold GetData, GetDataContext.
  destruct (GetDataContext_retry_terminates c (l_name l) (S fuel') [] w2)
    as ([err [data w3]] & Hget); [rewrite Hf2; cbn; lia|].
  rewrite Hget. exists w3.
  destruct (GetDataContext_retry _ _ _ _ _ _ _ _ Ho2 Hget)
    as (Ht3 & _ & _ & _ & Hok & Hbad & _ & Hquiet).
  specialize (Hquiet Hf2).
  split; [exact Hrun|]. split; [|exact Ht3].
  rewrite Ht2 in Hquiet, Hok. destruct (l_keepOnRelease l).
  - rewrite lookup_alter_eq, Hrow in Hquiet, Hok. cbn in Hquiet, Hok. subst err.
    destruct (Hok eq_refl) as (r' & [= <-] & ->). reflexivity.
  - rewrite lookup_delete_eq in Hquiet. subst err.
    by rewrite Hbad.
Qed.

Lemma GetData_after_release_witness :
  exists l2 w2 w3,
    Release 1 ex_client ex_holder ex_world_held = Some (None, (l2, w2))
    /\ GetData 1 ex_client "job" w2 = Some ([], Some ErrLockNotFound, w3).
Proof.
  assert (Hq : quiet ex_world_held) by (by split).
  assert (Hrow : table ex_world_held !! l_name ex_holder
                 = Some {| record_version_number := Some 7; row_data := [Byte.x01] |})
    by (vm_compute; reflexivity).
  destruct (GetData_after_release 0 0 ex_client ex_holder ex_world_held _
              Hq eq_refl Hrow eq_refl) as (l2 & w2 & w3 & Hrel & Hget & _).
  exists l2, w2, w3. split; [exact Hrel | exact Hget].
Defined.

(** ** [Do] on a lock that is held *)

(** X21.  With [FailIfLocked], [Do] on a lock that another holds does not
    run the callback: on a database that nothing else touches, its loop
    returns [ErrNotAcquired] after one refused acquisition, with the same
    handle and the same database whatever the callback is, and the table is
    as it was. *)
Theorem Do_refused_skips_callback fuel c l w r held :
  calm w ->
  l_failIfLocked l = true ->
  table w !! l_name l = Some r ->
  record_version_number r = Some held ->
  held <> l_recordVersionNumber l ->
  held <= rvn_seq w ->
  exists l1 w1,
    table w1 = table w
    /\ forall f, Do_loop (S fuel) c f l w = Some (Some ErrNotAcquired, l1, w1).
Proof.
  intros Hcalm Hfail Hrow Hheld Hne Hle.
  destruct (calm_ctx_Done w Hcalm) as (Hdone & [[Hf0 Ho0] _] & Ht0 & Hs0 & _).
  exists (set_recordVersionNumber held l),
         (drawn (after_calls acquire_calls (ctx_Done w).2)).
  split.
  - destruct (frame_after true acquire_calls (ctx_Done w).2) as (Ht1 & _).
    cbv zeta in Ht1. unfold drawn_if in Ht1. by rewrite Ht1.
  - intros f. cbn [Do_loop].
    destruct (ctx_Done w) as [done w0] eqn:Hpoll. cbn [fst snd] in *. subst done.
    rewrite retry_unfold.
    assert (Hdo : attempt (do c f) (l, w0)
                  = (Some ErrNotAcquired,
                     (set_recordVersionNumber held l,
                      drawn (after_calls acquire_calls w0)))).
    { unfold attempt, do. cbn [fst snd].
      rewrite (quiet_interleave _ Ho0).
      rewrite (storeAcquire_refused c l w0 r held Hf0); try done; [by rewrite Ht0|lia]. }
    rewrite Hdo. cbn [fst snd errors_Is is_kind].
    change (l_failIfLocked (set_recordVersionNumber held l)) with (l_failIfLocked l).
    by rewrite Hfail.
Qed.

Lemma Do_refused_skips_callback_witness :
  exists l1 w1,
    table w1 = table ex_world_held
    /\ Do_loop 1 ex_client ex_callback ex_contender ex_world_held
       = Some (Some ErrNotAcquired, l1, w1).
Proof.
  assert (Hcalm : calm ex_world_held) by (by split_and!).
  assert (Hrow : table ex_world_held !! l_name ex_contender
                 = Some {| record_version_number := Some 7; row_data := [Byte.x01] |})
    by (vm_compute; reflexivity).
  assert (Hne : 7 <> l_recordVersionNumber ex_contender) by (vm_compute; discriminate).
  assert (Hle : 7 <= rvn_seq ex_world_held) by (vm_compute; discriminate).
  destruct (Do_refused_skips_callback 0 ex_client ex_contender ex_world_held _ 7
              Hcalm eq_refl Hrow eq_refl Hne Hle) as (l1 & w1 & Ht & Hrun).
  exists l1, w1. split; [exact Ht | exact (Hrun ex_callback)].
Defined.

(** ** C8: the retry discipline *)

Lemma Do_loop_error fuel c f :
  forall l w err l' w',
    Do_loop fuel c f l w = Some (err, l', w') ->
    errors_Is FailedPrecondition err = false.
Proof.
  induction fuel as [|fuel IH]; intros l w err l' w' Hrun; [discriminate|].
  rewrite Do_loop_unfold in Hrun.
  destruct (ctx_Done w).1; [by injection Hrun as <- <- <-|].
  destruct (retry _ _ _) as [[err1 [l1 w1]]|] eqn:Hretry; [|discriminate].
  apply retry_result_inv in Hretry as [Hno _]. cbn [fst] in Hno.
  destruct (l_failIfLocked l1 && is_ErrNotAcquired err1);
    [by injection Hrun as <- <- <-|].
  destruct (is_ErrNotAcquired err1); [by eapply IH|].
  by injection Hrun as <- <- <-.
Qed.

(** C8, as the code has it.  The classifier makes an error a
    [FailedPrecondition] exactly when it is a PostgreSQL error with SQLSTATE
    40001, and [ErrNotAcquired] is not one.  [retry] calls the operation
    again after each result classified [FailedPrecondition] and returns the
    first result that is not: given fuel for it, the result of [retry] is
    the result of the first call whose error is not a [FailedPrecondition],
    whatever that error is, [ErrNotAcquired] included.  So no error that
    [retry] returns is a [FailedPrecondition], and neither is any error
    returned by [ReleaseContext], [SendHeartbeat], [GetDataContext],
    [AcquireContext] or [Do].  The re-issuing ends when the serialization
    failures do: fuel beyond the length of the fault oracle gives a result.
    What [retry] returns goes to the public operation that called it.
    [ReleaseContext] and [GetDataContext] return it as it is, and
    [SendHeartbeat] returns it wrapped with the name of the lock.
    [AcquireContext] and [Do] return the error of a round as it is, with
    one exception: an [ErrNotAcquired] on a handle without [failIfLocked] is
    not returned to the caller; the operation sleeps for the lease duration
    and starts the next round. *)
Theorem retry_discipline :
  (forall e v,
      errors_Is FailedPrecondition (typedError e v) = true
      <-> e = Some (pq_Error "40001"))
  /\ errors_Is FailedPrecondition (Some ErrNotAcquired) = false
  /\ (forall (St : Type) (f : St -> option error * St) (s : St) (n fuel : nat),
         (n < fuel)%nat ->
         (forall i, (i < n)%nat ->
                    errors_Is FailedPrecondition (f (state_after f i s)).1 = true) ->
         errors_Is FailedPrecondition (f (state_after f n s)).1 = false ->
         retry fuel f s = Some (f (state_after f n s)))
  /\ (forall (St : Type) (f : St -> option error * St) (s : St) (fuel : nat) err s',
         retry fuel f s = Some (err, s') ->
         errors_Is FailedPrecondition err = false)
  /\ (forall fuel c l w err s,
         ReleaseContext fuel c l w = Some (err, s) ->
         errors_Is FailedPrecondition err = false)
  /\ (forall fuel c l w err s,
         SendHeartbeat fuel c l w = Some (err, s) ->
         errors_Is FailedPrecondition err = false)
  /\ (forall fuel c name w data err w',
         GetDataContext fuel c name w = Some (data, err, w') ->
         errors_Is FailedPrecondition err = false)
  /\ (forall fuel c name opts w hdl err w',
         AcquireContext fuel c name opts w = Some (hdl, err, w') ->
         errors_Is FailedPrecondition err = false)
  /\ (forall fuel c Close name f opts w err l' w',
         Do fuel c Close name f opts w = Some (err, l', w') ->
         errors_Is FailedPrecondition err = false)
  /\ (forall fuel c l w name,
         (length (faults w) < fuel)%nat ->
         (exists r, retry fuel (attempt (tryAcquire c)) (l, w) = Some r)
         /\ (exists r, ReleaseContext fuel c l w = Some r)
         /\ (exists r, SendHeartbeat fuel c l w = Some r)
         /\ (exists r, GetDataContext fuel c name w = Some r))
  /\ (forall fuel c l w,
         l_isReleased l = false ->
         ReleaseContext fuel c l w = retry fuel (attempt (storeRelease c)) (l, w))
  /\ (forall fuel c name w err data w',
         retry fuel (getLock_attempt c name) ([], w) = Some (err, (data, w')) ->
         GetDataContext fuel c name w = Some (data, err, w'))
  /\ (forall fuel c l w err s,
         retry fuel (attempt (storeHeartbeat c)) (l, w) = Some (err, s) ->
         SendHeartbeat fuel c l w
         = Some (errors_Wrapf err ("cannot send heartbeat: " +:+ l_name l), s))
  /\ (forall fuel c l w e l1 w1,
         (ctx_Done w).1 = false ->
         retry (S fuel) (attempt (tryAcquire c)) (l, (ctx_Done w).2)
         = Some (Some e, (l1, w1)) ->
         e <> ErrNotAcquired \/ l_failIfLocked l = true ->
         exists hdl, AcquireContext_loop (S fuel) c l w = Some (hdl, Some e, w1))
  /\ (forall fuel c l w l1 w1,
         (ctx_Done w).1 = false ->
         retry (S fuel) (attempt (tryAcquire c)) (l, (ctx_Done w).2)
         = Some (Some ErrNotAcquired, (l1, w1)) ->
         l_failIfLocked l = false ->
         AcquireContext_loop (S fuel) c l w
         = AcquireContext_loop fuel c l1 (time_Sleep (l_leaseDuration l) w1))
  /\ (forall fuel c f l w e l1 w1,
         (ctx_Done w).1 = false ->
         retry (S fuel) (attempt (do c f)) (l, (ctx_Done w).2)
         = Some (Some e, (l1, w1)) ->
         e <> ErrNotAcquired \/ l_failIfLocked l1 = true ->
         Do_loop (S fuel) c f l w = Some (Some e, l1, w1))
  /\ (forall fuel c f l w l1 w1,
         (ctx_Done w).1 = false ->
         retry (S fuel) (attempt (do c f)) (l, (ctx_Done w).2)
         = Some (Some ErrNotAcquired, (l1, w1)) ->
         l_failIfLocked l1 = false ->
         Do_loop (S fuel) c f l w
         = Do_loop fuel c f l1 (time_Sleep (l_leaseDuration l1) w1)).
Proof.
  assert (Hna : forall e, e <> ErrNotAcquired -> is_ErrNotAcquired (Some e) = false).
  { intros e He. by destruct e. }
  split_and!.
  - apply typedError_FailedPrecondition.
  - reflexivity.
  - intros St f s n fuel. apply retry_first_result.
  - intros St f s fuel err s' Hr. by apply retry_result_inv in Hr as [Hno _].
  - intros fuel c l w err s. unfold ReleaseContext.
    destruct (IsReleased l).
    + by intros [= <- <-].
    + intros Hr. by apply retry_result_inv in Hr as [Hno _].
  - intros fuel c l w err s. unfold SendHeartbeat.
    destruct (retry fuel _ _) as [[err1 s1]|] eqn:Hr; [|discriminate].
    intros [= <- <-]. apply retry_result_inv in Hr as [Hno _].
    by destruct err1.
  - intros fuel c name w data err w'. unfold GetDataContext.
    destruct (retry fuel _ _) as [[err1 [data1 w1]]|] eqn:Hr; [|discriminate].
    intros [= <- <- <-]. by apply retry_result_inv in Hr as [Hno _].
  - intros fuel c name opts w hdl err w'. apply AcquireContext_loop_error.
  - intros fuel c Close name f opts w err l' w'. unfold Do.
    destruct (Do_loop _ _ _ _ _) as [[[err1 l1] w1]|] eqn:Hloop; [|discriminate].
    destruct (Close l1 w1) as [[e2 l2] w2]. intros [= <- <- <-].
    by eapply Do_loop_error.
  - intros fuel c l w name Hfuel.
    split_and!; [by apply round_terminates | by apply ReleaseContext_terminates
                | by apply SendHeartbeat_terminates |].
    unfold GetDataContext.
    destruct (GetDataContext_retry_terminates c name fuel [] w Hfuel)
      as ([err [data w']] & ->). eauto.
  - intros fuel c l w Hrel. unfold ReleaseContext, IsReleased. by rewrite Hrel.
  - intros fuel c name w err data w' Hr. unfold GetDataContext. by rewrite Hr.
  - intros fuel c l w err s Hr. unfold SendHeartbeat. by rewrite Hr.
  - intros fuel c l w e l1 w1 Hpoll Hretry Hcase.
    rewrite AcquireContext_loop_unfold, Hpoll, Hretry.
    destruct (round_result _ _ _ _ _ _ _ Hretry) as ((_ & _ & _ & _ & Hfl) & _).
    destruct Hcase as [He|Hfail].
    + rewrite (Hna e He), andb_false_r. eauto.
    + rewrite Hfl, Hfail. cbn [andb].
      destruct (is_ErrNotAcquired (Some e)); eauto.
  - intros fuel c l w l1 w1 Hpoll Hretry Hfail.
    rewrite AcquireContext_loop_unfold, Hpoll, Hretry.
    destruct (round_result _ _ _ _ _ _ _ Hretry) as ((_ & Hd & _ & _ & Hfl) & _).
    by rewrite Hfl, Hfail, Hd.
  - intros fuel c f l w e l1 w1 Hpoll Hretry Hcase.
    rewrite Do_loop_unfold, Hpoll, Hretry.
    destruct Hcase as [He|Hfail].
    + by rewrite (Hna e He), andb_false_r.
    + rewrite Hfail. cbn [andb]. by destruct (is_ErrNotAcquired (Some e)).
  - intros fuel c f l w l1 w1 Hpoll Hretry Hfail.
    rewrite Do_loop_unfold, Hpoll, Hretry. by rewrite Hfail.
Qed.

Lemma retry_discipline_witness :
  retry 2 (attempt (storeRelease ex_client)) (ex_holder, ex_world_conflict)
  = Some (attempt (storeRelease ex_client)
            (state_after (attempt (storeRelease ex_client)) 1
               (ex_holder, ex_world_conflict)))
  /\ errors_Is FailedPrecondition
       (attempt (storeRelease ex_client) (ex_holder, ex_world_conflict)).1 = true.
Proof.
  destruct retry_discipline as (_ & _ & Hfirst & _).
  split; [|vm_compute; reflexivity].
  apply Hfirst.
  - lia.
  - intros i Hi. assert (i = 0%nat) as -> by lia. vm_compute. reflexivity.
  - vm_compute. reflexivity.
Defined.

(** C8 as the specification words it, refuted.  A caller waits for ["job"],
    held by a silent holder, without [failIfLocked].  The first round of
    [retry] ends with [ErrNotAcquired], which is not a [FailedPrecondition]
    and is not re-issued by [retry]; yet the public operation does not
    return it to its caller: [AcquireContext] sleeps for the lease, tries
    again, and returns a handle and no error. *)
Lemma retry_discipline_counterexample :
  (ctx_Done ex_world_held).1 = false
  /\ l_failIfLocked (newLock ex_client "job" []) = false
  /\ errors_Is FailedPrecondition (Some ErrNotAcquired) = false
  /\ (exists l1 w1,
        retry 3 (attempt (tryAcquire ex_client))
          (newLock ex_client "job" [], (ctx_Done ex_world_held).2)
        = Some (Some ErrNotAcquired, (l1, w1)))
  /\ (exists l' w',
        AcquireContext 3 ex_client "job" [] ex_world_held = Some (Some l', None, w')).
Proof.
  split_and!; try (vm_compute; reflexivity);
    eexists _, _; vm_compute; reflexivity.
Qed.
